(** * blender_auto_render.py: batch rendering of animation frames

    A shallow embedding of [src/blender_auto_render.py].  The script drives
    the host application through its scripting interface ([bpy]): it looks
    objects up by name, writes visibility and mute flags, sets the current
    frame and asks for a render.  The host scene is modelled as an explicit
    store that every operation threads, together with a trace of the writes
    and calls made on the host, in a small state-and-exception monad.

    What is taken from the host and the platform: a lookup of a missing
    object gives [None] and an attribute access on [None] raises
    [AttributeError]; a missing track name raises [KeyError]; a render always
    completes; [os.path] is [posixpath]; [os.makedirs] is recorded with the
    directory it is asked for. *)

From Stdlib Require Import ZArith Strings.String Strings.Ascii Numbers.DecimalString.
From Stdlib Require Import Sorting.Sorted Numbers.DecimalPos Numbers.DecimalZ.
From stdpp Require Import base gmap strings list fin_maps.

Local Open Scope string_scope.
Local Open Scope Z_scope.
Local Open Scope list_scope.

(** ** Python strings and integers *)

Module Py.

(** [str(frame)] for a Python [int]: decimal digits, ["-"] in front of a
    negative number, ["0"] for zero. *)
Definition str (z : Z) : string := NilZero.string_of_int (Z.to_int z).

Fixpoint zeros (n : nat) : string :=
  match n with
  | O => ""
  | S k => String "0" (zeros k)
  end.

(** [s.zfill(width)]: a string at least [width] long is returned as it is;
    otherwise zeros are inserted on the left, after a leading sign. *)
Definition zfill (width : nat) (s : string) : string :=
  let n := String.length s in
  if (width <=? n)%nat then s
  else
    let fill := zeros (width - n) in
    match s with
    | String c rest =>
        if (Ascii.eqb c "+" || Ascii.eqb c "-")%bool
        then String c (fill +:+ rest)
        else fill +:+ s
    | EmptyString => fill
    end.

(** [range(start, stop, step)], as CPython builds it: the length is computed
    first, element [i] is [start + i * step].  A zero step is a
    [ValueError], here [None]. *)
Definition range_len (start stop step : Z) : Z :=
  if 0 <? step then
    if start <? stop then (stop - start - 1) / step + 1 else 0
  else
    if stop <? start then (start - stop - 1) / (- step) + 1 else 0.

Definition range (start stop step : Z) : option (list Z) :=
  if step =? 0 then None
  else Some (map (fun i : nat => start + Z.of_nat i * step)
                 (seq 0 (Z.to_nat (range_len start stop step)))).

(** Comparison of Python strings, [a < b]: lexicographic on the characters. *)
Definition str_lt (a b : string) : bool :=
  match String.compare a b with
  | Lt => true
  | _ => false
  end.

(** [os.sep] and [os.path.join(a, b)] of [posixpath]. *)
Definition sep : string := "/".

Definition startswith_sep (s : string) : bool :=
  match s with
  | String c _ => Ascii.eqb c "/"
  | EmptyString => false
  end.

Fixpoint endswith_sep (s : string) : bool :=
  match s with
  | EmptyString => false
  | String c EmptyString => Ascii.eqb c "/"
  | String _ rest => endswith_sep rest
  end.

Definition path_join (a b : string) : string :=
  if startswith_sep b then b
  else if (String.eqb a "" || endswith_sep a)%bool then a +:+ b
  else a +:+ sep +:+ b.

End Py.

(** ** The host scene *)

(** An NLA track of an object's animation data: a name and a mute flag. *)
Record nla_track := NlaTrack {
  track_name : string;
  track_mute : bool
}.

(** A scene object: the two visibility flags the script writes, and its
    animation data ([None] when the object has none), an ordered collection
    of tracks that is indexed by position and searched by name. *)
Record bobject := BObject {
  hide_render : bool;
  hide_viewport : bool;
  animation_data : option (list nla_track)
}.

(** [bpy.data.objects] and the fields of [bpy.context.scene] the script
    touches. *)
Record scene := Scene {
  objects : gmap string bobject;
  frame_current : Z;
  frame_end : Z;
  render_filepath : string
}.

(** A track handle, as Python holds it: the owning object and the position
    of the track in that object's collection.  The script never deletes or
    renames an object or a track, so a handle stays valid once obtained. *)
Definition track_ref : Type := string * nat.

(** What the script does to the host, in program order. *)
Inductive event :=
| EFrameSet (f : Z)
| ESetMute (obj : string) (idx : nat) (b : bool)
| ESetHideRender (obj : string) (b : bool)
| ESetHideViewport (obj : string) (b : bool)
| ESetFrameEnd (f : Z)
| ESetFilepath (p : string)
| ERender (sc : scene)
| EMakedirs (p : string)
| EPrint (msg : string).

(** The scene, the directory of the scene file ([bpy.path.abspath("//")]),
    the directories that exist, and the trace so far. *)
Record world := World {
  w_scene : scene;
  w_blend_dir : string;
  w_dirs : gset string;
  w_trace : list event
}.

Definition with_scene (f : scene -> scene) (w : world) : world :=
  World (f (w_scene w)) (w_blend_dir w) (w_dirs w) (w_trace w).

Definition emit (evs : list event) (w : world) : world :=
  World (w_scene w) (w_blend_dir w) (w_dirs w) (w_trace w ++ evs).

Definition add_dir (p : string) (w : world) : world :=
  World (w_scene w) (w_blend_dir w) ({[ p ]} ∪ w_dirs w) (w_trace w).

(** *** Pure scene updates *)

Definition set_frame_current (f : Z) (sc : scene) : scene :=
  Scene (objects sc) f (frame_end sc) (render_filepath sc).

Definition set_frame_end (f : Z) (sc : scene) : scene :=
  Scene (objects sc) (frame_current sc) f (render_filepath sc).

Definition set_render_filepath (p : string) (sc : scene) : scene :=
  Scene (objects sc) (frame_current sc) (frame_end sc) p.

Definition set_objects (m : gmap string bobject) (sc : scene) : scene :=
  Scene m (frame_current sc) (frame_end sc) (render_filepath sc).

Definition obj_set_hide_render (b : bool) (o : bobject) : bobject :=
  BObject b (hide_viewport o) (animation_data o).

Definition obj_set_hide_viewport (b : bool) (o : bobject) : bobject :=
  BObject (hide_render o) b (animation_data o).

Definition track_set_mute (b : bool) (t : nla_track) : nla_track :=
  NlaTrack (track_name t) b.

Definition obj_set_mute (i : nat) (b : bool) (o : bobject) : bobject :=
  BObject (hide_render o) (hide_viewport o)
          (alter (track_set_mute b) i <$> animation_data o).

Definition alter_object (f : bobject -> bobject) (x : string) (sc : scene) : scene :=
  set_objects (alter f x (objects sc)) sc.

(** The tracks of object [x], when it exists and has animation data. *)
Definition lookup_tracks (sc : scene) (x : string) : option (list nla_track) :=
  o ← objects sc !! x; animation_data o.

(** [nla_tracks[name]]: the position of the first track of that name. *)
Fixpoint find_track (name : string) (ts : list nla_track) : option nat :=
  match ts with
  | [] => None
  | t :: rest =>
      if String.eqb (track_name t) name then Some O
      else S <$> find_track name rest
  end.

(** ** The monad: state and Python exceptions *)

Inductive py_exc :=
| AttributeError
| KeyError (key : string)
| UnboundLocalError (var : string)
| ValueError.

Inductive outcome (A : Type) :=
| Done (a : A)
| Raised (e : py_exc).
Arguments Done {A} a.
Arguments Raised {A} e.

(** A computation runs from a world to an outcome and the world it leaves
    behind; an exception keeps the writes made before it. *)
Definition M (A : Type) : Type := world -> outcome A * world.

Definition ret {A} (a : A) : M A := fun w => (Done a, w).

Definition raise {A} (e : py_exc) : M A := fun w => (Raised e, w).

Definition bind {A B} (m : M A) (k : A -> M B) : M B :=
  fun w =>
    match m w with
    | (Done a, w') => k a w'
    | (Raised e, w') => (Raised e, w')
    end.

Notation "x <- m ;; k" := (bind m (fun x => k))
  (at level 100, m at next level, right associativity).
Notation "m ;;; k" := (bind m (fun _ => k))
  (at level 100, right associativity).

(** [for x in l: body]. *)
Fixpoint for_each {A} (l : list A) (body : A -> M unit) : M unit :=
  match l with
  | [] => ret tt
  | x :: rest => body x ;;; for_each rest body
  end.

(** *** Host primitives *)

Definition frame_set (f : Z) : M unit :=
  fun w => (Done tt, emit [EFrameSet f] (with_scene (set_frame_current f) w)).

Definition write_frame_end (f : Z) : M unit :=
  fun w => (Done tt, emit [ESetFrameEnd f] (with_scene (set_frame_end f) w)).

Definition read_frame_end : M Z :=
  fun w => (Done (frame_end (w_scene w)), w).

Definition write_filepath (p : string) : M unit :=
  fun w => (Done tt, emit [ESetFilepath p] (with_scene (set_render_filepath p) w)).

(** [bpy.ops.render.render(write_still=True)]: the render sees the scene as
    it is at the call. *)
Definition render : M unit :=
  fun w => (Done tt, emit [ERender (w_scene w)] w).

(** [bpy.data.objects.get(x)]: a handle on the object, or Python's [None]. *)
Definition objects_get (x : string) : M (option string) :=
  fun w => (Done (match objects (w_scene w) !! x with
                  | Some _ => Some x
                  | None => None
                  end), w).

(** [obj.hide_render = b] and [obj.hide_viewport = b]; on [None] the
    attribute assignment raises. *)
Definition write_hide_render (obj : option string) (b : bool) : M unit :=
  match obj with
  | None => raise AttributeError
  | Some x =>
      fun w => (Done tt, emit [ESetHideRender x b]
                           (with_scene (alter_object (obj_set_hide_render b) x) w))
  end.

Definition write_hide_viewport (obj : option string) (b : bool) : M unit :=
  match obj with
  | None => raise AttributeError
  | Some x =>
      fun w => (Done tt, emit [ESetHideViewport x b]
                           (with_scene (alter_object (obj_set_hide_viewport b) x) w))
  end.

(** [obj.animation_data.nla_tracks]: the handles of the object's tracks, in
    order.  [None] has no attribute [animation_data], and an object without
    animation data has [animation_data = None]. *)
Definition nla_tracks (obj : option string) : M (list track_ref) :=
  match obj with
  | None => raise AttributeError
  | Some x =>
      fun w =>
        match lookup_tracks (w_scene w) x with
        | Some ts => (Done (map (fun i => (x, i)) (seq 0 (length ts))), w)
        | None => (Raised AttributeError, w)
        end
  end.

(** [obj.animation_data.nla_tracks[name]]. *)
Definition nla_track_named (obj : option string) (name : string) : M track_ref :=
  match obj with
  | None => raise AttributeError
  | Some x =>
      fun w =>
        match lookup_tracks (w_scene w) x with
        | Some ts =>
            match find_track name ts with
            | Some i => (Done (x, i), w)
            | None => (Raised (KeyError name), w)
            end
        | None => (Raised AttributeError, w)
        end
  end.

(** [track.mute = b]. *)
Definition write_mute (t : track_ref) (b : bool) : M unit :=
  fun w => (Done tt, emit [ESetMute t.1 t.2 b]
                       (with_scene (alter_object (obj_set_mute t.2 b) t.1) w)).

Definition print (msg : string) : M unit :=
  fun w => (Done tt, emit [EPrint msg] w).

Definition abspath_blend_dir : M string :=
  fun w => (Done (w_blend_dir w), w).

Definition path_exists (p : string) : M bool :=
  fun w => (Done (bool_decide (p ∈ w_dirs w)), w).

Definition makedirs (p : string) : M unit :=
  fun w => (Done tt, emit [EMakedirs p] (add_dir p w)).

(** ** The script *)

Definition mute_tracks (tracks : list track_ref) (mute : bool) : M unit :=
  for_each tracks (fun track => write_mute track mute).

Definition render_frame (frame : Z) (filepath : string) : M unit :=
  frame_set frame ;;;
  write_filepath filepath ;;;
  render.

(** An element of [tracks_to_mute] or [tracks_to_unmute]: the integer [0],
    which the test [x[1] != 0] skips, or a list of track names. *)
Inductive layer_arg :=
| Zero
| Names (l : list string).

(** Python's [zip] of three lists stops at the shortest. *)
Fixpoint zip3 {A B C} (la : list A) (lb : list B) (lc : list C) : list (A * B * C) :=
  match la, lb, lc with
  | a :: la', b :: lb', c :: lc' => (a, b, c) :: zip3 la' lb' lc'
  | _, _, _ => []
  end.

Definition mute_and_unmute_entry (x : string * layer_arg * layer_arg) : M unit :=
  let '(x0, x1, x2) := x in
  obj <- objects_get x0 ;;
  match x1 with
  | Zero => ret tt
  | Names l =>
      for_each l (fun y => t <- nla_track_named obj y ;; write_mute t true)
  end ;;;
  match x2 with
  | Zero => ret tt
  | Names l =>
      for_each l (fun z => t <- nla_track_named obj z ;; write_mute t false)
  end.

Definition mute_and_unmute (objs : list string)
    (tracks_to_mute tracks_to_unmute : list layer_arg) : M unit :=
  for_each (zip3 objs tracks_to_mute tracks_to_unmute) mute_and_unmute_entry.

Definition frame_filename (output_path : string) (frame : Z) : string :=
  ((output_path +:+ "_") +:+ Py.zfill 3 (Py.str frame)) +:+ ".png".

(** The default values of [start_frame] and [end_frame] are never used:
    [run_case] passes all four arguments. *)
Definition write_animations2 (output_path : string) (step start_frame end_frame : Z)
    : M unit :=
  match Py.range start_frame (end_frame + 1) step with
  | None => raise ValueError
  | Some frames =>
      for_each frames (fun frame => render_frame frame (frame_filename output_path frame))
  end.

Definition reset_tracks_entry (x : string) : M unit :=
  frame_set 1 ;;;
  (o <- objects_get x ;; ts <- nla_tracks o ;; mute_tracks ts true) ;;;
  (o <- objects_get x ;; t <- nla_track_named o "reset" ;; write_mute t false) ;;;
  (o <- objects_get x ;; t <- nla_track_named o "reset" ;; write_mute t true) ;;;
  (o <- objects_get x ;; ts <- nla_tracks o ;; mute_tracks ts true) ;;;
  (o <- objects_get x ;; t <- nla_track_named o "reset" ;; write_mute t false) ;;;
  frame_set 1 ;;;
  (o <- objects_get x ;; t <- nla_track_named o "reset" ;; write_mute t true).

Definition reset_tracks (obj : list string) : M unit :=
  for_each obj reset_tracks_entry.

Definition hide_objects_entry (true_or_false : bool) (x : string) : M unit :=
  obj2 <- objects_get x ;;
  write_hide_render obj2 true_or_false ;;;
  write_hide_viewport obj2 true_or_false.

Definition hide_objects (objs : list string) (true_or_false : bool) : M unit :=
  for_each objs (hide_objects_entry true_or_false).

(** Reading a local variable that no branch has assigned. *)
Definition read_local {A} (var : string) (v : option A) : M A :=
  match v with
  | Some a => ret a
  | None => raise (UnboundLocalError var)
  end.

(** The [match animal_name] statement.  It assigns the local [objects] and
    the scene's [frame_end] for a known name and prints for any other; the
    value of [objects] before and after is passed explicitly. *)
Definition case_selector (animal_name : string) (objs : option (list string))
    : M (option (list string)) :=
  if String.eqb animal_name "squirrel" then
    write_frame_end 160 ;;;
    ret (Some ["rig"])
  else
    print (("Animal " +:+ animal_name) +:+ " not supported!") ;;;
    ret objs.

Definition animation_list : list string := ["Idle1"; "Walk"].

Definition run_animation (animal_name base_path : string)
    (objs : option (list string)) (mute_rig : list string) (start_frame : Z)
    (anim : string) : M unit :=
  end_frame <- read_frame_end ;;
  let step := 2 in
  let unmute_rig := [anim; "Rotation"] in
  hide_objects ["ShadowPlane"] false ;;;
  o <- read_local "objects" objs ;;
  reset_tracks o ;;;
  o <- read_local "objects" objs ;;
  mute_and_unmute o [Names mute_rig] [Names unmute_rig] ;;;
  let output_path := Py.path_join (base_path +:+ animal_name) anim in
  ex <- path_exists output_path ;;
  (if negb ex then makedirs output_path else ret tt) ;;;
  write_animations2 (Py.path_join output_path anim) step start_frame end_frame.

Definition run_case (animal_name : string) : M unit :=
  d <- abspath_blend_dir ;;
  let base_path := Py.path_join d "renders" +:+ Py.sep in
  hide_objects ["visibleground"] true ;;;
  hide_objects ["ShadowPlane"] false ;;;
  let mute_rig := [] in
  let start_frame := 1 in
  objs <- case_selector animal_name None ;;
  for_each animation_list (run_animation animal_name base_path objs mute_rig start_frame).

(** *** Reading a trace *)

Definition renders (tr : list event) : list scene :=
  omap (fun e => match e with ERender sc => Some sc | _ => None end) tr.

Definition is_render (e : event) : bool :=
  match e with ERender _ => true | _ => false end.

Definition is_makedirs (e : event) : bool :=
  match e with EMakedirs _ => true | _ => false end.

(** ** A sample scene *)

Module Sample.

Definition rig : bobject :=
  BObject false false
    (Some [NlaTrack "Idle1" false; NlaTrack "reset" false;
           NlaTrack "Walk" false; NlaTrack "Rotation" true]).

Definition plane (hidden : bool) : bobject := BObject hidden hidden None.

Definition sc0 : scene :=
  Scene (<["rig" := rig]> (<["visibleground" := plane false]>
          (<["ShadowPlane" := plane true]> ∅))) 37 250 "/tmp/".

Definition w0 : world := World sc0 "/home/user/squirrel/" ∅ [].

End Sample.

(** ** Vocabulary of the statements *)

(** The world after a successful host write: the scene is changed by [f]
    and [evs] is appended to the trace. *)
Definition upd (f : scene -> scene) (evs : list event) (w : world) : world :=
  emit evs (with_scene f w).

(** The tracks of an object changed by [g], when it has animation data. *)
Definition obj_map_tracks (g : list nla_track -> list nla_track) (o : bobject) : bobject :=
  BObject (hide_render o) (hide_viewport o) (g <$> animation_data o).

(** Object [x] has its tracks changed by [g]; nothing else moves. *)
Definition map_tracks (g : list nla_track -> list nla_track) (x : string) (sc : scene)
    : scene :=
  alter_object (obj_map_tracks g) x sc.

(** [ts[i].mute = b] and [t.mute = True] for every [t] of [ts]. *)
Definition mute_at (b : bool) (i : nat) (ts : list nla_track) : list nla_track :=
  alter (track_set_mute b) i ts.

Definition mute_all (ts : list nla_track) : list nla_track :=
  map (track_set_mute true) ts.

(** Both visibility flags of object [x] set to [b]. *)
Definition hide_eff (b : bool) (x : string) (sc : scene) : scene :=
  alter_object (obj_set_hide_viewport b) x (alter_object (obj_set_hide_render b) x sc).

(** The two writes of one iteration of [hide_objects]. *)
Definition hide_trace (b : bool) (x : string) : list event :=
  [ESetHideRender x b; ESetHideViewport x b].

(** The hidden-in-render and hidden-in-viewport flags of object [x]. *)
Definition hidden_flags (sc : scene) (x : string) : option (bool * bool) :=
  (fun o => (hide_render o, hide_viewport o)) <$> objects sc !! x.

(** The writes of [mute_tracks(tracks, True)] over the [n] tracks of [x]. *)
Definition mute_all_trace (x : string) (n : nat) : list event :=
  map (fun i => ESetMute x i true) (seq 0 n).

(** The host writes of one iteration of [reset_tracks] on object [x] with
    [n] tracks whose ["reset"] track is at position [r]. *)
Definition reset_entry_trace (x : string) (n r : nat) : list event :=
  [EFrameSet 1] ++ mute_all_trace x n
  ++ [ESetMute x r false; ESetMute x r true]
  ++ mute_all_trace x n
  ++ [ESetMute x r false; EFrameSet 1; ESetMute x r true].

(** What one iteration of [reset_tracks] leaves: every track of [x] muted,
    the current frame at 1. *)
Definition reset_entry_eff (x : string) (sc : scene) : scene :=
  set_frame_current 1 (map_tracks mute_all x sc).

(** Object [x] can be reset: it exists, has animation data, and one of its
    tracks is named ["reset"]. *)
Definition resettable (sc : scene) (x : string) : Prop :=
  exists ts r, lookup_tracks sc x = Some ts /\ find_track "reset" ts = Some r.

(** The number of tracks of [x] and the position of its ["reset"] track. *)
Definition num_tracks (sc : scene) (x : string) : nat :=
  from_option length O (lookup_tracks sc x).

Definition reset_index (sc : scene) (x : string) : nat :=
  default O (lookup_tracks sc x ≫= find_track "reset").

(** Effect and writes of [reset_tracks] on a list of objects. *)
Definition reset_tracks_eff (objs : list string) (sc : scene) : scene :=
  fold_left (fun s x => reset_entry_eff x s) objs sc.

Definition reset_tracks_trace (sc : scene) (objs : list string) : list event :=
  flat_map (fun x => reset_entry_trace x (num_tracks sc x) (reset_index sc x)) objs.

(** The sequence the specification gives for one object. *)
Definition claimed_reset_trace (x : string) (n r : nat) : list event :=
  mute_all_trace x n
  ++ [ESetMute x r false]
  ++ mute_all_trace x n
  ++ [ESetMute x r false; EFrameSet 1; ESetMute x r true].

(** Effect of [hide_objects] on a list of objects. *)
Definition hide_objects_eff (b : bool) (objs : list string) (sc : scene) : scene :=
  fold_left (fun s x => hide_eff b x s) objs sc.

(** The scene a render of [frame] into [output_path] sees, when the loop
    started from [sc]. *)
Definition shot (output_path : string) (sc : scene) (frame : Z) : scene :=
  set_render_filepath (frame_filename output_path frame) (set_frame_current frame sc).

(** The host calls of one [render_frame]. *)
Definition shot_trace (output_path : string) (sc : scene) (frame : Z) : list event :=
  [EFrameSet frame; ESetFilepath (frame_filename output_path frame);
   ERender (shot output_path sc frame)].

(** The character of a decimal digit. *)
Definition digit_char (d : Z) : ascii := ascii_of_N (48 + Z.to_N d).

(** The specification's [<frame:03d>] for a frame between 0 and 999: the
    hundreds, tens and units digits. *)
Definition pad3 (f : Z) : string :=
  String (digit_char (f / 100))
    (String (digit_char (f / 10 mod 10))
       (String (digit_char (f mod 10)) "")).

(** [str(k).zfill(3)] is [pad3 k] for every [k] below [n]. *)
Definition zfill3_is_pad3_upto (n : nat) : bool :=
  forallb (fun k => String.eqb (Py.zfill 3 (Py.str (Z.of_nat k))) (pad3 (Z.of_nat k)))
          (seq 0 n).

(** Object [x] has a track called [name]. *)
Definition has_track (sc : scene) (x name : string) : Prop :=
  exists ts i, lookup_tracks sc x = Some ts /\ find_track name ts = Some i.

(** The position [nla_tracks[name]] resolves to on object [x]. *)
Definition track_index (sc : scene) (x name : string) : nat :=
  default O (lookup_tracks sc x ≫= find_track name).

(** The mute flag written at each position of [idxs], in order. *)
Definition mute_fold (b : bool) (idxs : list nat) (ts : list nla_track) : list nla_track :=
  fold_left (fun l i => mute_at b i l) idxs ts.

(** One pass of [mute_and_unmute] over the names [l]: effect and writes. *)
Definition pass_eff (b : bool) (x : string) (idxs : list nat) (sc : scene) : scene :=
  map_tracks (mute_fold b idxs) x sc.

(** The writes of one pass over the names [l]. *)
Definition pass_trace (sc : scene) (b : bool) (x : string) (l : list string) : list event :=
  map (fun y => ESetMute x (track_index sc x y) b) l.

(** The names a pass goes through: none for the integer [0]. *)
Definition arg_names (a : layer_arg) : list string :=
  match a with
  | Zero => []
  | Names l => l
  end.

(** Every name of both lists of the entry resolves on its object. *)
Definition entry_ok (sc : scene) (e : string * layer_arg * layer_arg) : Prop :=
  Forall (has_track sc e.1.1) (arg_names e.1.2)
  /\ Forall (has_track sc e.1.1) (arg_names e.2).

(** The effect of one entry: its mute pass, then its unmute pass. *)
Definition entry_eff (sc0 : scene) (e : string * layer_arg * layer_arg) (sc : scene)
    : scene :=
  pass_eff false e.1.1 (map (track_index sc0 e.1.1) (arg_names e.2))
    (pass_eff true e.1.1 (map (track_index sc0 e.1.1) (arg_names e.1.2)) sc).

(** The writes of one entry: the whole mute pass, then the whole unmute pass. *)
Definition entry_trace (sc : scene) (e : string * layer_arg * layer_arg) : list event :=
  pass_trace sc true e.1.1 (arg_names e.1.2) ++ pass_trace sc false e.1.1 (arg_names e.2).

(** Two scenes whose objects carry tracks of the same names, in the same
    order. *)
Definition same_names (sc sc' : scene) : Prop :=
  forall y, map track_name <$> lookup_tracks sc' y = map track_name <$> lookup_tracks sc y.

(** One pass of [mute_and_unmute], as the loop is written. *)
Definition named_pass (obj : option string) (b : bool) (l : list string) : M unit :=
  for_each l (fun y => t <- nla_track_named obj y ;; write_mute t b).

(** The effect of a list of entries. *)
Definition entries_eff (sc0 : scene) (es : list (string * layer_arg * layer_arg))
    (sc : scene) : scene :=
  fold_left (fun s e => entry_eff sc0 e s) es sc.

(** The message of the default branch of the dispatch. *)
Definition diagnostic (animal_name : string) : event :=
  EPrint (("Animal " +:+ animal_name) +:+ " not supported!").

(** From a world satisfying [P], the computation [m] appends to the trace
    only events satisfying [Phi], whether it returns or raises; and when it
    returns [a], the world it leaves satisfies [Q a]. *)
Definition emits {A} (Phi : event -> Prop) (P : world -> Prop) (m : M A)
    (Q : A -> world -> Prop) : Prop :=
  forall w, P w ->
    exists evs, w_trace (m w).2 = w_trace w ++ evs
                /\ Forall Phi evs
                /\ forall a, (m w).1 = Done a -> Q a (m w).2.

(** A computation that never renders. *)
Definition quiet {A} (m : M A) : Prop :=
  emits (fun e => is_render e = false) (fun _ => True) m (fun _ _ => True).

(** Some track called [a] is unmuted. *)
Definition unmuted_named (a : string) (ts : list nla_track) : bool :=
  existsb (fun t => String.eqb (track_name t) a && negb (track_mute t))%bool ts.

(** Animation [a] has an unmuted track on the rig. *)
Definition anim_unmuted (sc : scene) (a : string) : bool :=
  from_option (unmuted_named a) false (lookup_tracks sc "rig").

(** At most one animation of the animation list is unmuted. *)
Definition at_most_one_unmuted (sc : scene) : Prop :=
  (length (List.filter (anim_unmuted sc) animation_list) <= 1)%nat.

(** The file prefix [os.path.join(output_path, anim)] of animation [anim]. *)
Definition anim_prefix (base_path animal_name anim : string) : string :=
  Py.path_join (Py.path_join (base_path +:+ animal_name) anim) anim.

(** A render of a frame of [anim]: the file is in the directory of [anim]
    and no other animation of the list has an unmuted track. *)
Definition render_of (base_path animal_name anim : string) (sc : scene) : Prop :=
  anim ∈ animation_list
  /\ render_filepath sc
     = frame_filename (anim_prefix base_path animal_name anim) (frame_current sc)
  /\ forall a, a ∈ animation_list -> a <> anim -> anim_unmuted sc a = false.

(** What is asked of every event of a run: of a render, that it is a
    render of one animation with no other animation unmuted. *)
Definition render_ok (base_path animal_name : string) (e : event) : Prop :=
  match e with
  | ERender sc =>
      at_most_one_unmuted sc /\ exists anim, render_of base_path animal_name anim sc
  | _ => True
  end.

(** Every unmuted track of the rig is called [anim] or ["Rotation"]. *)
Definition only_unmuted (anim : string) (sc : scene) : Prop :=
  forall ts t, lookup_tracks sc "rig" = Some ts -> t ∈ ts -> track_mute t = false ->
               track_name t = anim \/ track_name t = "Rotation".

(** Every track of [x] is muted. *)
Definition all_muted (x : string) (sc : scene) : Prop :=
  exists ts, lookup_tracks sc x = Some ts /\ forall t, t ∈ ts -> track_mute t = true.

(** The scene the renders of animation [anim] see, frame and file path
    apart: the shadow plane shown, the rig reset, [anim] and ["Rotation"]
    unmuted. *)
Definition anim_scene (anim : string) (sc : scene) : scene :=
  let sc1 := reset_tracks_eff ["rig"] (hide_eff false "ShadowPlane" sc) in
  entries_eff sc1 [("rig", Names [], Names [anim; "Rotation"])] sc1.

(** What [run_case("squirrel")] needs of the scene. *)
Definition squirrel_scene (sc : scene) : Prop :=
  is_Some (objects sc !! "visibleground")
  /\ is_Some (objects sc !! "ShadowPlane")
  /\ has_track sc "rig" "reset"
  /\ has_track sc "rig" "Idle1"
  /\ has_track sc "rig" "Walk"
  /\ has_track sc "rig" "Rotation".

(** The frames of one animation of the run: 1, 3, ..., 159. *)
Definition squirrel_frames : list Z :=
  map (fun k : nat => 2 * Z.of_nat k + 1) (seq 0 80).

(** What every iteration of the animation loop needs and leaves. *)
Definition anim_ready (sc : scene) : Prop :=
  is_Some (objects sc !! "ShadowPlane")
  /\ has_track sc "rig" "reset"
  /\ has_track sc "rig" "Idle1"
  /\ has_track sc "rig" "Walk"
  /\ has_track sc "rig" "Rotation"
  /\ frame_end sc = 160.

(** ** The rest of the script *)

(** [write_animations], the variant of the frame loop that takes track
    handles and sets their mute flags again before every frame.
    [frame_start] stands for [bpy.context.scene.frame_start], which the
    script reads here and never writes; [frame_end] is read from the scene. *)
Definition write_animations (frame_start : Z)
    (tracks_to_mute tracks_to_unmute : list track_ref)
    (output_path : string) (step : Z) : M unit :=
  let start_frame := frame_start in
  end_frame <- read_frame_end ;;
  match Py.range start_frame (end_frame + 1) step with
  | None => raise ValueError
  | Some frames =>
      for_each frames (fun frame =>
        mute_tracks tracks_to_mute true ;;;
        mute_tracks tracks_to_unmute false ;;;
        render_frame frame ((output_path +:+ Py.zfill 3 (Py.str frame)) +:+ ".png"))
  end.

(** The mute flag a track handle points at, when the handle is valid. *)
Definition track_flag (sc : scene) (r : track_ref) : option bool :=
  ts ← lookup_tracks sc r.1; track_mute <$> ts !! r.2.

(** The effect and the writes of [mute_tracks(refs, b)]. *)
Definition set_flags (b : bool) (refs : list track_ref) (sc : scene) : scene :=
  fold_left (fun s r => map_tracks (mute_at b r.2) r.1 s) refs sc.

Definition set_flags_trace (b : bool) (refs : list track_ref) : list event :=
  map (fun r => ESetMute r.1 r.2 b) refs.

(** The file name [write_animations] gives a frame: no underscore. *)
Definition plain_filename (output_path : string) (frame : Z) : string :=
  (output_path +:+ Py.zfill 3 (Py.str frame)) +:+ ".png".

(** One iteration of [write_animations] from scene [sc]: the scene its
    render sees. *)
Definition wa_shot (tm tu : list track_ref) (p : string) (sc : scene) (f : Z) : scene :=
  set_render_filepath (plain_filename p f)
    (set_frame_current f (set_flags false tu (set_flags true tm sc))).

(** The scenes seen by the renders of the loop of [write_animations], and
    its writes. *)
Fixpoint wa_shots (tm tu : list track_ref) (p : string) (sc : scene) (frames : list Z)
    : list scene :=
  match frames with
  | [] => []
  | f :: rest => wa_shot tm tu p sc f :: wa_shots tm tu p (wa_shot tm tu p sc f) rest
  end.

Fixpoint wa_trace (tm tu : list track_ref) (p : string) (sc : scene) (frames : list Z)
    : list event :=
  match frames with
  | [] => []
  | f :: rest =>
      (set_flags_trace true tm ++ set_flags_trace false tu
       ++ [EFrameSet f; ESetFilepath (plain_filename p f); ERender (wa_shot tm tu p sc f)])
      ++ wa_trace tm tu p (wa_shot tm tu p sc f) rest
  end.

(** What the loop of [write_animations] makes of a mute flag. *)
Definition wa_flag (tm tu : list track_ref) (r : track_ref) (o : option bool)
    : option bool :=
  if decide (r ∈ tu) then (fun _ => false) <$> o
  else if decide (r ∈ tm) then (fun _ => true) <$> o
  else o.

(** Reading a decimal field back, as Python's [int(s)] does on an optional
    ["-"] followed by digits: leading zeros do not count. *)
Definition int_of_field (s : string) : option Z :=
  Z.of_int <$> NilZero.int_of_string s.

(** An object with both visibility flags set to [b]. *)
Definition obj_hide (b : bool) (o : bobject) : bobject :=
  obj_set_hide_viewport b (obj_set_hide_render b o).

(** The directories [os.makedirs] was called with, in order. *)
Definition makedirs_of (tr : list event) : list string :=
  omap (fun e => match e with EMakedirs p => Some p | _ => None end) tr.

(** The output directory [os.path.join(base_path + animal_name, anim)]. *)
Definition anim_dir (base_path animal_name anim : string) : string :=
  Py.path_join (base_path +:+ animal_name) anim.

(** The scene at the animation loop of [run_case("squirrel")]. *)
Definition squirrel_start (sc : scene) : scene :=
  set_frame_end 160
    (hide_eff false "ShadowPlane" (hide_eff true "visibleground" sc)).

(** The scene after the renders of one animation. *)
Definition after_anim (base_path anim : string) (sc : scene) : scene :=
  fold_left (shot (anim_prefix base_path "squirrel" anim)) squirrel_frames
            (anim_scene anim sc).

(** A world whose rig has no ["Walk"] track. *)
Definition w_no_walk : world :=
  World (Scene (<["rig" := BObject false false
                            (Some [NlaTrack "Idle1" false; NlaTrack "reset" false;
                                   NlaTrack "Rotation" true])]>
                 (<["visibleground" := Sample.plane false]>
                   (<["ShadowPlane" := Sample.plane true]> ∅))) 1 250 "")
        "/home/user/squirrel/" ∅ [].

(** * Properties *)

(** ** Samples *)

Example str_samples :
  (Py.str 0, Py.str 7, Py.str 159, Py.str 1000, Py.str (-5))
  = ("0", "7", "159", "1000", "-5").
Proof. reflexivity. Qed.

Example zfill_samples :
  (Py.zfill 3 (Py.str 1), Py.zfill 3 (Py.str 42), Py.zfill 3 (Py.str 159),
   Py.zfill 3 (Py.str 1000), Py.zfill 3 (Py.str (-5)))
  = ("001", "042", "159", "1000", "-05").
Proof. reflexivity. Qed.

Example range_samples :
  (Py.range 1 161 2 = Some (map (fun k : nat => 2 * Z.of_nat k + 1) (seq 0 80)))
  /\ Py.range 1 8 3 = Some [1; 4; 7]
  /\ Py.range 5 1 1 = Some []
  /\ Py.range 5 1 (-2) = Some [5; 3]
  /\ Py.range 1 5 0 = None.
Proof. repeat split; reflexivity. Qed.

Example path_join_samples :
  (Py.path_join "/home/u/p/" "renders", Py.path_join "/home/u/p" "renders",
   Py.path_join "" "renders", Py.path_join "/home/u" "/abs")
  = ("/home/u/p/renders", "/home/u/p/renders", "renders", "/abs").
Proof. reflexivity. Qed.

(** ** The monad *)

Section Monad.
Context {A B : Type}.
Implicit Types (m : M A) (k : A -> M B).

Lemma bind_done m k w a w' :
  m w = (Done a, w') -> bind m k w = k a w'.
Proof. intros H. unfold bind. now rewrite H. Qed.

Lemma bind_raised m k w e w' :
  m w = (Raised e, w') -> bind m k w = (Raised e, w').
Proof. intros H. unfold bind. now rewrite H. Qed.

Lemma bind_inv_done m k w b w' :
  bind m k w = (Done b, w') ->
  exists a w1, m w = (Done a, w1) /\ k a w1 = (Done b, w').
Proof.
  unfold bind. destruct (m w) as [[a|e] w1]; intros H.
  - now exists a, w1.
  - discriminate.
Qed.
End Monad.

Lemma for_each_app {A} (l1 l2 : list A) (body : A -> M unit) w :
  for_each (l1 ++ l2) body w = (for_each l1 body ;;; for_each l2 body) w.
Proof.
  revert w. induction l1 as [|x l1 IH]; intros w; simpl.
  - reflexivity.
  - unfold bind. destruct (body x w) as [[[]|e] w1]; [|reflexivity].
    rewrite IH. reflexivity.
Qed.

(** ** Worlds and scenes *)

Lemma upd_upd f g e1 e2 w :
  upd g e2 (upd f e1 w) = upd (fun sc => g (f sc)) (e1 ++ e2) w.
Proof. unfold upd, emit, with_scene; simpl. now rewrite <- app_assoc. Qed.

Lemma upd_id w : upd (fun sc => sc) [] w = w.
Proof. destruct w. unfold upd, emit, with_scene; simpl. now rewrite app_nil_r. Qed.

Lemma upd_ext f g evs w :
  f (w_scene w) = g (w_scene w) -> upd f evs w = upd g evs w.
Proof. intros H. unfold upd, emit, with_scene; simpl. now rewrite H. Qed.

Lemma w_scene_upd f evs w : w_scene (upd f evs w) = f (w_scene w).
Proof. reflexivity. Qed.

Lemma w_trace_upd f evs w : w_trace (upd f evs w) = w_trace w ++ evs.
Proof. reflexivity. Qed.

Lemma obj_map_tracks_id o : obj_map_tracks (fun ts => ts) o = o.
Proof. destruct o as [hr hv [ts|]]; reflexivity. Qed.

Lemma lookup_tracks_map_tracks g x y sc :
  lookup_tracks (map_tracks g x sc) y
  = if decide (x = y) then g <$> lookup_tracks sc y else lookup_tracks sc y.
Proof.
  unfold lookup_tracks, map_tracks, alter_object; simpl.
  rewrite lookup_alter. case_decide as Hxy; [subst y|reflexivity].
  destruct (objects sc !! x) as [[hr hv ad]|]; reflexivity.
Qed.

Lemma lookup_tracks_map_tracks_eq g x sc :
  lookup_tracks (map_tracks g x sc) x = g <$> lookup_tracks sc x.
Proof. rewrite lookup_tracks_map_tracks. now rewrite decide_True. Qed.

Lemma lookup_tracks_map_tracks_ne g x y sc :
  x <> y -> lookup_tracks (map_tracks g x sc) y = lookup_tracks sc y.
Proof. intros. rewrite lookup_tracks_map_tracks. now rewrite decide_False. Qed.

Lemma map_tracks_compose g1 g2 x sc :
  map_tracks g2 x (map_tracks g1 x sc) = map_tracks (fun ts => g2 (g1 ts)) x sc.
Proof.
  unfold map_tracks, alter_object, set_objects; simpl. f_equal.
  rewrite alter_alter_eq. apply alter_ext. intros [hr hv [ts|]] _; reflexivity.
Qed.

Lemma map_tracks_ext g1 g2 x sc :
  (forall ts, lookup_tracks sc x = Some ts -> g1 ts = g2 ts) ->
  map_tracks g1 x sc = map_tracks g2 x sc.
Proof.
  intros H. unfold map_tracks, alter_object. f_equal.
  apply alter_ext. intros [hr hv ad] Hx. unfold obj_map_tracks; simpl. f_equal.
  destruct ad as [ts|]; [|reflexivity]. simpl. f_equal. apply H.
  unfold lookup_tracks. now rewrite Hx.
Qed.

Lemma map_tracks_id x sc : map_tracks (fun ts => ts) x sc = sc.
Proof.
  destruct sc as [m f e p]. unfold map_tracks, alter_object, set_objects; simpl.
  f_equal. apply alter_id. intros o _. apply obj_map_tracks_id.
Qed.

Lemma hidden_flags_map_tracks g x y sc :
  hidden_flags (map_tracks g x sc) y = hidden_flags sc y.
Proof.
  unfold hidden_flags, map_tracks, alter_object; simpl.
  rewrite lookup_alter. case_decide as Hxy; [subst y|reflexivity].
  destruct (objects sc !! x) as [[hr hv ad]|]; reflexivity.
Qed.

Lemma lookup_tracks_hide_eff b x y sc :
  lookup_tracks (hide_eff b x sc) y = lookup_tracks sc y.
Proof.
  unfold lookup_tracks, hide_eff, alter_object; simpl.
  rewrite alter_alter_eq, lookup_alter. case_decide as Hxy; [subst y|reflexivity].
  destruct (objects sc !! x) as [[hr hv ad]|]; reflexivity.
Qed.

Lemma hidden_flags_hide_eff b x y sc :
  hidden_flags (hide_eff b x sc) y
  = if decide (x = y) then (fun _ => (b, b)) <$> hidden_flags sc y
    else hidden_flags sc y.
Proof.
  unfold hidden_flags, hide_eff, alter_object; simpl.
  rewrite alter_alter_eq, lookup_alter. case_decide as Hxy; [subst y|reflexivity].
  destruct (objects sc !! x) as [[hr hv ad]|]; reflexivity.
Qed.

(** Writing flags that are already there changes nothing. *)
Lemma hide_eff_id b x sc :
  (forall o, objects sc !! x = Some o -> hide_render o = b /\ hide_viewport o = b) ->
  hide_eff b x sc = sc.
Proof.
  intros H. destruct sc as [m f e p]. unfold hide_eff, alter_object, set_objects; simpl in *.
  f_equal. rewrite alter_alter_eq. apply alter_id.
  intros [hr hv ad] Hx. destruct (H _ Hx) as [? ?]; simpl in *. now subst.
Qed.

(** ** Tracks: mute flags change, names and positions do not *)

Lemma mute_at_names b i ts : map track_name (mute_at b i ts) = map track_name ts.
Proof.
  unfold mute_at. revert i. induction ts as [|t ts IH]; intros [|i]; simpl; try reflexivity.
  f_equal. apply IH.
Qed.

Lemma mute_all_names ts : map track_name (mute_all ts) = map track_name ts.
Proof. unfold mute_all. induction ts as [|t ts IH]; simpl; [reflexivity|now f_equal]. Qed.

Lemma find_track_names name ts ts' :
  map track_name ts = map track_name ts' -> find_track name ts = find_track name ts'.
Proof.
  revert ts'. induction ts as [|t ts IH]; intros [|t' ts'] H; simpl in *; try discriminate.
  - reflexivity.
  - injection H as Ht Hts. rewrite Ht. destruct (String.eqb (track_name t') name); [reflexivity|].
    f_equal. now apply IH.
Qed.

Lemma find_track_mute_at name b i ts :
  find_track name (mute_at b i ts) = find_track name ts.
Proof. apply find_track_names, mute_at_names. Qed.

Lemma find_track_mute_all name ts : find_track name (mute_all ts) = find_track name ts.
Proof. apply find_track_names, mute_all_names. Qed.

Lemma find_track_Some name ts i :
  find_track name ts = Some i ->
  exists t, ts !! i = Some t /\ track_name t = name.
Proof.
  revert i. induction ts as [|t ts IH]; intros i H; simpl in H; [discriminate|].
  destruct (String.eqb (track_name t) name) eqn:E.
  - injection H as <-. exists t. split; [reflexivity|]. now apply String.eqb_eq.
  - destruct (find_track name ts) as [j|]; [|discriminate]. injection H as <-.
    destruct (IH j eq_refl) as (t' & ? & ?). now exists t'.
Qed.

Lemma length_mute_all ts : length (mute_all ts) = length ts.
Proof. apply length_map. Qed.

Lemma length_mute_at b i ts : length (mute_at b i ts) = length ts.
Proof. apply length_alter. Qed.

Lemma mute_at_mute_at b b' i ts : mute_at b i (mute_at b' i ts) = mute_at b i ts.
Proof.
  unfold mute_at. revert i. induction ts as [|t ts IH]; intros [|i]; simpl; try reflexivity.
  f_equal. apply IH.
Qed.

Lemma mute_at_true_mute_all i ts : mute_at true i (mute_all ts) = mute_all ts.
Proof.
  unfold mute_at, mute_all. revert i.
  induction ts as [|t ts IH]; intros [|i]; simpl; try reflexivity.
  f_equal. apply IH.
Qed.

Lemma mute_all_mute_at b i ts : mute_all (mute_at b i ts) = mute_all ts.
Proof.
  unfold mute_at, mute_all. revert i.
  induction ts as [|t ts IH]; intros [|i]; simpl; try reflexivity.
  f_equal. apply IH.
Qed.

Lemma mute_all_idem ts : mute_all (mute_all ts) = mute_all ts.
Proof. unfold mute_all. induction ts as [|t ts IH]; simpl; [reflexivity|now f_equal]. Qed.

Lemma mute_all_muted ts t : t ∈ mute_all ts -> track_mute t = true.
Proof.
  unfold mute_all. intros H. apply list_elem_of_fmap in H as (t' & -> & _). reflexivity.
Qed.

(** Muting positions [k, k+1, ...] one after the other mutes them all. *)
Lemma fold_mute_at_seq pre ts :
  fold_left (fun l i => mute_at true i l) (seq (length pre) (length ts)) (pre ++ ts)
  = pre ++ mute_all ts.
Proof.
  revert pre. induction ts as [|t ts IH]; intros pre; simpl; [reflexivity|].
  replace (mute_at true (length pre) (pre ++ t :: ts))
    with ((pre ++ [track_set_mute true t]) ++ ts).
  - replace (S (length pre)) with (length (pre ++ [track_set_mute true t])).
    + rewrite IH. now rewrite <- app_assoc.
    + rewrite length_app. simpl. lia.
  - rewrite <- app_assoc. simpl. unfold mute_at.
    clear IH. induction pre as [|p pre IHp]; simpl; [reflexivity|]. now f_equal.
Qed.

Lemma fold_mute_at_all ts :
  fold_left (fun l i => mute_at true i l) (seq 0 (length ts)) ts = mute_all ts.
Proof. apply (fold_mute_at_seq [] ts). Qed.

(** ** What each statement of the script does *)

Lemma frame_set_run f w :
  frame_set f w = (Done tt, upd (set_frame_current f) [EFrameSet f] w).
Proof. reflexivity. Qed.

Lemma write_mute_run x i b w :
  write_mute (x, i) b w = (Done tt, upd (map_tracks (mute_at b i) x) [ESetMute x i b] w).
Proof. reflexivity. Qed.

Lemma mute_tracks_run x idxs b w :
  mute_tracks (map (fun i => (x, i)) idxs) b w
  = (Done tt,
     upd (map_tracks (fun ts => fold_left (fun l i => mute_at b i l) idxs ts) x)
         (map (fun i => ESetMute x i b) idxs) w).
Proof.
  unfold mute_tracks. revert w. induction idxs as [|i idxs IH]; intros w; simpl.
  - unfold ret. f_equal. rewrite (upd_ext _ (fun sc => sc)); [now rewrite upd_id|].
    apply map_tracks_id.
  - erewrite bind_done by apply write_mute_run. rewrite IH. f_equal.
    rewrite upd_upd. apply upd_ext. apply map_tracks_compose.
Qed.

(** [mute_tracks(bpy.data.objects.get(x).animation_data.nla_tracks, True)] *)
Lemma mute_all_block_run x w :
  (o <- objects_get x ;; ts <- nla_tracks o ;; mute_tracks ts true) w
  = match lookup_tracks (w_scene w) x with
    | Some ts => (Done tt, upd (map_tracks mute_all x) (mute_all_trace x (length ts)) w)
    | None => (Raised AttributeError, w)
    end.
Proof.
  unfold bind at 1. unfold objects_get, lookup_tracks.
  destruct (objects (w_scene w) !! x) as [o|] eqn:Hx; simpl; [|reflexivity].
  unfold bind, nla_tracks, lookup_tracks. rewrite Hx; simpl.
  destruct (animation_data o) as [ts|] eqn:Had; [|reflexivity].
  rewrite mute_tracks_run. f_equal. apply upd_ext. apply map_tracks_ext.
  intros ts' Hts'. unfold lookup_tracks in Hts'. rewrite Hx in Hts'; simpl in Hts'.
  rewrite Had in Hts'. injection Hts' as <-. apply fold_mute_at_all.
Qed.

(** [bpy.data.objects.get(x).animation_data.nla_tracks[name].mute = b] *)
Lemma mute_named_block_run x name b w :
  (o <- objects_get x ;; t <- nla_track_named o name ;; write_mute t b) w
  = match lookup_tracks (w_scene w) x with
    | Some ts =>
        match find_track name ts with
        | Some i => (Done tt, upd (map_tracks (mute_at b i) x) [ESetMute x i b] w)
        | None => (Raised (KeyError name), w)
        end
    | None => (Raised AttributeError, w)
    end.
Proof.
  unfold bind at 1. unfold objects_get, lookup_tracks.
  destruct (objects (w_scene w) !! x) as [o|] eqn:Hx; simpl; [|reflexivity].
  unfold bind, nla_track_named, lookup_tracks. rewrite Hx; simpl.
  destruct (animation_data o) as [ts|]; [|reflexivity].
  destruct (find_track name ts) as [i|]; reflexivity.
Qed.

(** ** [reset_tracks] *)

Lemma lookup_tracks_set_frame_current f sc y :
  lookup_tracks (set_frame_current f sc) y = lookup_tracks sc y.
Proof. reflexivity. Qed.

Lemma map_tracks_set_frame_current g x f sc :
  map_tracks g x (set_frame_current f sc) = set_frame_current f (map_tracks g x sc).
Proof. reflexivity. Qed.

Ltac tracks_now Hts :=
  rewrite ?w_scene_upd, ?lookup_tracks_set_frame_current, ?lookup_tracks_map_tracks_eq,
    ?lookup_tracks_set_frame_current, Hts;
  cbn [fmap option_fmap option_map];
  rewrite ?find_track_mute_at, ?find_track_mute_all, ?find_track_mute_at, ?find_track_mute_all.

Lemma reset_tracks_entry_run x w :
  reset_tracks_entry x w
  = match lookup_tracks (w_scene w) x with
    | None => (Raised AttributeError, upd (set_frame_current 1) [EFrameSet 1] w)
    | Some ts =>
        match find_track "reset" ts with
        | None =>
            (Raised (KeyError "reset"),
             upd (fun sc => map_tracks mute_all x (set_frame_current 1 sc))
                 ([EFrameSet 1] ++ mute_all_trace x (length ts)) w)
        | Some r =>
            (Done tt, upd (reset_entry_eff x) (reset_entry_trace x (length ts) r) w)
        end
    end.
Proof.
  unfold reset_tracks_entry.
  erewrite bind_done by apply frame_set_run.
  destruct (lookup_tracks (w_scene w) x) as [ts|] eqn:Hts.
  2:{ erewrite bind_raised; [reflexivity|].
      rewrite mute_all_block_run. now tracks_now Hts. }
  erewrite bind_done.
  2:{ rewrite mute_all_block_run. tracks_now Hts. reflexivity. }
  rewrite upd_upd.
  destruct (find_track "reset" ts) as [r|] eqn:Hr.
  2:{ erewrite bind_raised; [reflexivity|].
      rewrite mute_named_block_run. tracks_now Hts. now rewrite Hr. }
  (* unmute reset, mute reset *)
  erewrite bind_done.
  2:{ rewrite mute_named_block_run. tracks_now Hts. rewrite Hr. reflexivity. }
  rewrite upd_upd.
  erewrite bind_done.
  2:{ rewrite mute_named_block_run. tracks_now Hts. rewrite Hr. reflexivity. }
  rewrite upd_upd.
  (* second full mute pass *)
  erewrite bind_done.
  2:{ rewrite mute_all_block_run. tracks_now Hts. reflexivity. }
  rewrite upd_upd.
  erewrite bind_done.
  2:{ rewrite mute_named_block_run. tracks_now Hts. rewrite Hr. reflexivity. }
  rewrite upd_upd.
  erewrite bind_done by apply frame_set_run.
  rewrite upd_upd.
  rewrite mute_named_block_run. tracks_now Hts. rewrite Hr.
  f_equal. rewrite upd_upd.
  rewrite !length_mute_at, !length_mute_all.
  unfold reset_entry_trace. rewrite <- !app_assoc. simpl.
  apply upd_ext. unfold reset_entry_eff.
  rewrite !map_tracks_set_frame_current.
  change (set_frame_current 1 (set_frame_current 1 ?s)) with (set_frame_current 1 s).
  rewrite !map_tracks_compose. f_equal.
  apply map_tracks_ext. intros l _.
  rewrite mute_at_mute_at, mute_all_mute_at, mute_all_mute_at, mute_all_idem.
  apply mute_at_true_mute_all.
Qed.

Lemma lookup_tracks_reset_entry_eff x y sc :
  lookup_tracks (reset_entry_eff x sc) y
  = if decide (x = y) then mute_all <$> lookup_tracks sc y else lookup_tracks sc y.
Proof.
  unfold reset_entry_eff. rewrite lookup_tracks_set_frame_current.
  apply lookup_tracks_map_tracks.
Qed.

Lemma resettable_reset_entry_eff x y sc :
  resettable (reset_entry_eff x sc) y <-> resettable sc y.
Proof.
  unfold resettable. rewrite lookup_tracks_reset_entry_eff.
  case_decide; [|reflexivity]. split.
  - intros (ts & r & Hts & Hr). destruct (lookup_tracks sc y) as [ts0|]; [|discriminate].
    injection Hts as <-. rewrite find_track_mute_all in Hr. eauto.
  - intros (ts & r & Hts & Hr). rewrite Hts. exists (mute_all ts), r.
    split; [reflexivity|]. now rewrite find_track_mute_all.
Qed.

Lemma num_tracks_reset_entry_eff x y sc :
  num_tracks (reset_entry_eff x sc) y = num_tracks sc y.
Proof.
  unfold num_tracks. rewrite lookup_tracks_reset_entry_eff.
  case_decide; [|reflexivity].
  destruct (lookup_tracks sc y); simpl; [apply length_mute_all|reflexivity].
Qed.

Lemma reset_index_reset_entry_eff x y sc :
  reset_index (reset_entry_eff x sc) y = reset_index sc y.
Proof.
  unfold reset_index. rewrite lookup_tracks_reset_entry_eff.
  case_decide; [|reflexivity].
  destruct (lookup_tracks sc y); simpl; [now rewrite find_track_mute_all|reflexivity].
Qed.

Lemma reset_tracks_trace_reset_entry_eff x sc objs :
  reset_tracks_trace (reset_entry_eff x sc) objs = reset_tracks_trace sc objs.
Proof.
  unfold reset_tracks_trace. induction objs as [|y objs IH]; simpl; [reflexivity|].
  now rewrite IH, num_tracks_reset_entry_eff, reset_index_reset_entry_eff.
Qed.

(** [reset_tracks] returns exactly when every listed object can be reset,
    and then its effect on the scene and on the trace is known. *)
Lemma reset_tracks_done_iff objs w w' :
  reset_tracks objs w = (Done tt, w')
  <-> Forall (resettable (w_scene w)) objs
      /\ w' = upd (reset_tracks_eff objs) (reset_tracks_trace (w_scene w) objs) w.
Proof.
  unfold reset_tracks. revert w. induction objs as [|x objs IH]; intros w.
  - simpl. unfold ret. rewrite upd_id. split.
    + intros [= <-]. split; [constructor|reflexivity].
    + intros [_ ->]. reflexivity.
  - cbn [for_each]. unfold bind. rewrite reset_tracks_entry_run.
    destruct (lookup_tracks (w_scene w) x) as [ts|] eqn:Hts.
    2:{ split; [discriminate|]. intros [H _]. apply Forall_cons in H as [(? & ? & ? & ?) _].
        congruence. }
    destruct (find_track "reset" ts) as [r|] eqn:Hr.
    2:{ split; [discriminate|]. intros [H _]. apply Forall_cons in H as [(? & ? & ? & ?) _].
        congruence. }
    rewrite IH. rewrite w_scene_upd, upd_upd.
    rewrite reset_tracks_trace_reset_entry_eff.
    assert (Hx : resettable (w_scene w) x) by (exists ts, r; auto).
    assert (Htr : reset_entry_trace x (length ts) r ++ reset_tracks_trace (w_scene w) objs
                  = reset_tracks_trace (w_scene w) (x :: objs)).
    { unfold reset_tracks_trace at 2. cbn [flat_map]. f_equal.
      unfold num_tracks, reset_index. rewrite Hts. simpl. now rewrite Hr. }
    rewrite Htr. rewrite Forall_cons.
    assert (Hall : Forall (resettable (reset_entry_eff x (w_scene w))) objs
                   <-> Forall (resettable (w_scene w)) objs).
    { rewrite !Forall_forall. split; intros H y Hy; apply resettable_reset_entry_eff, H, Hy
        || (apply (resettable_reset_entry_eff x y), H, Hy). }
    rewrite Hall. intuition.
Qed.

Lemma lookup_tracks_reset_tracks_eff objs y sc :
  lookup_tracks (reset_tracks_eff objs sc) y
  = if decide (y ∈ objs) then mute_all <$> lookup_tracks sc y else lookup_tracks sc y.
Proof.
  unfold reset_tracks_eff. revert sc.
  induction objs as [|x objs IH]; intros sc; cbn [fold_left].
  - destruct (decide (y ∈ [])) as [H|_]; [|reflexivity]. now apply not_elem_of_nil in H.
  - rewrite IH, lookup_tracks_reset_entry_eff.
    destruct (decide (y ∈ x :: objs)) as [Hin|Hnin];
      destruct (decide (y ∈ objs)) as [Hin'|Hnin'];
      destruct (decide (x = y)) as [->|Hxy]; try reflexivity.
    + destruct (lookup_tracks sc y); simpl; [now rewrite mute_all_idem|reflexivity].
    + apply elem_of_cons in Hin as [?|?]; congruence.
    + exfalso. apply Hnin. now apply list_elem_of_further.
    + exfalso. apply Hnin. now apply list_elem_of_further.
    + exfalso. apply Hnin. apply list_elem_of_here.
Qed.

Lemma frame_current_reset_tracks_eff objs sc :
  objs <> [] -> frame_current (reset_tracks_eff objs sc) = 1.
Proof.
  unfold reset_tracks_eff. intros Hne.
  destruct (exists_last Hne) as (objs' & x & ->).
  rewrite fold_left_app. reflexivity.
Qed.

Lemma reset_tracks_post objs w x :
  Forall (resettable (w_scene w)) objs ->
  x ∈ objs ->
  exists ts,
    lookup_tracks (w_scene (upd (reset_tracks_eff objs)
                                (reset_tracks_trace (w_scene w) objs) w)) x = Some ts
    /\ (forall t, t ∈ ts -> track_mute t = true)
    /\ exists r, find_track "reset" ts = Some r.
Proof.
  intros Hall Hx. rewrite Forall_forall in Hall.
  destruct (Hall x Hx) as (ts & r & Hts & Hr).
  exists (mute_all ts). split; [|split].
  - rewrite w_scene_upd, lookup_tracks_reset_tracks_eff, decide_True by assumption.
    now rewrite Hts.
  - apply mute_all_muted.
  - exists r. now rewrite find_track_mute_all.
Qed.

(** C9: when [reset_tracks] returns, every NLA track of every object it
    processed is muted, whatever the mute flags were before: the object
    has the tracks it had before the call, with the same names in the same
    order, and each of them, not only ["reset"], has its mute flag set. *)
Theorem reset_tracks_mutes_every_track (objs : list string) (w w' : world) (x : string) :
  reset_tracks objs w = (Done tt, w') ->
  x ∈ objs ->
  exists ts0 ts,
    lookup_tracks (w_scene w) x = Some ts0
    /\ lookup_tracks (w_scene w') x = Some ts
    /\ map track_name ts = map track_name ts0
    /\ (forall i t0, ts0 !! i = Some t0 ->
                     exists t, ts !! i = Some t
                               /\ track_name t = track_name t0
                               /\ track_mute t = true)
    /\ (forall t, t ∈ ts -> track_mute t = true).
Proof.
  intros Hrun Hx. apply reset_tracks_done_iff in Hrun as [Hall ->].
  rewrite Forall_forall in Hall. destruct (Hall x Hx) as (ts0 & r & Hts0 & _).
  exists ts0, (mute_all ts0). split; [exact Hts0|]. split; [|split; [|split]].
  - rewrite w_scene_upd, lookup_tracks_reset_tracks_eff, decide_True by assumption.
    now rewrite Hts0.
  - apply mute_all_names.
  - intros i t0 Hi. exists (track_set_mute true t0). split; [|split; reflexivity].
    unfold mute_all. now rewrite list_lookup_fmap, Hi.
  - apply mute_all_muted.
Qed.

Lemma reset_tracks_mutes_every_track_witness :
  exists ts0 ts,
    lookup_tracks (w_scene Sample.w0) "rig" = Some ts0
    /\ lookup_tracks (w_scene (reset_tracks ["rig"] Sample.w0).2) "rig" = Some ts
    /\ map track_name ts = map track_name ts0
    /\ (forall i t0, ts0 !! i = Some t0 ->
                     exists t, ts !! i = Some t
                               /\ track_name t = track_name t0
                               /\ track_mute t = true)
    /\ (forall t, t ∈ ts -> track_mute t = true).
Proof.
  apply (reset_tracks_mutes_every_track ["rig"] Sample.w0 _ "rig").
  - vm_compute. reflexivity.
  - apply list_elem_of_here.
Defined.

(** The rig of the sample scene, before and after [reset_tracks]: the four
    tracks stay, all muted. *)
Example sample_reset_rig :
  lookup_tracks (w_scene Sample.w0) "rig"
  = Some [NlaTrack "Idle1" false; NlaTrack "reset" false;
          NlaTrack "Walk" false; NlaTrack "Rotation" true]
  /\ lookup_tracks (w_scene (reset_tracks ["rig"] Sample.w0).2) "rig"
     = Some [NlaTrack "Idle1" true; NlaTrack "reset" true;
             NlaTrack "Walk" true; NlaTrack "Rotation" true].
Proof. split; vm_compute; reflexivity. Qed.

(** C5: when [reset_tracks] returns from a non-empty list of objects, the
    scene's current frame is 1 and the ["reset"] track of each processed
    object is muted, whatever the starting state. *)
Theorem reset_tracks_leaves_reset_muted (objs : list string) (w w' : world) :
  objs <> [] ->
  reset_tracks objs w = (Done tt, w') ->
  frame_current (w_scene w') = 1
  /\ forall x, x ∈ objs ->
     exists ts r t, lookup_tracks (w_scene w') x = Some ts
                    /\ find_track "reset" ts = Some r
                    /\ ts !! r = Some t
                    /\ track_name t = "reset"
                    /\ track_mute t = true.
Proof.
  intros Hne Hrun. pose proof Hrun as Hdone.
  apply reset_tracks_done_iff in Hdone as [Hall ->]. split.
  - rewrite w_scene_upd. now apply frame_current_reset_tracks_eff.
  - intros x Hx.
    destruct (reset_tracks_post objs w x Hall Hx) as (ts & Hts & Hmuted & Hr).
    destruct Hr as (r & Hr). destruct (find_track_Some _ _ _ Hr) as (t & Ht & Hname).
    exists ts, r, t. repeat split; try assumption.
    apply Hmuted. apply list_elem_of_lookup. eauto.
Qed.

Lemma reset_tracks_leaves_reset_muted_witness :
  frame_current (w_scene (reset_tracks ["rig"] Sample.w0).2) = 1
  /\ forall x, x ∈ ["rig"] ->
     exists ts r t,
       lookup_tracks (w_scene (reset_tracks ["rig"] Sample.w0).2) x = Some ts
       /\ find_track "reset" ts = Some r
       /\ ts !! r = Some t
       /\ track_name t = "reset"
       /\ track_mute t = true.
Proof.
  apply (reset_tracks_leaves_reset_muted ["rig"] Sample.w0).
  - discriminate.
  - vm_compute. reflexivity.
Defined.

(** C3 (amended): for every object it processes, [reset_tracks] performs
    exactly this sequence of writes on the object's tracks and on the
    scene's current frame: set the frame to 1, mute every track, unmute
    ["reset"], mute ["reset"], mute every track, unmute ["reset"], set the
    frame to 1, mute ["reset"]; the sequences of the listed objects follow
    one another and nothing else is written. *)
Theorem reset_tracks_write_sequence (objs : list string) (w w' : world) :
  reset_tracks objs w = (Done tt, w') ->
  w_trace w' = w_trace w ++
    flat_map (fun x =>
      let n := num_tracks (w_scene w) x in
      let r := reset_index (w_scene w) x in
      [EFrameSet 1] ++ mute_all_trace x n
      ++ [ESetMute x r false; ESetMute x r true]
      ++ mute_all_trace x n
      ++ [ESetMute x r false; EFrameSet 1; ESetMute x r true]) objs
  /\ forall x, x ∈ objs ->
     exists ts, lookup_tracks (w_scene w) x = Some ts
                /\ length ts = num_tracks (w_scene w) x
                /\ find_track "reset" ts = Some (reset_index (w_scene w) x).
Proof.
  intros Hrun. apply reset_tracks_done_iff in Hrun as [Hall ->]. split.
  - reflexivity.
  - intros x Hx. rewrite Forall_forall in Hall.
    destruct (Hall x Hx) as (ts & r & Hts & Hr). exists ts.
    unfold num_tracks, reset_index. rewrite Hts. simpl. rewrite Hr. auto.
Qed.

Lemma reset_tracks_write_sequence_witness :
  w_trace (reset_tracks ["rig"] Sample.w0).2
  = [EFrameSet 1;
     ESetMute "rig" 0 true; ESetMute "rig" 1 true; ESetMute "rig" 2 true;
     ESetMute "rig" 3 true;
     ESetMute "rig" 1 false; ESetMute "rig" 1 true;
     ESetMute "rig" 0 true; ESetMute "rig" 1 true; ESetMute "rig" 2 true;
     ESetMute "rig" 3 true;
     ESetMute "rig" 1 false; EFrameSet 1; ESetMute "rig" 1 true].
Proof.
  refine (eq_trans
    (proj1 (reset_tracks_write_sequence ["rig"] Sample.w0 _ _)) _).
  - vm_compute. reflexivity.
  - vm_compute. reflexivity.
Defined.

(** C3, as stated, fails: on the sample scene the writes of
    [reset_tracks(["rig"])] are not the six-step sequence of the
    specification, which has neither the first frame set nor the mute of
    ["reset"] that follows its first unmute. *)
Lemma reset_tracks_claimed_sequence_fails :
  (reset_tracks ["rig"] Sample.w0).1 = Done tt
  /\ w_trace (reset_tracks ["rig"] Sample.w0).2
     <> w_trace Sample.w0
        ++ claimed_reset_trace "rig" (num_tracks (w_scene Sample.w0) "rig")
                               (reset_index (w_scene Sample.w0) "rig").
Proof.
  split.
  - vm_compute. reflexivity.
  - vm_compute. discriminate.
Qed.

(** ** [hide_objects] *)

Lemma hide_objects_entry_run b x w :
  hide_objects_entry b x w
  = match objects (w_scene w) !! x with
    | Some _ => (Done tt, upd (hide_eff b x) (hide_trace b x) w)
    | None => (Raised AttributeError, w)
    end.
Proof.
  unfold hide_objects_entry, bind, objects_get.
  destruct (objects (w_scene w) !! x); [|reflexivity].
  unfold write_hide_render, write_hide_viewport. f_equal.
  apply (upd_upd (alter_object (obj_set_hide_render b) x)
                 (alter_object (obj_set_hide_viewport b) x)).
Qed.

Lemma objects_hide_eff_is_Some b x y sc :
  is_Some (objects (hide_eff b x sc) !! y) <-> is_Some (objects sc !! y).
Proof.
  unfold hide_eff, alter_object; simpl. now rewrite !lookup_alter_is_Some.
Qed.

Lemma hide_objects_done_iff b objs w w' :
  hide_objects objs b w = (Done tt, w')
  <-> Forall (fun x => is_Some (objects (w_scene w) !! x)) objs
      /\ w' = upd (hide_objects_eff b objs) (flat_map (hide_trace b) objs) w.
Proof.
  unfold hide_objects. revert w. induction objs as [|x objs IH]; intros w.
  - simpl. unfold ret. rewrite upd_id. split.
    + intros [= <-]. split; [constructor|reflexivity].
    + intros [_ ->]. reflexivity.
  - cbn [for_each]. unfold bind. rewrite hide_objects_entry_run.
    destruct (objects (w_scene w) !! x) as [o|] eqn:Hx.
    2:{ split; [discriminate|]. intros [H _]. apply Forall_cons in H as [[? ?] _].
        congruence. }
    rewrite IH, w_scene_upd, upd_upd, Forall_cons.
    assert (Hall : Forall (fun y => is_Some (objects (hide_eff b x (w_scene w)) !! y)) objs
                   <-> Forall (fun y => is_Some (objects (w_scene w) !! y)) objs).
    { rewrite !Forall_forall. split; intros H y Hy.
      - apply (objects_hide_eff_is_Some b x), H, Hy.
      - apply objects_hide_eff_is_Some, H, Hy. }
    rewrite Hall. change (hide_trace b x ++ flat_map (hide_trace b) objs)
      with (flat_map (hide_trace b) (x :: objs)).
    split; [intros [? ->]|intros [[_ ?] ->]]; eauto.
Qed.

Lemma hidden_flags_hide_objects_eff b objs y sc :
  hidden_flags (hide_objects_eff b objs sc) y
  = if decide (y ∈ objs) then (fun _ => (b, b)) <$> hidden_flags sc y
    else hidden_flags sc y.
Proof.
  unfold hide_objects_eff. revert sc.
  induction objs as [|x objs IH]; intros sc; cbn [fold_left].
  - destruct (decide (y ∈ [])) as [H|_]; [|reflexivity]. now apply not_elem_of_nil in H.
  - rewrite IH, hidden_flags_hide_eff.
    destruct (decide (y ∈ x :: objs)) as [Hin|Hnin];
      destruct (decide (y ∈ objs)) as [Hin'|Hnin'];
      destruct (decide (x = y)) as [->|Hxy]; try reflexivity.
    + now destruct (hidden_flags sc y).
    + apply elem_of_cons in Hin as [?|?]; congruence.
    + exfalso. apply Hnin. now apply list_elem_of_further.
    + exfalso. apply Hnin. now apply list_elem_of_further.
    + exfalso. apply Hnin. apply list_elem_of_here.
Qed.

(** Hiding objects whose flags are already set leaves the scene alone. *)
Lemma hide_objects_eff_id b objs sc :
  (forall x o, x ∈ objs -> objects sc !! x = Some o ->
               hide_render o = b /\ hide_viewport o = b) ->
  hide_objects_eff b objs sc = sc.
Proof.
  unfold hide_objects_eff. induction objs as [|x objs IH]; intros H; cbn [fold_left].
  - reflexivity.
  - rewrite hide_eff_id.
    + apply IH. intros y o Hy. apply H. now apply list_elem_of_further.
    + intros o. apply H. apply list_elem_of_here.
Qed.

Lemma hidden_flags_Some sc x o :
  objects sc !! x = Some o -> hidden_flags sc x = Some (hide_render o, hide_viewport o).
Proof. unfold hidden_flags. now intros ->. Qed.

(** C8: running [hide_objects(names, True)] twice in succession ends as
    running it once does: the same outcome (both return, or both stop at the
    same missing object) and the same scene, hence the same
    hidden-in-render and hidden-in-viewport flags on every object. *)
Theorem hide_objects_idempotent (names : list string) (w : world) :
  let once := hide_objects names true w in
  let twice := (hide_objects names true ;;; hide_objects names true) w in
  twice.1 = once.1
  /\ w_scene twice.2 = w_scene once.2
  /\ forall x, hidden_flags (w_scene twice.2) x = hidden_flags (w_scene once.2) x.
Proof.
  intros once twice.
  assert (H : twice.1 = once.1 /\ w_scene twice.2 = w_scene once.2).
  2:{ destruct H as [H1 H2]. rewrite H2. auto. }
  subst once twice. unfold bind at 1 2.
  destruct (hide_objects names true w) as [[[]|e] w1] eqn:Hrun; [|auto].
  apply hide_objects_done_iff in Hrun as [Hall ->].
  destruct (hide_objects names true _) as [r w2] eqn:Hrun2.
  assert (Hdone : hide_objects names true
                    (upd (hide_objects_eff true names) (flat_map (hide_trace true) names) w)
                  = (Done tt,
                     upd (hide_objects_eff true names) (flat_map (hide_trace true) names)
                       (upd (hide_objects_eff true names)
                            (flat_map (hide_trace true) names) w))).
  { apply hide_objects_done_iff. split; [|reflexivity].
    rewrite Forall_forall in Hall |- *. intros x Hx. rewrite w_scene_upd.
    destruct (Hall x Hx) as [o Ho].
    pose proof (hidden_flags_hide_objects_eff true names x (w_scene w)) as Hf.
    unfold hidden_flags in Hf at 1.
    destruct (objects (hide_objects_eff true names (w_scene w)) !! x); [eauto|].
    rewrite decide_True in Hf by assumption.
    rewrite (hidden_flags_Some _ _ _ Ho) in Hf. discriminate. }
  rewrite Hdone in Hrun2. injection Hrun2 as <- <-. split; [reflexivity|].
  cbn [fst snd]. change (w_scene (upd ?f ?e ?v)) with (f (w_scene v)).
  apply hide_objects_eff_id.
  intros x o Hx Ho. rewrite Forall_forall in Hall. destruct (Hall x Hx) as [o0 Ho0].
  pose proof (hidden_flags_hide_objects_eff true names x (w_scene w)) as Hf.
  rewrite decide_True in Hf by assumption.
  rewrite (hidden_flags_Some _ _ _ Ho), (hidden_flags_Some _ _ _ Ho0) in Hf.
  simpl in Hf. injection Hf as -> ->. auto.
Qed.

(** ** [render_frame] and [write_animations2] *)

Lemma render_frame_run frame filepath w :
  render_frame frame filepath w
  = (Done tt,
     upd (fun sc => set_render_filepath filepath (set_frame_current frame sc))
         [EFrameSet frame; ESetFilepath filepath;
          ERender (set_render_filepath filepath (set_frame_current frame (w_scene w)))] w).
Proof.
  unfold render_frame, bind, frame_set, write_filepath, render; simpl. f_equal.
  unfold upd, emit, with_scene; simpl. now rewrite <- !app_assoc.
Qed.

Lemma render_loop_run output_path frames w :
  for_each frames (fun frame => render_frame frame (frame_filename output_path frame)) w
  = (Done tt,
     upd (fun sc => fold_left (shot output_path) frames sc)
         (flat_map (shot_trace output_path (w_scene w)) frames) w).
Proof.
  revert w. induction frames as [|f frames IH]; intros w; cbn [for_each].
  - unfold ret. now rewrite upd_id.
  - erewrite bind_done by apply render_frame_run. rewrite IH, upd_upd. reflexivity.
Qed.

Lemma renders_app tr1 tr2 : renders (tr1 ++ tr2) = renders tr1 ++ renders tr2.
Proof. apply omap_app. Qed.

Lemma renders_shots output_path sc frames :
  renders (flat_map (shot_trace output_path sc) frames) = map (shot output_path sc) frames.
Proof. induction frames as [|f frames IH]; simpl; [reflexivity|now f_equal]. Qed.

Lemma write_animations2_run output_path step start_frame end_frame w frames :
  Py.range start_frame (end_frame + 1) step = Some frames ->
  write_animations2 output_path step start_frame end_frame w
  = (Done tt,
     upd (fun sc => fold_left (shot output_path) frames sc)
         (flat_map (shot_trace output_path (w_scene w)) frames) w).
Proof. intros H. unfold write_animations2. rewrite H. apply render_loop_run. Qed.

Lemma range_len_forward start stop step :
  0 < step -> start < stop ->
  Py.range_len start stop step = (stop - start - 1) / step + 1.
Proof.
  intros Hs Hlt. unfold Py.range_len.
  destruct (Z.ltb_spec 0 step); [|lia]. destruct (Z.ltb_spec start stop); [reflexivity|lia].
Qed.

(** C2: with [end >= start] and [step >= 1] the frame loop of
    [write_animations2] returns and has called [render_frame], hence the
    host's render, exactly [floor((end - start) / step) + 1] times. *)
Theorem write_animations2_render_count
    (output_path : string) (step start_frame end_frame : Z) (w : world) :
  start_frame <= end_frame ->
  1 <= step ->
  exists w' evs,
    write_animations2 output_path step start_frame end_frame w = (Done tt, w')
    /\ w_trace w' = w_trace w ++ evs
    /\ Z.of_nat (length (renders evs)) = (end_frame - start_frame) / step + 1
    /\ Z.of_nat (length (filter (fun e => is_render e) evs))
       = (end_frame - start_frame) / step + 1.
Proof.
  intros Hle Hstep.
  assert (Hlen : 0 <= (end_frame - start_frame) / step) by (apply Z.div_pos; lia).
  destruct (Py.range start_frame (end_frame + 1) step) as [frames|] eqn:Hrange.
  2:{ unfold Py.range in Hrange. destruct (Z.eqb_spec step 0); [lia|discriminate]. }
  eexists _, _. split; [apply (write_animations2_run _ _ _ _ _ frames Hrange)|].
  split; [reflexivity|].
  assert (Hframes : Z.of_nat (length frames) = (end_frame - start_frame) / step + 1).
  { unfold Py.range in Hrange. destruct (Z.eqb_spec step 0); [lia|].
    injection Hrange as <-. rewrite length_map, length_seq.
    rewrite range_len_forward by lia.
    replace (end_frame + 1 - start_frame - 1) with (end_frame - start_frame) by lia. lia. }
  split.
  - now rewrite renders_shots, length_map.
  - rewrite <- Hframes. f_equal. clear.
    induction frames as [|f frames IH]; simpl; [reflexivity|now f_equal].
Qed.

Lemma write_animations2_render_count_witness :
  exists w' evs,
    write_animations2 "/r/Idle1/Idle1" 2 1 160 Sample.w0 = (Done tt, w')
    /\ w_trace w' = w_trace Sample.w0 ++ evs
    /\ Z.of_nat (length (renders evs)) = (160 - 1) / 2 + 1
    /\ Z.of_nat (length (filter (fun e => is_render e) evs)) = (160 - 1) / 2 + 1.
Proof.
  apply (write_animations2_render_count "/r/Idle1/Idle1" 2 1 160 Sample.w0); lia.
Defined.

(** ** Frame file names *)

Lemma append_nil_l (b : string) : "" +:+ b = b.
Proof. reflexivity. Qed.

Lemma append_cons (ch : ascii) (a b : string) : String ch a +:+ b = String ch (a +:+ b).
Proof. reflexivity. Qed.

Lemma app_assoc_str (a b c : string) : (a +:+ b) +:+ c = a +:+ (b +:+ c).
Proof.
  induction a as [|ch a IH]; rewrite ?append_nil_l, ?append_cons; [reflexivity|now f_equal].
Qed.

Lemma ascii_compare_refl c : Ascii.compare c c = Eq.
Proof. unfold Ascii.compare. apply N.compare_refl. Qed.

Lemma string_compare_refl s : String.compare s s = Eq.
Proof.
  induction s as [|c s IH]; cbn [String.compare]; [reflexivity|].
  now rewrite ascii_compare_refl.
Qed.

Lemma compare_app_prefix p a b :
  String.compare (p +:+ a) (p +:+ b) = String.compare a b.
Proof.
  induction p as [|ch p IH]; rewrite ?append_nil_l, ?append_cons; [reflexivity|].
  cbn [String.compare]. now rewrite ascii_compare_refl.
Qed.

Lemma zfill3_pad3 f : 0 <= f <= 999 -> Py.zfill 3 (Py.str f) = pad3 f.
Proof.
  intros Hf.
  assert (Hall : zfill3_is_pad3_upto 1000 = true) by (vm_compute; reflexivity).
  unfold zfill3_is_pad3_upto in Hall. rewrite forallb_forall in Hall.
  specialize (Hall (Z.to_nat f)). rewrite Z2Nat.id in Hall by lia.
  apply String.eqb_eq, Hall. apply in_seq. lia.
Qed.

Lemma digit_char_compare a b :
  0 <= a <= 9 -> 0 <= b <= 9 ->
  Ascii.compare (digit_char a) (digit_char b) = (a ?= b).
Proof.
  intros Ha Hb. unfold Ascii.compare, digit_char.
  rewrite !N_ascii_embedding by lia.
  rewrite <- N2Z.inj_compare. rewrite !N2Z.inj_add. rewrite !Z2N.id by lia.
  apply Z.add_compare_mono_l.
Qed.

Lemma pad3_compare f1 f2 s :
  0 <= f1 -> f1 < f2 -> f2 <= 999 ->
  String.compare (pad3 f1 +:+ s) (pad3 f2 +:+ s) = Lt.
Proof.
  intros H0 Hlt H999. unfold pad3. rewrite !append_cons, !append_nil_l.
  cbn [String.compare].
  rewrite !digit_char_compare by (Z.div_mod_to_equations; lia).
  destruct (Z.compare_spec (f1 / 100) (f2 / 100)) as [E1|L1|G1];
    [|reflexivity|exfalso; Z.div_mod_to_equations; lia].
  destruct (Z.compare_spec (f1 / 10 mod 10) (f2 / 10 mod 10)) as [E2|L2|G2];
    [|reflexivity|exfalso; Z.div_mod_to_equations; lia].
  destruct (Z.compare_spec (f1 mod 10) (f2 mod 10)) as [E3|L3|G3];
    [|reflexivity|exfalso; Z.div_mod_to_equations; lia].
  exfalso. Z.div_mod_to_equations. lia.
Qed.

Lemma frame_filename_pad3 output_path f :
  0 <= f <= 999 ->
  frame_filename output_path f = (output_path +:+ "_") +:+ (pad3 f +:+ ".png").
Proof.
  intros Hf. unfold frame_filename. now rewrite zfill3_pad3, app_assoc_str.
Qed.

Lemma frame_filename_lt output_path f1 f2 :
  0 <= f1 -> f1 < f2 -> f2 <= 999 ->
  String.compare (frame_filename output_path f1) (frame_filename output_path f2) = Lt.
Proof.
  intros H0 Hlt H999. rewrite !frame_filename_pad3 by lia.
  rewrite compare_app_prefix. now apply pad3_compare.
Qed.

Lemma range_forward_elem start stop step frames f :
  1 <= step -> Py.range start stop step = Some frames -> f ∈ frames ->
  start <= f < stop /\ (f - start) mod step = 0.
Proof.
  intros Hstep Hrange Hf. unfold Py.range in Hrange.
  destruct (Z.eqb_spec step 0); [lia|]. injection Hrange as <-.
  apply list_elem_of_fmap in Hf as (i & -> & Hi). apply elem_of_seq in Hi.
  unfold Py.range_len in Hi. destruct (Z.ltb_spec 0 step); [|lia].
  destruct (Z.ltb_spec start stop); [|simpl in Hi; lia].
  assert (Hi' : Z.of_nat i < (stop - start - 1) / step + 1).
  { assert (0 <= (stop - start - 1) / step) by (apply Z.div_pos; lia). lia. }
  split.
  - assert (Z.of_nat i * step <= (stop - start - 1) / step * step) by nia.
    pose proof (Z.mul_div_le (stop - start - 1) step ltac:(lia)). nia.
  - replace (start + Z.of_nat i * step - start) with (Z.of_nat i * step) by lia.
    apply Z.mod_mul. lia.
Qed.

(** C6 (amended): within one animation task, two sampled frames
    [0 <= f1 < f2 <= 999] (both in [[start, end]] and congruent to [start]
    modulo [step]) get distinct file names, and the name of [f1] sorts
    before the name of [f2]. *)
Theorem frame_filenames_ordered
    (output_path : string) (step start_frame end_frame f1 f2 : Z) :
  start_frame <= f1 <= end_frame ->
  start_frame <= f2 <= end_frame ->
  (f1 - start_frame) mod step = 0 ->
  (f2 - start_frame) mod step = 0 ->
  0 <= f1 -> f1 < f2 -> f2 <= 999 ->
  frame_filename output_path f1 <> frame_filename output_path f2
  /\ Py.str_lt (frame_filename output_path f1) (frame_filename output_path f2) = true.
Proof.
  intros _ _ _ _ H0 Hlt H999.
  pose proof (frame_filename_lt output_path f1 f2 H0 Hlt H999) as Hcmp. split.
  - intros Heq. rewrite Heq, string_compare_refl in Hcmp. discriminate.
  - unfold Py.str_lt. now rewrite Hcmp.
Qed.

Lemma frame_filenames_ordered_witness :
  frame_filename "/r/Idle1/Idle1" 9 <> frame_filename "/r/Idle1/Idle1" 11
  /\ Py.str_lt (frame_filename "/r/Idle1/Idle1" 9) (frame_filename "/r/Idle1/Idle1" 11)
     = true.
Proof.
  apply (frame_filenames_ordered "/r/Idle1/Idle1" 2 1 160 9 11);
    solve [lia | reflexivity].
Defined.

(** C6, as stated, fails below zero: frames -5 and -3 are both sampled by
    [range(-5, -3 + 1, 2)] and both at most 999, yet ["out_-05.png"] sorts
    after ["out_-03.png"]. *)
Lemma frame_filenames_negative_unordered :
  Py.range (-5) (-3 + 1) 2 = Some [-5; -3]
  /\ (-5 - -5) mod 2 = 0 /\ (-3 - -5) mod 2 = 0
  /\ -5 < -3 /\ -3 <= 999
  /\ frame_filename "out" (-5) = "out_-05.png"
  /\ frame_filename "out" (-3) = "out_-03.png"
  /\ Py.str_lt (frame_filename "out" (-5)) (frame_filename "out" (-3)) = false.
Proof. repeat split; try reflexivity; lia. Qed.

(** ** [mute_and_unmute] *)

Lemma same_names_refl sc : same_names sc sc.
Proof. intros y. reflexivity. Qed.

Lemma same_names_trans sc1 sc2 sc3 :
  same_names sc1 sc2 -> same_names sc2 sc3 -> same_names sc1 sc3.
Proof. intros H1 H2 y. now rewrite H2, H1. Qed.

Lemma same_names_find sc sc' y name :
  same_names sc sc' ->
  lookup_tracks sc' y ≫= find_track name = lookup_tracks sc y ≫= find_track name.
Proof.
  intros H. specialize (H y).
  destruct (lookup_tracks sc' y) as [ts'|], (lookup_tracks sc y) as [ts|];
    simpl in *; try discriminate; [|reflexivity].
  injection H as H. now apply find_track_names.
Qed.

Lemma same_names_track_index sc sc' y name :
  same_names sc sc' -> track_index sc' y name = track_index sc y name.
Proof. intros H. unfold track_index. now rewrite (same_names_find sc sc'). Qed.

Lemma has_track_alt sc y name :
  has_track sc y name <-> is_Some (lookup_tracks sc y ≫= find_track name).
Proof.
  unfold has_track. split.
  - intros (ts & i & -> & Hi). simpl. rewrite Hi. eauto.
  - intros [i Hi]. destruct (lookup_tracks sc y) as [ts|]; [|discriminate].
    simpl in Hi. eauto.
Qed.

Lemma same_names_has_track sc sc' y name :
  same_names sc sc' -> has_track sc' y name <-> has_track sc y name.
Proof. intros H. now rewrite !has_track_alt, (same_names_find sc sc'). Qed.

Lemma mute_fold_names b idxs ts : map track_name (mute_fold b idxs ts) = map track_name ts.
Proof.
  unfold mute_fold. revert ts. induction idxs as [|i idxs IH]; intros ts; simpl.
  - reflexivity.
  - now rewrite IH, mute_at_names.
Qed.

Lemma same_names_map_tracks g x sc :
  (forall ts, map track_name (g ts) = map track_name ts) ->
  same_names sc (map_tracks g x sc).
Proof.
  intros Hg y. rewrite lookup_tracks_map_tracks. case_decide; [|reflexivity].
  destruct (lookup_tracks sc y); simpl; [now rewrite Hg|reflexivity].
Qed.

Lemma same_names_pass_eff b x idxs sc : same_names sc (pass_eff b x idxs sc).
Proof. apply same_names_map_tracks. intros ts. apply mute_fold_names. Qed.

Lemma same_names_entry_eff sc0 e sc : same_names sc (entry_eff sc0 e sc).
Proof.
  unfold entry_eff. eapply same_names_trans; apply same_names_pass_eff.
Qed.

(** One step of a pass: [obj.animation_data.nla_tracks[y].mute = b]. *)
Lemma pass_step_run x y b w :
  (t <- nla_track_named (Some x) y ;; write_mute t b) w
  = match lookup_tracks (w_scene w) x with
    | Some ts =>
        match find_track y ts with
        | Some i => (Done tt, upd (map_tracks (mute_at b i) x) [ESetMute x i b] w)
        | None => (Raised (KeyError y), w)
        end
    | None => (Raised AttributeError, w)
    end.
Proof.
  unfold bind, nla_track_named.
  destruct (lookup_tracks (w_scene w) x) as [ts|]; [|reflexivity].
  destruct (find_track y ts); reflexivity.
Qed.

Lemma pass_eff_cons b x i idxs sc :
  pass_eff b x idxs (map_tracks (mute_at b i) x sc) = pass_eff b x (i :: idxs) sc.
Proof. unfold pass_eff. now rewrite map_tracks_compose. Qed.

Lemma pass_eff_nil b x sc : pass_eff b x [] sc = sc.
Proof. apply map_tracks_id. Qed.

Lemma pass_done_iff x b l w w' :
  for_each l (fun y => t <- nla_track_named (Some x) y ;; write_mute t b) w = (Done tt, w')
  <-> Forall (has_track (w_scene w) x) l
      /\ w' = upd (pass_eff b x (map (track_index (w_scene w) x) l))
                  (pass_trace (w_scene w) b x l) w.
Proof.
  revert w. induction l as [|y l IH]; intros w.
  - simpl. unfold ret. rewrite (upd_ext _ (fun sc => sc)) by apply pass_eff_nil.
    rewrite upd_id. split.
    + intros [= <-]. split; [constructor|reflexivity].
    + intros [_ ->]. reflexivity.
  - cbn [for_each]. unfold bind at 1. rewrite pass_step_run.
    destruct (lookup_tracks (w_scene w) x) as [ts|] eqn:Hts.
    2:{ split; [discriminate|]. intros [H _]. apply Forall_cons in H as [(? & ? & ? & ?) _].
        congruence. }
    destruct (find_track y ts) as [i|] eqn:Hi.
    2:{ split; [discriminate|]. intros [H _]. apply Forall_cons in H as [(? & ? & ? & ?) _].
        congruence. }
    rewrite IH, w_scene_upd, upd_upd, Forall_cons.
    pose proof (same_names_map_tracks (mute_at b i) x (w_scene w) (mute_at_names b i)) as Hsn.
    assert (Hidx : track_index (w_scene w) x y = i).
    { unfold track_index. rewrite Hts. simpl. now rewrite Hi. }
    assert (Hall : Forall (has_track (map_tracks (mute_at b i) x (w_scene w)) x) l
                   <-> Forall (has_track (w_scene w) x) l).
    { rewrite !Forall_forall. split; intros H z Hz.
      - apply (same_names_has_track _ _ x z Hsn), H, Hz.
      - apply (same_names_has_track _ _ x z Hsn), H, Hz. }
    rewrite Hall.
    assert (Heff : forall sc,
      pass_eff b x (map (track_index (map_tracks (mute_at b i) x (w_scene w)) x) l)
                   (map_tracks (mute_at b i) x sc)
      = pass_eff b x (map (track_index (w_scene w) x) (y :: l)) sc).
    { intros sc. rewrite pass_eff_cons. cbn [map]. rewrite Hidx. f_equal. f_equal.
      apply map_ext. intros z. now apply same_names_track_index. }
    assert (Htr : [ESetMute x i b]
                  ++ pass_trace (map_tracks (mute_at b i) x (w_scene w)) b x l
                  = pass_trace (w_scene w) b x (y :: l)).
    { unfold pass_trace. cbn [map app]. rewrite Hidx. f_equal.
      apply map_ext. intros z. now rewrite (same_names_track_index _ _ x z Hsn). }
    rewrite Htr, (upd_ext _ _ _ _ (Heff (w_scene w))).
    assert (Hy : has_track (w_scene w) x y) by (exists ts, i; auto).
    intuition.
Qed.

Lemma pass_none_done_iff b l w w' :
  for_each l (fun y => t <- nla_track_named None y ;; write_mute t b) w = (Done tt, w')
  <-> l = [] /\ w' = w.
Proof.
  destruct l as [|y l]; simpl.
  - unfold ret. split; [intros [= <-]; auto|intros [_ ->]; reflexivity].
  - split; [discriminate|intros [? _]; discriminate].
Qed.

Lemma mute_and_unmute_entry_unfold x a1 a2 :
  mute_and_unmute_entry (x, a1, a2)
  = (obj <- objects_get x ;;
     named_pass obj true (arg_names a1) ;;;
     named_pass obj false (arg_names a2)).
Proof. destruct a1, a2; reflexivity. Qed.

Lemma same_names_entry_ok sc sc' e :
  same_names sc sc' -> entry_ok sc' e <-> entry_ok sc e.
Proof.
  intros H. unfold entry_ok. rewrite !Forall_forall.
  split; intros [H1 H2]; split; intros z Hz;
    apply (same_names_has_track _ _ _ z H); auto.
Qed.

Lemma same_names_entry_eff_eq sc sc' e s :
  same_names sc sc' -> entry_eff sc' e s = entry_eff sc e s.
Proof.
  intros H. unfold entry_eff.
  rewrite (map_ext (track_index sc' e.1.1) (track_index sc e.1.1))
    by (intros z; now apply same_names_track_index).
  rewrite (map_ext (track_index sc' e.1.1) (track_index sc e.1.1))
    by (intros z; now apply same_names_track_index).
  reflexivity.
Qed.

Lemma same_names_entry_trace sc sc' e :
  same_names sc sc' -> entry_trace sc' e = entry_trace sc e.
Proof.
  intros H. unfold entry_trace, pass_trace. f_equal; apply map_ext; intros z;
    now rewrite (same_names_track_index _ _ _ z H).
Qed.

Lemma same_names_entries_eff sc0 es sc : same_names sc (entries_eff sc0 es sc).
Proof.
  unfold entries_eff. revert sc. induction es as [|e es IH]; intros sc; simpl.
  - apply same_names_refl.
  - eapply same_names_trans; [apply same_names_entry_eff|apply IH].
Qed.

Lemma mute_and_unmute_entry_done_iff e w w' :
  mute_and_unmute_entry e w = (Done tt, w')
  <-> entry_ok (w_scene w) e
      /\ w' = upd (entry_eff (w_scene w) e) (entry_trace (w_scene w) e) w.
Proof.
  destruct e as [[x a1] a2]. rewrite mute_and_unmute_entry_unfold.
  unfold entry_ok, entry_eff, entry_trace. cbn [fst snd].
  unfold bind at 1. unfold objects_get.
  destruct (objects (w_scene w) !! x) as [o|] eqn:Hx.
  - unfold bind, named_pass.
    destruct (for_each (arg_names a1) _ w) as [[[]|err] w1] eqn:H1.
    + apply pass_done_iff in H1 as [Hok1 ->]. rewrite pass_done_iff.
      rewrite w_scene_upd, upd_upd.
      pose proof (same_names_pass_eff true x
                    (map (track_index (w_scene w) x) (arg_names a1)) (w_scene w)) as Hsn.
      assert (Hall : Forall (has_track (pass_eff true x
                        (map (track_index (w_scene w) x) (arg_names a1)) (w_scene w)) x)
                      (arg_names a2)
                     <-> Forall (has_track (w_scene w) x) (arg_names a2)).
      { rewrite !Forall_forall. split; intros H z Hz;
          apply (same_names_has_track _ _ x z Hsn), H, Hz. }
      rewrite Hall.
      rewrite (map_ext (track_index (pass_eff true x _ (w_scene w)) x)
                       (track_index (w_scene w) x))
        by (intros z; now apply same_names_track_index).
      assert (Htr : pass_trace (pass_eff true x
                      (map (track_index (w_scene w) x) (arg_names a1)) (w_scene w))
                      false x (arg_names a2)
                    = pass_trace (w_scene w) false x (arg_names a2)).
      { unfold pass_trace. apply map_ext. intros z.
        now rewrite (same_names_track_index _ _ x z Hsn). }
      rewrite Htr. intuition.
    + split; [discriminate|]. intros [[Hok1 _] _].
      assert (Hdone : for_each (arg_names a1)
                (fun y => t <- nla_track_named (Some x) y ;; write_mute t true) w
              = (Done tt, upd (pass_eff true x (map (track_index (w_scene w) x) (arg_names a1)))
                              (pass_trace (w_scene w) true x (arg_names a1)) w))
        by (apply pass_done_iff; auto).
      change (for_each (arg_names a1)
                (fun y => t <- nla_track_named (Some x) y ;; write_mute t true) w
              = (Raised err, w1)) in H1.
      congruence.
  - assert (Hnone : lookup_tracks (w_scene w) x = None)
      by (unfold lookup_tracks; now rewrite Hx).
    assert (Hno : forall l, Forall (has_track (w_scene w) x) l <-> l = []).
    { intros l. split; [|intros ->; constructor].
      destruct l as [|z l]; [reflexivity|].
      intros H. apply Forall_cons in H as [(? & ? & ? & ?) _]. congruence. }
    rewrite !Hno. unfold bind, named_pass.
    destruct (for_each (arg_names a1) _ w) as [[[]|err] w1] eqn:H1.
    + apply pass_none_done_iff in H1 as [E1 ->]. rewrite pass_none_done_iff, E1.
      cbn [map]. unfold pass_trace. cbn [map app].
      split.
      * intros [E2 ->]. rewrite E2. cbn [map].
        rewrite (upd_ext _ (fun sc => sc)), upd_id; [auto|].
        now rewrite !pass_eff_nil.
      * intros [[_ E2] ->]. rewrite E2. cbn [map]. split; [reflexivity|].
        rewrite (upd_ext _ (fun sc => sc)), upd_id; [auto|].
        now rewrite !pass_eff_nil.
    + split; [discriminate|]. intros [[E1 _] _]. rewrite E1 in H1. discriminate.
Qed.

Lemma mute_and_unmute_entries_done_iff es w w' :
  for_each es mute_and_unmute_entry w = (Done tt, w')
  <-> Forall (entry_ok (w_scene w)) es
      /\ w' = upd (entries_eff (w_scene w) es) (flat_map (entry_trace (w_scene w)) es) w.
Proof.
  revert w. induction es as [|e es IH]; intros w.
  - simpl. unfold ret. rewrite upd_id. split.
    + intros [= <-]. split; [constructor|reflexivity].
    + intros [_ ->]. reflexivity.
  - cbn [for_each]. unfold bind.
    destruct (mute_and_unmute_entry e w) as [[[]|err] w1] eqn:He.
    + apply mute_and_unmute_entry_done_iff in He as [Hok ->].
      rewrite IH, w_scene_upd, upd_upd, Forall_cons.
      pose proof (same_names_entry_eff (w_scene w) e (w_scene w)) as Hsn.
      assert (Hall : Forall (entry_ok (entry_eff (w_scene w) e (w_scene w))) es
                     <-> Forall (entry_ok (w_scene w)) es).
      { rewrite !Forall_forall. split; intros H e' He';
          apply (same_names_entry_ok _ _ e' Hsn), H, He'. }
      rewrite Hall.
      assert (Htr : flat_map (entry_trace (entry_eff (w_scene w) e (w_scene w))) es
                    = flat_map (entry_trace (w_scene w)) es).
      { clear -Hsn. induction es as [|e' es IH]; simpl; [reflexivity|].
        now rewrite IH, (same_names_entry_trace _ _ e' Hsn). }
      rewrite Htr.
      assert (Heff : entries_eff (entry_eff (w_scene w) e (w_scene w)) es
                       (entry_eff (w_scene w) e (w_scene w))
                     = entries_eff (w_scene w) (e :: es) (w_scene w)).
      { unfold entries_eff. cbn [fold_left].
        generalize (entry_eff (w_scene w) e (w_scene w)) at 2 3 as s. clear -Hsn.
        induction es as [|e' es IH]; intros s; simpl; [reflexivity|].
        now rewrite (same_names_entry_eff_eq _ _ e' s Hsn), IH. }
      rewrite (upd_ext _ _ _ _ Heff).
      change (entry_trace (w_scene w) e ++ flat_map (entry_trace (w_scene w)) es)
        with (flat_map (entry_trace (w_scene w)) (e :: es)).
      intuition.
    + split; [discriminate|]. intros [H _]. apply Forall_cons in H as [Hok _].
      assert (Hdone : mute_and_unmute_entry e w
                = (Done tt, upd (entry_eff (w_scene w) e) (entry_trace (w_scene w) e) w))
        by (apply mute_and_unmute_entry_done_iff; auto).
      congruence.
Qed.

Lemma mute_fold_lookup b idxs ts i :
  mute_fold b idxs ts !! i
  = if decide (i ∈ idxs) then track_set_mute b <$> ts !! i else ts !! i.
Proof.
  unfold mute_fold. revert ts. induction idxs as [|j idxs IH]; intros ts; cbn [fold_left].
  - destruct (decide (i ∈ [])) as [H|_]; [|reflexivity]. now apply not_elem_of_nil in H.
  - rewrite IH. unfold mute_at at 1 2. rewrite list_lookup_alter.
    destruct (decide (i ∈ j :: idxs)) as [Hin|Hnin];
      destruct (decide (i ∈ idxs)) as [Hin'|Hnin'];
      destruct (decide (j = i)) as [->|Hji]; try reflexivity.
    + now destruct (ts !! i).
    + apply elem_of_cons in Hin as [?|?]; congruence.
    + exfalso. apply Hnin. now apply list_elem_of_further.
    + exfalso. apply Hnin. now apply list_elem_of_further.
    + exfalso. apply Hnin. apply list_elem_of_here.
Qed.

Lemma lookup_tracks_entry_eff sc0 e sc y :
  lookup_tracks (entry_eff sc0 e sc) y
  = if decide (e.1.1 = y)
    then (fun ts => mute_fold false (map (track_index sc0 e.1.1) (arg_names e.2))
                      (mute_fold true (map (track_index sc0 e.1.1) (arg_names e.1.2)) ts))
         <$> lookup_tracks sc y
    else lookup_tracks sc y.
Proof.
  unfold entry_eff, pass_eff. rewrite map_tracks_compose. apply lookup_tracks_map_tracks.
Qed.

Lemma lookup_tracks_entries_eff_other sc0 es sc x :
  Forall (fun e => e.1.1 <> x) es ->
  lookup_tracks (entries_eff sc0 es sc) x = lookup_tracks sc x.
Proof.
  unfold entries_eff. revert sc. induction es as [|e es IH]; intros sc H; simpl.
  - reflexivity.
  - apply Forall_cons in H as [He Hes]. rewrite IH by assumption.
    rewrite lookup_tracks_entry_eff. now rewrite decide_False.
Qed.

(** C10 (amended): in every entry of [mute_and_unmute] the writes of the
    mute pass all come before the writes of the unmute pass; so a track
    name that is in both lists of an entry is unmuted when
    [mute_and_unmute] returns, provided no later entry names the same
    object again. *)
Theorem mute_and_unmute_unmute_wins
    (objs : list string) (tracks_to_mute tracks_to_unmute : list layer_arg)
    (w w' : world) (pre post : list (string * layer_arg * layer_arg))
    (x : string) (ml ul : list string) (n : string) :
  mute_and_unmute objs tracks_to_mute tracks_to_unmute w = (Done tt, w') ->
  zip3 objs tracks_to_mute tracks_to_unmute = pre ++ (x, Names ml, Names ul) :: post ->
  Forall (fun e => e.1.1 <> x) post ->
  n ∈ ml -> n ∈ ul ->
  w_trace w' = w_trace w ++
    flat_map (fun e =>
                pass_trace (w_scene w) true e.1.1 (arg_names e.1.2)
                ++ pass_trace (w_scene w) false e.1.1 (arg_names e.2))
             (zip3 objs tracks_to_mute tracks_to_unmute)
  /\ exists ts r t,
       lookup_tracks (w_scene w') x = Some ts
       /\ find_track n ts = Some r
       /\ ts !! r = Some t
       /\ track_name t = n
       /\ track_mute t = false.
Proof.
  intros Hrun Hzip Hpost Hml Hul. unfold mute_and_unmute in Hrun.
  apply mute_and_unmute_entries_done_iff in Hrun as [Hok ->]. split; [reflexivity|].
  rewrite Hzip in *. rewrite w_scene_upd.
  unfold entries_eff. rewrite fold_left_app. cbn [fold_left].
  fold (entries_eff (w_scene w) pre (w_scene w)).
  set (s1 := entries_eff (w_scene w) pre (w_scene w)).
  fold (entries_eff (w_scene w) post (entry_eff (w_scene w) (x, Names ml, Names ul) s1)).
  rewrite lookup_tracks_entries_eff_other by assumption.
  rewrite lookup_tracks_entry_eff. cbn [fst snd arg_names]. rewrite decide_True by reflexivity.
  apply Forall_app in Hok as [_ Hok]. apply Forall_cons in Hok as [[_ Hok] _].
  cbn [fst snd arg_names] in Hok. rewrite Forall_forall in Hok.
  pose proof (same_names_entries_eff (w_scene w) pre (w_scene w)) as Hsn. fold s1 in Hsn.
  destruct (Hok n Hul) as (ts0 & r & Hts0 & Hr).
  assert (Hidx : track_index (w_scene w) x n = r).
  { unfold track_index. rewrite Hts0. simpl. now rewrite Hr. }
  pose proof (Hsn x) as Hnames. rewrite Hts0 in Hnames.
  destruct (lookup_tracks s1 x) as [ts1|]; [|discriminate].
  simpl in Hnames. injection Hnames as Hnames. simpl.
  set (M1 := mute_fold true (map (track_index (w_scene w) x) ml) ts1).
  set (L := mute_fold false (map (track_index (w_scene w) x) ul) M1).
  assert (HrL : find_track n L = Some r).
  { rewrite <- Hr. apply find_track_names. unfold L, M1.
    now rewrite !mute_fold_names. }
  destruct (find_track_Some _ _ _ HrL) as (t & Ht & Hname).
  exists L, r, t. repeat split; try assumption.
  unfold L in Ht. rewrite mute_fold_lookup in Ht.
  rewrite decide_True in Ht.
  - destruct (M1 !! r) as [t2|]; [|discriminate]. simpl in Ht. now injection Ht as <-.
  - rewrite <- Hidx. apply list_elem_of_fmap. eauto.
Qed.

Lemma mute_and_unmute_unmute_wins_witness :
  let w' := (mute_and_unmute ["rig"] [Names ["Idle1"]] [Names ["Idle1"; "Rotation"]]
               Sample.w0).2 in
  w_trace w' = w_trace Sample.w0 ++
    flat_map (fun e =>
                pass_trace (w_scene Sample.w0) true e.1.1 (arg_names e.1.2)
                ++ pass_trace (w_scene Sample.w0) false e.1.1 (arg_names e.2))
             (zip3 ["rig"] [Names ["Idle1"]] [Names ["Idle1"; "Rotation"]])
  /\ exists ts r t,
       lookup_tracks (w_scene w') "rig" = Some ts
       /\ find_track "Idle1" ts = Some r
       /\ ts !! r = Some t
       /\ track_name t = "Idle1"
       /\ track_mute t = false.
Proof.
  apply (mute_and_unmute_unmute_wins ["rig"] [Names ["Idle1"]]
           [Names ["Idle1"; "Rotation"]] Sample.w0 _ [] [] "rig"
           ["Idle1"] ["Idle1"; "Rotation"] "Idle1").
  - vm_compute. reflexivity.
  - reflexivity.
  - constructor.
  - apply list_elem_of_here.
  - apply list_elem_of_here.
Defined.

(** C10, as stated, fails when an object is listed twice: ["Idle1"] is in
    both lists of the first entry for ["rig"], the second entry mutes it
    again, and it is muted when [mute_and_unmute] returns. *)
Lemma mute_and_unmute_later_entry_mutes :
  let r := mute_and_unmute ["rig"; "rig"]
             [Names ["Idle1"]; Names ["Idle1"]]
             [Names ["Idle1"]; Names []] Sample.w0 in
  r.1 = Done tt
  /\ lookup_tracks (w_scene r.2) "rig"
     = Some [NlaTrack "Idle1" true; NlaTrack "reset" false;
             NlaTrack "Walk" false; NlaTrack "Rotation" true]
  /\ w_trace r.2
     = [ESetMute "rig" 0 true; ESetMute "rig" 0 false; ESetMute "rig" 0 true].
Proof. repeat split; vm_compute; reflexivity. Qed.

(** ** [run_case] *)

Lemma hide_objects_single_run b x w :
  hide_objects [x] b w
  = match objects (w_scene w) !! x with
    | Some _ => (Done tt, upd (hide_eff b x) (hide_trace b x) w)
    | None => (Raised AttributeError, w)
    end.
Proof.
  unfold hide_objects. cbn [for_each]. unfold bind. rewrite hide_objects_entry_run.
  destruct (objects (w_scene w) !! x); reflexivity.
Qed.

Lemma objects_hide_eff_ne b x y sc :
  x <> y -> objects (hide_eff b x sc) !! y = objects sc !! y.
Proof.
  intros Hne. unfold hide_eff, alter_object; simpl. now rewrite !lookup_alter_ne.
Qed.

Lemma case_selector_unsupported animal_name objs w :
  animal_name <> "squirrel" ->
  case_selector animal_name objs w = (Done objs, emit [diagnostic animal_name] w).
Proof.
  intros Hne. unfold case_selector.
  destruct (String.eqb_spec animal_name "squirrel"); [contradiction|reflexivity].
Qed.

Lemma unsupported_run_equation animal_name w :
  animal_name <> "squirrel" ->
  run_case animal_name w
  = match objects (w_scene w) !! "visibleground" with
    | None => (Raised AttributeError, w)
    | Some _ =>
        match objects (w_scene w) !! "ShadowPlane" with
        | None =>
            (Raised AttributeError,
             upd (hide_eff true "visibleground") (hide_trace true "visibleground") w)
        | Some _ =>
            (Raised (UnboundLocalError "objects"),
             upd (fun sc => hide_eff false "ShadowPlane"
                              (hide_eff false "ShadowPlane"
                                 (hide_eff true "visibleground" sc)))
                 (hide_trace true "visibleground" ++ hide_trace false "ShadowPlane"
                  ++ [diagnostic animal_name] ++ hide_trace false "ShadowPlane") w)
        end
    end.
Proof.
  intros Hne.
  unfold run_case. unfold bind at 1. unfold abspath_blend_dir.
  unfold bind at 1. rewrite hide_objects_single_run.
  destruct (objects (w_scene w) !! "visibleground") as [vg|] eqn:Hvg; [|reflexivity].
  unfold bind at 1. rewrite hide_objects_single_run, w_scene_upd.
  rewrite objects_hide_eff_ne by discriminate.
  destruct (objects (w_scene w) !! "ShadowPlane") as [sp|] eqn:Hsp; [|reflexivity].
  rewrite upd_upd. unfold bind at 1. rewrite case_selector_unsupported by assumption.
  change (emit ?evs (upd ?f ?evs0 ?v)) with (upd (fun sc => sc) evs (upd f evs0 v)).
  rewrite upd_upd.
  unfold animation_list. cbn [for_each]. unfold bind at 1.
  unfold run_animation. unfold bind at 1. unfold read_frame_end.
  unfold bind at 1. rewrite hide_objects_single_run, w_scene_upd.
  assert (Hsp' : is_Some (objects (hide_eff false "ShadowPlane"
                    (hide_eff true "visibleground" (w_scene w))) !! "ShadowPlane")).
  { apply objects_hide_eff_is_Some. rewrite objects_hide_eff_ne by discriminate. eauto. }
  destruct Hsp' as [sp' Hsp']. rewrite Hsp'. rewrite upd_upd.
  unfold bind at 1. cbn [read_local raise]. f_equal.
Qed.

(** C4: for a subject other than ["squirrel"] the dispatch of [run_case]
    prints the diagnostic and changes nothing else: the scene (visibility
    flags, mute flags, frames), the directories and the local [objects] are
    as they were; and the run then makes no render and creates no directory.
    It stops at the first read of [objects], with the scene as it was at
    the dispatch. *)
Theorem run_case_unsupported (animal_name : string) (w : world) :
  animal_name <> "squirrel" ->
  (forall objs w0,
     case_selector animal_name objs w0 = (Done objs, emit [diagnostic animal_name] w0))
  /\ exists e evs,
       (run_case animal_name w).1 = Raised e
       /\ w_trace (run_case animal_name w).2 = w_trace w ++ evs
       /\ Forall (fun ev => is_render ev = false /\ is_makedirs ev = false) evs
       /\ w_dirs (run_case animal_name w).2 = w_dirs w
       /\ (is_Some (objects (w_scene w) !! "visibleground") ->
           is_Some (objects (w_scene w) !! "ShadowPlane") ->
           e = UnboundLocalError "objects"
           /\ diagnostic animal_name ∈ evs
           /\ w_scene (run_case animal_name w).2
              = hide_eff false "ShadowPlane" (hide_eff true "visibleground" (w_scene w))).
Proof.
  intros Hne. split; [intros objs w0; now apply case_selector_unsupported|].
  rewrite unsupported_run_equation by assumption.
  destruct (objects (w_scene w) !! "visibleground") as [vg|] eqn:Hvg.
  2:{ exists AttributeError, []. rewrite app_nil_r.
      split; [reflexivity|]. split; [reflexivity|]. split; [constructor|].
      split; [reflexivity|]. intros [? ?]; discriminate. }
  destruct (objects (w_scene w) !! "ShadowPlane") as [sp|] eqn:Hsp.
  2:{ exists AttributeError, (hide_trace true "visibleground").
      split; [reflexivity|]. split; [reflexivity|]. split; [repeat constructor|].
      split; [reflexivity|]. intros _ [? ?]; discriminate. }
  eexists _, _. split; [reflexivity|]. split; [reflexivity|].
  split; [repeat constructor|]. split; [reflexivity|].
  intros _ _. split; [reflexivity|]. split.
  - unfold hide_trace. cbn [app]. do 4 apply list_elem_of_further. apply list_elem_of_here.
  - cbn [snd]. rewrite w_scene_upd. apply hide_eff_id.
    intros o Ho. pose proof (hidden_flags_hide_eff false "ShadowPlane" "ShadowPlane"
      (hide_eff true "visibleground" (w_scene w))) as Hf.
    rewrite decide_True in Hf by reflexivity.
    rewrite (hidden_flags_Some _ _ _ Ho) in Hf.
    unfold hidden_flags in Hf at 1. rewrite objects_hide_eff_ne in Hf by discriminate.
    rewrite Hsp in Hf. simpl in Hf. injection Hf as -> ->. auto.
Qed.

Lemma run_case_unsupported_witness :
  exists e evs,
    (run_case "cat" Sample.w0).1 = Raised e
    /\ w_trace (run_case "cat" Sample.w0).2 = w_trace Sample.w0 ++ evs
    /\ Forall (fun ev => is_render ev = false /\ is_makedirs ev = false) evs
    /\ w_dirs (run_case "cat" Sample.w0).2 = w_dirs Sample.w0
    /\ (is_Some (objects (w_scene Sample.w0) !! "visibleground") ->
        is_Some (objects (w_scene Sample.w0) !! "ShadowPlane") ->
        e = UnboundLocalError "objects"
        /\ diagnostic "cat" ∈ evs
        /\ w_scene (run_case "cat" Sample.w0).2
           = hide_eff false "ShadowPlane"
               (hide_eff true "visibleground" (w_scene Sample.w0))).
Proof.
  apply (run_case_unsupported "cat" Sample.w0). discriminate.
Defined.

(** ** What a computation may emit *)

Section Emits.
Context {A B : Type} (Phi : event -> Prop).

Lemma emits_bind (P : world -> Prop) (Q : A -> world -> Prop) (R : B -> world -> Prop)
    (m : M A) (k : A -> M B) :
  emits Phi P m Q -> (forall a, emits Phi (Q a) (k a) R) -> emits Phi P (bind m k) R.
Proof.
  intros Hm Hk w HP. destruct (Hm w HP) as (e1 & Ht1 & HF1 & HQ).
  unfold bind. destruct (m w) as [[a|err] w1] eqn:Hmw; simpl in *.
  - destruct (Hk a w1 (HQ a eq_refl)) as (e2 & Ht2 & HF2 & HR).
    exists (e1 ++ e2). split; [now rewrite Ht2, Ht1, app_assoc|].
    split; [now apply Forall_app|assumption].
  - exists e1. split; [assumption|]. split; [assumption|]. intros b Hb. discriminate.
Qed.

Lemma emits_ret (Q : A -> world -> Prop) (a : A) :
  emits Phi (Q a) (ret a) Q.
Proof.
  intros w HQ. exists []. split; [now rewrite app_nil_r|].
  split; [constructor|]. simpl. now intros ? [= <-].
Qed.

Lemma emits_raise (P : world -> Prop) (Q : A -> world -> Prop) (e : py_exc) :
  emits Phi P (raise e) Q.
Proof.
  intros w _. exists []. split; [now rewrite app_nil_r|].
  split; [constructor|]. intros a Ha. discriminate.
Qed.

Lemma emits_conseq (Psi : event -> Prop) (P P' : world -> Prop)
    (Q Q' : A -> world -> Prop) (m : M A) :
  (forall e, Psi e -> Phi e) ->
  (forall w, P' w -> P w) ->
  (forall a w, Q a w -> Q' a w) ->
  emits Psi P m Q -> emits Phi P' m Q'.
Proof.
  intros HPhi HP HQ Hm w HP'. destruct (Hm w (HP _ HP')) as (evs & Ht & HF & HQ0).
  exists evs. split; [assumption|]. split.
  - eapply Forall_impl; eauto.
  - intros a Ha. apply HQ, HQ0, Ha.
Qed.

(** A postcondition that follows from the run itself. *)
Lemma emits_post (P : world -> Prop) (Q Q' : A -> world -> Prop) (m : M A) :
  emits Phi P m Q ->
  (forall w a w', P w -> m w = (Done a, w') -> Q' a w') ->
  emits Phi P m Q'.
Proof.
  intros Hm Hpost w HP. destruct (Hm w HP) as (evs & Ht & HF & _).
  exists evs. split; [assumption|]. split; [assumption|].
  intros a Ha. apply (Hpost w a); [assumption|].
  destruct (m w) as [r w']; simpl in *. now subst.
Qed.
End Emits.

Lemma emits_for_each {A} (Phi : event -> Prop) (I : world -> Prop)
    (l : list A) (body : A -> M unit) :
  (forall x, x ∈ l -> emits Phi I (body x) (fun _ => I)) ->
  emits Phi I (for_each l body) (fun _ => I).
Proof.
  induction l as [|x l IH]; intros Hbody; cbn [for_each].
  - apply (emits_ret Phi (fun _ => I)).
  - apply (emits_bind Phi I (fun _ => I)).
    + apply Hbody, list_elem_of_here.
    + intros _. apply IH. intros y Hy. apply Hbody. now apply list_elem_of_further.
Qed.

Lemma quiet_bind {A B} (m : M A) (k : A -> M B) :
  quiet m -> (forall a, quiet (k a)) -> quiet (bind m k).
Proof. intros Hm Hk. eapply emits_bind; [exact Hm|]. intros a. apply Hk. Qed.

Lemma quiet_ret {A} (a : A) : quiet (ret a).
Proof. apply (emits_ret _ (fun _ _ => True)). Qed.

Lemma quiet_raise {A} (e : py_exc) : quiet (raise e : M A).
Proof. apply emits_raise. Qed.

Lemma quiet_for_each {A} (l : list A) (body : A -> M unit) :
  (forall x, quiet (body x)) -> quiet (for_each l body).
Proof. intros H. apply (emits_for_each _ (fun _ => True)). intros x _. apply H. Qed.

(** A host call that leaves the trace alone, or appends events that are
    not renders. *)
Ltac quiet_prim :=
  let w := fresh "w" in
  intros w _;
  repeat match goal with
         | |- context [match ?x with _ => _ end] => destruct x
         end;
  first [ exists []; split; [now rewrite app_nil_r|split; [constructor|auto]]
        | eexists; split; [reflexivity|split; [repeat constructor|auto]] ].

Lemma quiet_frame_set f : quiet (frame_set f).
Proof. quiet_prim. Qed.

Lemma quiet_write_frame_end f : quiet (write_frame_end f).
Proof. quiet_prim. Qed.

Lemma quiet_read_frame_end : quiet read_frame_end.
Proof. quiet_prim. Qed.

Lemma quiet_objects_get x : quiet (objects_get x).
Proof. quiet_prim. Qed.

Lemma quiet_write_hide_render obj b : quiet (write_hide_render obj b).
Proof. destruct obj; [quiet_prim|apply quiet_raise]. Qed.

Lemma quiet_write_hide_viewport obj b : quiet (write_hide_viewport obj b).
Proof. destruct obj; [quiet_prim|apply quiet_raise]. Qed.

Lemma quiet_nla_tracks obj : quiet (nla_tracks obj).
Proof. destruct obj; [|apply quiet_raise]. unfold nla_tracks. quiet_prim. Qed.

Lemma quiet_nla_track_named obj name : quiet (nla_track_named obj name).
Proof. destruct obj; [|apply quiet_raise]. unfold nla_track_named. quiet_prim. Qed.

Lemma quiet_write_mute t b : quiet (write_mute t b).
Proof. quiet_prim. Qed.

Lemma quiet_print msg : quiet (print msg).
Proof. quiet_prim. Qed.

Lemma quiet_abspath_blend_dir : quiet abspath_blend_dir.
Proof. quiet_prim. Qed.

Lemma quiet_path_exists p : quiet (path_exists p).
Proof. quiet_prim. Qed.

Lemma quiet_makedirs p : quiet (makedirs p).
Proof. quiet_prim. Qed.

Lemma quiet_read_local {A} var (v : option A) : quiet (read_local var v).
Proof. destruct v; [apply quiet_ret|apply quiet_raise]. Qed.

Create HintDb quiet.
#[local] Hint Resolve quiet_frame_set quiet_write_frame_end quiet_read_frame_end
  quiet_objects_get quiet_write_hide_render quiet_write_hide_viewport quiet_nla_tracks
  quiet_nla_track_named quiet_write_mute quiet_print quiet_abspath_blend_dir
  quiet_path_exists quiet_makedirs quiet_ret quiet_raise : quiet.

Ltac quiet_steps :=
  repeat first
    [ apply quiet_bind; [|intros ?]
    | apply quiet_for_each; intros ?
    | solve [auto with quiet]
    | apply quiet_read_local ].

Lemma quiet_mute_tracks tracks mute : quiet (mute_tracks tracks mute).
Proof. unfold mute_tracks. quiet_steps. Qed.

Lemma quiet_hide_objects objs b : quiet (hide_objects objs b).
Proof. unfold hide_objects, hide_objects_entry. quiet_steps. Qed.

Lemma quiet_reset_tracks objs : quiet (reset_tracks objs).
Proof.
  unfold reset_tracks, reset_tracks_entry.
  pose proof quiet_mute_tracks. quiet_steps; auto.
Qed.

Lemma quiet_mute_and_unmute objs tm tu : quiet (mute_and_unmute objs tm tu).
Proof.
  unfold mute_and_unmute. apply quiet_for_each. intros [[x a1] a2].
  rewrite mute_and_unmute_entry_unfold. unfold named_pass. quiet_steps.
Qed.

Lemma quiet_case_selector animal_name objs : quiet (case_selector animal_name objs).
Proof.
  unfold case_selector. destruct (String.eqb animal_name "squirrel"); quiet_steps.
Qed.

(** ** At most one animation is unmuted at a render *)

Lemma anim_unmuted_only anim sc a :
  only_unmuted anim sc -> a <> anim -> a <> "Rotation" -> anim_unmuted sc a = false.
Proof.
  intros Honly Ha Hrot. unfold anim_unmuted.
  destruct (lookup_tracks sc "rig") as [ts|] eqn:Hts; [|reflexivity]. simpl.
  unfold unmuted_named. apply not_true_iff_false. intros Hex.
  apply existsb_exists in Hex as (t & Hin & Ht).
  apply andb_true_iff in Ht as [Hname Hmute].
  apply String.eqb_eq in Hname. apply negb_true_iff in Hmute.
  apply list_elem_of_In in Hin.
  destruct (Honly ts t Hts Hin Hmute); congruence.
Qed.

Lemma only_unmuted_at_most_one anim sc :
  anim ∈ animation_list -> only_unmuted anim sc -> at_most_one_unmuted sc.
Proof.
  intros Hin Honly. unfold at_most_one_unmuted, animation_list in *.
  apply elem_of_cons in Hin as [->|Hin].
  - cbn [List.filter]. rewrite (anim_unmuted_only "Idle1" sc "Walk") by (auto; discriminate).
    destruct (anim_unmuted sc "Idle1"); simpl; lia.
  - apply list_elem_of_singleton in Hin as ->.
    cbn [List.filter]. rewrite (anim_unmuted_only "Walk" sc "Idle1") by (auto; discriminate).
    destruct (anim_unmuted sc "Walk"); simpl; lia.
Qed.

Lemma render_ok_not_render base_path animal_name e :
  is_render e = false -> render_ok base_path animal_name e.
Proof. destruct e; simpl; auto. discriminate. Qed.

Lemma emits_quiet {A} base_path animal_name (m : M A) :
  quiet m ->
  emits (render_ok base_path animal_name) (fun _ => True) m (fun _ _ => True).
Proof.
  apply emits_conseq; auto. intros e. apply render_ok_not_render.
Qed.

(** A computation that never renders and leaves the scene as it is keeps
    any property of the scene. *)
Lemma emits_quiet_keep {A} base_path animal_name (m : M A) (I : scene -> Prop) :
  quiet m ->
  (forall w a w', m w = (Done a, w') -> w_scene w' = w_scene w) ->
  emits (render_ok base_path animal_name) (fun w => I (w_scene w)) m
        (fun _ w => I (w_scene w)).
Proof.
  intros Hq Hkeep w HI. destruct (Hq w Logic.I) as (evs & Ht & HF & _).
  exists evs. split; [assumption|]. split.
  - eapply Forall_impl; [exact HF|]. intros e. apply render_ok_not_render.
  - intros a Ha. destruct (m w) as [r w'] eqn:Hm. simpl in *. subst r.
    now rewrite (Hkeep w a w' Hm).
Qed.

Lemma only_unmuted_after_unmute anim ts sc0 sc :
  lookup_tracks sc "rig" = Some ts ->
  (forall t, t ∈ ts -> track_mute t = true) ->
  same_names sc0 sc ->
  entry_ok sc0 ("rig", Names [], Names [anim; "Rotation"]) ->
  only_unmuted anim (entry_eff sc0 ("rig", Names [], Names [anim; "Rotation"]) sc).
Proof.
  intros Hts Hmuted Hsn [_ Hok] ts' t Hts' Hin Hmute.
  rewrite lookup_tracks_entry_eff in Hts'. cbn [fst snd arg_names map] in Hts', Hok.
  rewrite decide_True, Hts in Hts' by reflexivity. simpl in Hts'. injection Hts' as <-.
  apply list_elem_of_lookup in Hin as [i Hi].
  change (mute_fold false
            [track_index sc0 "rig" anim; track_index sc0 "rig" "Rotation"] ts !! i
          = Some t) in Hi.
  rewrite mute_fold_lookup in Hi.
  destruct (decide (i ∈ [track_index sc0 "rig" anim; track_index sc0 "rig" "Rotation"]))
    as [Hiu|Hiu].
  2:{ exfalso. assert (track_mute t = true) by (apply Hmuted, list_elem_of_lookup; eauto).
      congruence. }
  destruct (ts !! i) as [t0|] eqn:Ht0; [|discriminate]. simpl in Hi. injection Hi as <-.
  simpl.
  assert (Hname : forall name, has_track sc0 "rig" name -> i = track_index sc0 "rig" name ->
                               track_name t0 = name).
  { intros name Hhas ->. apply (same_names_has_track _ _ "rig" name Hsn) in Hhas.
    destruct Hhas as (ts1 & j & Hts1 & Hj). rewrite Hts in Hts1. injection Hts1 as <-.
    rewrite <- (same_names_track_index _ _ "rig" name Hsn) in Ht0.
    unfold track_index in Ht0. rewrite Hts in Ht0. simpl in Ht0. rewrite Hj in Ht0.
    simpl in Ht0. destruct (find_track_Some _ _ _ Hj) as (t1 & Ht1 & Hn). congruence. }
  apply Forall_cons in Hok as [Hanim Hok]. apply Forall_cons in Hok as [Hrot _].
  apply elem_of_cons in Hiu as [->|Hiu].
  - left. now apply Hname.
  - apply list_elem_of_singleton in Hiu as ->. right. now apply Hname.
Qed.

Lemma emits_quiet_post {A} base_path animal_name (m : M A)
    (P : world -> Prop) (Q : A -> world -> Prop) :
  quiet m ->
  (forall w a w', P w -> m w = (Done a, w') -> Q a w') ->
  emits (render_ok base_path animal_name) P m Q.
Proof.
  intros Hq Hpost. apply (emits_post _ P (fun _ _ => True)); [|assumption].
  eapply emits_conseq; [| | |exact Hq]; cbv beta; auto.
  intros e. apply render_ok_not_render.
Qed.

Lemma emits_mute_and_unmute_rig base_path animal_name anim :
  emits (render_ok base_path animal_name)
        (fun w => all_muted "rig" (w_scene w))
        (mute_and_unmute ["rig"] [Names []] [Names [anim; "Rotation"]])
        (fun _ w => only_unmuted anim (w_scene w)).
Proof.
  apply emits_quiet_post; [apply quiet_mute_and_unmute|].
  intros w [] w' (ts & Hts & Hmuted) Hrun. unfold mute_and_unmute in Hrun.
  cbn [zip3] in Hrun. apply mute_and_unmute_entries_done_iff in Hrun as [Hok ->].
  apply Forall_cons in Hok as [Hok _]. rewrite w_scene_upd.
  unfold entries_eff. cbn [fold_left].
  now apply (only_unmuted_after_unmute anim ts); [| |apply same_names_refl|].
Qed.

Lemma emits_reset_tracks_rig base_path animal_name :
  emits (render_ok base_path animal_name) (fun _ => True)
        (reset_tracks ["rig"]) (fun _ w => all_muted "rig" (w_scene w)).
Proof.
  apply emits_quiet_post; [apply quiet_reset_tracks|].
  intros w [] w' _ Hrun. apply reset_tracks_done_iff in Hrun as [Hall ->].
  destruct (reset_tracks_post ["rig"] w "rig" Hall (list_elem_of_here _ _))
    as (ts & Hts & Hmuted & _).
  now exists ts.
Qed.

Lemma range_step2 start stop : exists frames, Py.range start stop 2 = Some frames.
Proof. unfold Py.range. simpl. eauto. Qed.

Lemma emits_write_animations2 base_path animal_name anim start_frame end_frame :
  anim ∈ animation_list ->
  emits (render_ok base_path animal_name)
        (fun w => only_unmuted anim (w_scene w))
        (write_animations2 (anim_prefix base_path animal_name anim) 2 start_frame end_frame)
        (fun _ _ => True).
Proof.
  intros Hanim w Honly. destruct (range_step2 start_frame (end_frame + 1)) as [frames Hr].
  rewrite (write_animations2_run _ _ _ _ _ frames Hr). cbn [fst snd].
  eexists. split; [reflexivity|]. split; [|auto]. clear Hr.
  induction frames as [|f frames IH]; cbn [flat_map]; [constructor|].
  apply Forall_app. split; [|exact IH].
  unfold shot_trace.
  apply Forall_cons; split; [exact Logic.I|].
  apply Forall_cons; split; [exact Logic.I|].
  apply Forall_cons; split; [|constructor]. split.
  - now apply (only_unmuted_at_most_one anim).
  - exists anim. split; [assumption|]. split; [reflexivity|].
    intros a Ha Hne. apply (anim_unmuted_only anim); [exact Honly|assumption|].
    unfold animation_list in Ha. apply elem_of_cons in Ha as [->|Ha]; [discriminate|].
    apply list_elem_of_singleton in Ha as ->. discriminate.
Qed.

Lemma emits_run_animation base_path animal_name objs start_frame anim :
  anim ∈ animation_list ->
  objs = None \/ objs = Some ["rig"] ->
  emits (render_ok base_path animal_name) (fun _ => True)
        (run_animation animal_name base_path objs [] start_frame anim)
        (fun _ _ => True).
Proof.
  intros Hanim Hobjs. unfold run_animation. cbv zeta.
  eapply emits_bind; [apply emits_quiet, quiet_read_frame_end|]. intros end_frame.
  eapply emits_bind; [apply emits_quiet, quiet_hide_objects|]. intros ?; cbv beta.
  destruct Hobjs as [-> | ->]; cbn [read_local].
  { eapply emits_bind with (Q := fun _ _ => False); [apply emits_raise|].
    intros o w []. }
  eapply emits_bind with (Q := fun (o : list string) _ => o = ["rig"]).
  { apply emits_quiet_post; [apply quiet_ret|].
    intros w r w' _ [= <- <-]. reflexivity. }
  intros o.
  eapply emits_bind with (Q := fun _ w => all_muted "rig" (w_scene w)).
  { intros w ->. now apply emits_reset_tracks_rig. }
  intros ?; cbv beta. clear o.
  eapply emits_bind with (Q := fun o' w => o' = ["rig"] /\ all_muted "rig" (w_scene w)).
  { apply emits_quiet_post; [apply quiet_ret|].
    intros w r w' Hall [= <- <-]. auto. }
  intros o.
  eapply emits_bind with (Q := fun _ w => only_unmuted anim (w_scene w)).
  { intros w [-> Hall]. apply emits_mute_and_unmute_rig. exact Hall. }
  intros ?; cbv beta.
  eapply emits_bind with (Q := fun _ w => only_unmuted anim (w_scene w)).
  { apply emits_quiet_post; [apply quiet_path_exists|].
    intros w r w' H [= _ <-]. exact H. }
  intros ex.
  eapply emits_bind with (Q := fun _ w => only_unmuted anim (w_scene w)).
  { apply emits_quiet_post.
    - destruct (negb ex); [apply quiet_makedirs|apply quiet_ret].
    - intros w r w' H Hrun. destruct (negb ex); injection Hrun as _ <-; exact H. }
  intros ?; cbv beta. now apply emits_write_animations2.
Qed.

Lemma render_ok_renders base_path animal_name evs :
  Forall (render_ok base_path animal_name) evs ->
  Forall (fun sc => at_most_one_unmuted sc
                    /\ exists anim, render_of base_path animal_name anim sc)
         (renders evs).
Proof.
  induction evs as [|e evs IH]; intros H; [constructor|].
  apply Forall_cons in H as [He H]. destruct e; simpl; auto.
Qed.

(** C7: at every render of a run of [run_case], at most one animation of
    the animation list has an unmuted track on the rig: the render writes a
    frame of some animation [anim] of the list, into the directory of
    [anim], and no other animation of the list is unmuted then.  This holds
    for every subject name and every starting world, also when the run
    stops on an exception.  And in every entry of [mute_and_unmute] the
    writes of the mute pass come before the writes of the unmute pass. *)
Theorem run_case_one_animation_unmuted (animal_name : string) (w : world) :
  (exists evs,
     w_trace (run_case animal_name w).2 = w_trace w ++ evs
     /\ Forall (fun sc =>
                  at_most_one_unmuted sc
                  /\ exists anim,
                       render_of (Py.path_join (w_blend_dir w) "renders" +:+ Py.sep)
                                 animal_name anim sc)
               (renders evs))
  /\ forall objs tracks_to_mute tracks_to_unmute w0 w',
       mute_and_unmute objs tracks_to_mute tracks_to_unmute w0 = (Done tt, w') ->
       w_trace w' = w_trace w0 ++
         flat_map (fun e =>
                     pass_trace (w_scene w0) true e.1.1 (arg_names e.1.2)
                     ++ pass_trace (w_scene w0) false e.1.1 (arg_names e.2))
                  (zip3 objs tracks_to_mute tracks_to_unmute).
Proof.
  split.
  2:{ intros objs tm tu w0 w' Hrun. unfold mute_and_unmute in Hrun.
      now apply mute_and_unmute_entries_done_iff in Hrun as [_ ->]. }
  set (base_path := Py.path_join (w_blend_dir w) "renders" +:+ Py.sep).
  assert (H : emits (render_ok base_path animal_name) (fun _ => True)
                (hide_objects ["visibleground"] true ;;;
                 hide_objects ["ShadowPlane"] false ;;;
                 objs <- case_selector animal_name None ;;
                 for_each animation_list
                   (run_animation animal_name base_path objs [] 1))
                (fun _ _ => True)).
  { eapply emits_bind; [apply emits_quiet, quiet_hide_objects|]. intros ?; cbv beta.
    eapply emits_bind; [apply emits_quiet, quiet_hide_objects|]. intros ?; cbv beta.
    eapply emits_bind with (Q := fun objs _ => objs = None \/ objs = Some ["rig"]).
    { apply emits_quiet_post; [apply quiet_case_selector|].
      intros w0 objs w' _. unfold case_selector.
      destruct (String.eqb animal_name "squirrel").
      - intros [= <- _]. now right.
      - intros [= <- _]. now left. }
    intros objs w0 Hobjs.
    apply (emits_for_each _ (fun _ => True)); [|exact Logic.I].
    intros anim Hanim. now apply emits_run_animation. }
  destruct (H w Logic.I) as (evs & Ht & HF & _).
  exists evs. split; [exact Ht|]. now apply render_ok_renders.
Qed.

Lemma run_case_one_animation_unmuted_witness :
  w_trace (mute_and_unmute ["rig"] [Names ["reset"]] [Names ["Walk"; "Rotation"]]
             Sample.w0).2
  = [ESetMute "rig" 1 true; ESetMute "rig" 2 false; ESetMute "rig" 3 false].
Proof.
  refine (eq_trans
    (proj2 (run_case_one_animation_unmuted "squirrel" Sample.w0)
       ["rig"] [Names ["reset"]] [Names ["Walk"; "Rotation"]] Sample.w0 _ _) _).
  - vm_compute. reflexivity.
  - vm_compute. reflexivity.
Defined.

(** ** The run for ["squirrel"] *)

Lemma same_names_hide_eff b x sc : same_names sc (hide_eff b x sc).
Proof. intros y. now rewrite lookup_tracks_hide_eff. Qed.

Lemma same_names_reset_tracks_eff objs sc : same_names sc (reset_tracks_eff objs sc).
Proof.
  intros y. rewrite lookup_tracks_reset_tracks_eff. case_decide; [|reflexivity].
  destruct (lookup_tracks sc y); simpl; [now rewrite mute_all_names|reflexivity].
Qed.

Lemma same_names_anim_scene anim sc : same_names sc (anim_scene anim sc).
Proof.
  unfold anim_scene.
  eapply same_names_trans; [apply same_names_hide_eff|].
  eapply same_names_trans; [apply same_names_reset_tracks_eff|].
  apply same_names_entries_eff.
Qed.

Lemma objects_map_tracks_is_Some g x y sc :
  is_Some (objects (map_tracks g x sc) !! y) <-> is_Some (objects sc !! y).
Proof. unfold map_tracks, alter_object; simpl. apply lookup_alter_is_Some. Qed.

Lemma hidden_flags_reset_tracks_eff objs sc y :
  hidden_flags (reset_tracks_eff objs sc) y = hidden_flags sc y.
Proof.
  unfold reset_tracks_eff. revert sc. induction objs as [|x objs IH]; intros sc; simpl.
  - reflexivity.
  - rewrite IH. unfold reset_entry_eff.
    change (hidden_flags (set_frame_current 1 ?s) y) with (hidden_flags s y).
    apply hidden_flags_map_tracks.
Qed.

Lemma hidden_flags_entries_eff sc0 es sc y :
  hidden_flags (entries_eff sc0 es sc) y = hidden_flags sc y.
Proof.
  unfold entries_eff. revert sc. induction es as [|e es IH]; intros sc; simpl.
  - reflexivity.
  - rewrite IH. unfold entry_eff, pass_eff. now rewrite !hidden_flags_map_tracks.
Qed.

Lemma hidden_flags_anim_scene anim sc y :
  hidden_flags (anim_scene anim sc) y = hidden_flags (hide_eff false "ShadowPlane" sc) y.
Proof.
  unfold anim_scene. now rewrite hidden_flags_entries_eff, hidden_flags_reset_tracks_eff.
Qed.

Lemma hidden_flags_is_Some sc y : is_Some (hidden_flags sc y) <-> is_Some (objects sc !! y).
Proof. unfold hidden_flags. apply fmap_is_Some. Qed.

Lemma frame_end_reset_tracks_eff objs sc :
  frame_end (reset_tracks_eff objs sc) = frame_end sc.
Proof.
  unfold reset_tracks_eff. revert sc. induction objs as [|x objs IH]; intros sc; simpl;
    [reflexivity|now rewrite IH].
Qed.

Lemma frame_end_entries_eff sc0 es sc : frame_end (entries_eff sc0 es sc) = frame_end sc.
Proof.
  unfold entries_eff. revert sc. induction es as [|e es IH]; intros sc; simpl;
    [reflexivity|now rewrite IH].
Qed.

Lemma frame_end_anim_scene anim sc : frame_end (anim_scene anim sc) = frame_end sc.
Proof.
  unfold anim_scene. now rewrite frame_end_entries_eff, frame_end_reset_tracks_eff.
Qed.

(** The render loop only moves the current frame and the file path. *)
Lemma fold_shot_objects p frames sc :
  objects (fold_left (shot p) frames sc) = objects sc
  /\ frame_end (fold_left (shot p) frames sc) = frame_end sc.
Proof.
  revert sc. induction frames as [|f frames IH]; intros sc; simpl; [auto|].
  destruct (IH (shot p sc f)) as [-> ->]. auto.
Qed.

Lemma fold_shot_lookup_tracks p frames sc y :
  lookup_tracks (fold_left (shot p) frames sc) y = lookup_tracks sc y.
Proof. unfold lookup_tracks. now rewrite (proj1 (fold_shot_objects p frames sc)). Qed.

Lemma fold_shot_hidden_flags p frames sc y :
  hidden_flags (fold_left (shot p) frames sc) y = hidden_flags sc y.
Proof. unfold hidden_flags. now rewrite (proj1 (fold_shot_objects p frames sc)). Qed.

Lemma same_names_fold_shot p frames sc : same_names sc (fold_left (shot p) frames sc).
Proof. intros y. now rewrite fold_shot_lookup_tracks. Qed.

Lemma run_animation_done animal_name base_path anim frames w :
  is_Some (objects (w_scene w) !! "ShadowPlane") ->
  has_track (w_scene w) "rig" "reset" ->
  has_track (w_scene w) "rig" anim ->
  has_track (w_scene w) "rig" "Rotation" ->
  Py.range 1 (frame_end (w_scene w) + 1) 2 = Some frames ->
  exists w',
    run_animation animal_name base_path (Some ["rig"]) [] 1 anim w = (Done tt, w')
    /\ renders (w_trace w')
       = renders (w_trace w)
         ++ map (shot (anim_prefix base_path animal_name anim)
                      (anim_scene anim (w_scene w))) frames
    /\ w_scene w'
       = fold_left (shot (anim_prefix base_path animal_name anim)) frames
                   (anim_scene anim (w_scene w))
    /\ w_blend_dir w' = w_blend_dir w.
Proof.
  intros [sp Hsp] Hreset Hanim Hrot Hrange.
  unfold run_animation. cbv zeta.
  erewrite bind_done by reflexivity.
  erewrite bind_done by (rewrite hide_objects_single_run, Hsp; reflexivity).
  erewrite bind_done by reflexivity.
  set (sc1 := hide_eff false "ShadowPlane" (w_scene w)).
  assert (Hsn1 : same_names (w_scene w) sc1) by apply same_names_hide_eff.
  erewrite bind_done.
  2:{ apply reset_tracks_done_iff. split; [|reflexivity].
      apply Forall_cons. split; [|constructor]. rewrite w_scene_upd.
      apply (same_names_has_track _ _ "rig" "reset" Hsn1). exact Hreset. }
  rewrite upd_upd.
  erewrite bind_done by reflexivity.
  set (sc2 := reset_tracks_eff ["rig"] sc1).
  assert (Hsn2 : same_names (w_scene w) sc2).
  { eapply same_names_trans; [exact Hsn1|apply same_names_reset_tracks_eff]. }
  erewrite bind_done.
  2:{ unfold mute_and_unmute. cbn [zip3]. apply mute_and_unmute_entries_done_iff.
      split; [|reflexivity]. rewrite w_scene_upd. fold sc1. fold sc2.
      apply Forall_cons. split; [|constructor]. split; cbn [fst snd arg_names].
      - constructor.
      - apply Forall_cons. split; [|apply Forall_cons; split; [|constructor]].
        + now apply (same_names_has_track _ _ "rig" anim Hsn2).
        + now apply (same_names_has_track _ _ "rig" "Rotation" Hsn2). }
  rewrite w_scene_upd, upd_upd. fold sc1. fold sc2.
  erewrite bind_done by reflexivity.
  destruct (negb (bool_decide _)).
  - erewrite bind_done by reflexivity.
    rewrite (write_animations2_run _ _ _ _ _ frames Hrange).
    eexists. split; [reflexivity|]. cbn [w_trace w_scene upd emit with_scene makedirs
      add_dir w_blend_dir]. split; [|split; reflexivity].
    rewrite !renders_app, renders_shots. rewrite <- !app_assoc.
    f_equal. unfold pass_trace, hide_trace, reset_tracks_trace, entry_trace, pass_trace.
    cbn [flat_map map app arg_names fst snd renders omap].
    rewrite !renders_app. unfold reset_entry_trace. rewrite !renders_app.
    unfold mute_all_trace.
    assert (Hq : forall n, renders (map (fun i => ESetMute "rig" i true) (seq 0 n)) = []).
    { intros n. generalize 0%nat. induction n as [|n IH]; intros k; simpl; auto. }
    rewrite !Hq. reflexivity.
  - erewrite bind_done by reflexivity.
    rewrite (write_animations2_run _ _ _ _ _ frames Hrange).
    eexists. split; [reflexivity|]. cbn [w_trace w_scene upd emit with_scene
      w_blend_dir]. split; [|split; reflexivity].
    rewrite !renders_app, renders_shots. rewrite <- !app_assoc.
    f_equal. unfold pass_trace, hide_trace, reset_tracks_trace, entry_trace, pass_trace.
    cbn [flat_map map app arg_names fst snd renders omap].
    rewrite !renders_app. unfold reset_entry_trace. rewrite !renders_app.
    unfold mute_all_trace.
    assert (Hq : forall n, renders (map (fun i => ESetMute "rig" i true) (seq 0 n)) = []).
    { intros n. generalize 0%nat. induction n as [|n IH]; intros k; simpl; auto. }
    rewrite !Hq. reflexivity.
Qed.

(** *** Paths *)

Lemma append_nonempty a b : b <> "" -> a +:+ b <> "".
Proof. destruct a; [now rewrite append_nil_l|rewrite append_cons; discriminate]. Qed.

Lemma endswith_sep_app a b : b <> "" -> Py.endswith_sep (a +:+ b) = Py.endswith_sep b.
Proof.
  intros Hb. induction a as [|c a IH]; [now rewrite append_nil_l|].
  rewrite append_cons. cbn [Py.endswith_sep].
  destruct (a +:+ b) eqn:E; [|exact IH].
  now apply append_nonempty in E.
Qed.

Lemma path_join_append a t b :
  t <> "" -> Py.endswith_sep t = false -> Py.startswith_sep b = false ->
  Py.path_join (a +:+ t) b = a +:+ (t +:+ ("/" +:+ b)).
Proof.
  intros Ht Hend Hstart. unfold Py.path_join. rewrite Hstart.
  rewrite endswith_sep_app, Hend by assumption.
  destruct (String.eqb_spec (a +:+ t) "") as [E|_].
  - now apply append_nonempty in E.
  - unfold Py.sep. simpl orb. cbv iota. now rewrite app_assoc_str.
Qed.

Lemma anim_prefix_idle1 root :
  anim_prefix (root +:+ Py.sep) "squirrel" "Idle1" = root +:+ "/squirrel/Idle1/Idle1".
Proof.
  unfold anim_prefix, Py.sep. rewrite app_assoc_str.
  change ("/" +:+ "squirrel") with "/squirrel".
  rewrite path_join_append by (reflexivity || discriminate).
  change ("/squirrel" +:+ "/" +:+ "Idle1") with "/squirrel/Idle1".
  now rewrite path_join_append by (reflexivity || discriminate).
Qed.

Lemma anim_prefix_walk root :
  anim_prefix (root +:+ Py.sep) "squirrel" "Walk" = root +:+ "/squirrel/Walk/Walk".
Proof.
  unfold anim_prefix, Py.sep. rewrite app_assoc_str.
  change ("/" +:+ "squirrel") with "/squirrel".
  rewrite path_join_append by (reflexivity || discriminate).
  change ("/squirrel" +:+ "/" +:+ "Walk") with "/squirrel/Walk".
  now rewrite path_join_append by (reflexivity || discriminate).
Qed.

Lemma squirrel_frames_range : Py.range 1 (160 + 1) 2 = Some squirrel_frames.
Proof. vm_compute. reflexivity. Qed.

Lemma squirrel_frames_bounds f : f ∈ squirrel_frames -> 0 <= f <= 999.
Proof.
  unfold squirrel_frames. intros (k & -> & Hk)%list_elem_of_fmap.
  apply elem_of_seq in Hk. lia.
Qed.

Lemma anim_ready_next p frames anim sc :
  anim_ready sc -> anim_ready (fold_left (shot p) frames (anim_scene anim sc)).
Proof.
  intros (Hsp & Hreset & Hidle & Hwalk & Hrot & Hend).
  assert (Hsn : same_names sc (fold_left (shot p) frames (anim_scene anim sc))).
  { eapply same_names_trans; [apply same_names_anim_scene|apply same_names_fold_shot]. }
  repeat split; try (now apply (same_names_has_track _ _ "rig" _ Hsn)).
  - apply hidden_flags_is_Some.
    rewrite fold_shot_hidden_flags, hidden_flags_anim_scene.
    apply hidden_flags_is_Some, objects_hide_eff_is_Some, Hsp.
  - now rewrite (proj2 (fold_shot_objects _ _ _)), frame_end_anim_scene.
Qed.

Lemma shots_frames_paths p sc frames :
  map (fun s => (frame_current s, render_filepath s)) (map (shot p sc) frames)
  = map (fun f => (f, frame_filename p f)) frames.
Proof. rewrite map_map. reflexivity. Qed.

Lemma squirrel_shots_paths p :
  map (fun f => (f, frame_filename p f)) squirrel_frames
  = map (fun k : nat =>
           let f := 2 * Z.of_nat k + 1 in
           (f, p +:+ "_" +:+ pad3 f +:+ ".png")) (seq 0 80).
Proof.
  unfold squirrel_frames. rewrite map_map. apply map_ext_in. intros k Hk.
  apply in_seq in Hk. cbv zeta. f_equal.
  rewrite frame_filename_pad3 by lia. apply app_assoc_str.
Qed.

Example pad3_samples : (pad3 1, pad3 3, pad3 157, pad3 159) = ("001", "003", "157", "159").
Proof. reflexivity. Qed.

Lemma squirrel_paths root anim_path :
  map (fun k : nat =>
         let f := 2 * Z.of_nat k + 1 in
         (f, (root +:+ anim_path) +:+ "_" +:+ pad3 f +:+ ".png")) (seq 0 80)
  = map (fun k : nat =>
           let f := 2 * Z.of_nat k + 1 in
           (f, root +:+ (anim_path +:+ "_") +:+ pad3 f +:+ ".png")) (seq 0 80).
Proof.
  apply map_ext. intros k. cbv zeta. f_equal.
  rewrite app_assoc_str. f_equal. now rewrite <- app_assoc_str.
Qed.

(** C1: on a scene that has the objects and tracks the script names,
    [run_case("squirrel")] returns; its renders are those of ["Idle1"]
    followed by those of ["Walk"]; the renders of ["Idle1"] are the 80
    frames 1, 3, ..., 159 in increasing order, written to
    [renders/squirrel/Idle1/Idle1_001.png] ... [Idle1_159.png] under the
    directory of the scene file, and at each of them ["visibleground"] has
    both hidden flags set and ["ShadowPlane"] has both cleared. *)
Theorem run_case_squirrel_renders (w : world) :
  squirrel_scene (w_scene w) ->
  let root := Py.path_join (w_blend_dir w) "renders" in
  exists w' idle walk,
    run_case "squirrel" w = (Done tt, w')
    /\ renders (w_trace w') = renders (w_trace w) ++ idle ++ walk
    /\ length idle = 80%nat
    /\ map (fun s => (frame_current s, render_filepath s)) idle
       = map (fun k : nat =>
                let f := 2 * Z.of_nat k + 1 in
                (f, root +:+ "/squirrel/Idle1/Idle1_" +:+ pad3 f +:+ ".png")) (seq 0 80)
    /\ Forall (fun s => hidden_flags s "visibleground" = Some (true, true)
                        /\ hidden_flags s "ShadowPlane" = Some (false, false)) idle
    /\ map (fun s => (frame_current s, render_filepath s)) walk
       = map (fun k : nat =>
                let f := 2 * Z.of_nat k + 1 in
                (f, root +:+ "/squirrel/Walk/Walk_" +:+ pad3 f +:+ ".png")) (seq 0 80).
Proof.
  intros (Hvg & Hsp & Hreset & Hidle & Hwalk & Hrot) root.
  destruct Hvg as [vg Hvg]. destruct Hsp as [sp Hsp].
  unfold run_case.
  erewrite bind_done by reflexivity. fold root.
  erewrite bind_done by (rewrite hide_objects_single_run, Hvg; reflexivity).
  erewrite bind_done.
  2:{ rewrite hide_objects_single_run, w_scene_upd.
      rewrite objects_hide_eff_ne, Hsp by discriminate. reflexivity. }
  rewrite upd_upd.
  erewrite bind_done by reflexivity.
  change (emit ?evs (with_scene ?g (upd ?f ?evs0 ?v)))
    with (upd g evs (upd f evs0 v)).
  rewrite upd_upd.
  set (sc3 := set_frame_end 160
                (hide_eff false "ShadowPlane" (hide_eff true "visibleground" (w_scene w)))).
  set (w3 := upd _ _ w).
  assert (Hsc3 : w_scene w3 = sc3) by reflexivity.
  assert (Hsn3 : same_names (w_scene w) sc3).
  { eapply same_names_trans; [apply (same_names_hide_eff true "visibleground")|].
    apply (same_names_hide_eff false "ShadowPlane"). }
  assert (Hready : anim_ready sc3).
  { repeat split; try (now apply (same_names_has_track _ _ "rig" _ Hsn3)).
    apply (objects_hide_eff_is_Some false "ShadowPlane").
    rewrite objects_hide_eff_ne, Hsp by discriminate. eauto. }
  unfold animation_list. cbn [for_each].
  (* Idle1 *)
  destruct Hready as (R1 & R2 & R3 & R4 & R5 & R6).
  destruct (run_animation_done "squirrel" (root +:+ Py.sep) "Idle1" squirrel_frames w3)
    as (w4 & Hrun4 & Hren4 & Hsc4 & Hdir4); rewrite ?Hsc3; try assumption.
  { rewrite R6. apply squirrel_frames_range. }
  erewrite bind_done by exact Hrun4.
  (* Walk *)
  assert (Hready4 : anim_ready (w_scene w4)).
  { rewrite Hsc4, Hsc3. apply anim_ready_next. repeat split; assumption. }
  destruct Hready4 as (S1 & S2 & S3 & S4 & S5 & S6).
  destruct (run_animation_done "squirrel" (root +:+ Py.sep) "Walk" squirrel_frames w4)
    as (w5 & Hrun5 & Hren5 & Hsc5 & Hdir5); try assumption.
  { rewrite S6. apply squirrel_frames_range. }
  erewrite bind_done by exact Hrun5.
  eexists w5, _, _. split; [reflexivity|]. split.
  { rewrite Hren5, Hren4. rewrite <- app_assoc. f_equal.
    unfold w3. rewrite w_trace_upd, renders_app. rewrite <- app_nil_r. f_equal. }
  split; [now rewrite length_map|].
  split; [|split].
  - rewrite shots_frames_paths, squirrel_shots_paths, anim_prefix_idle1.
    apply squirrel_paths.
  - apply Forall_forall. intros s (f & -> & _)%list_elem_of_fmap.
    change (hidden_flags (shot ?p ?sc f)) with (hidden_flags sc).
    rewrite Hsc3, !hidden_flags_anim_scene.
    change (hidden_flags (hide_eff false "ShadowPlane" sc3))
      with (hidden_flags (hide_eff false "ShadowPlane"
              (hide_eff false "ShadowPlane" (hide_eff true "visibleground" (w_scene w))))).
    rewrite !hidden_flags_hide_eff.
    rewrite !(decide_False (P := "ShadowPlane" = "visibleground")) by discriminate.
    rewrite !(decide_True (P := "visibleground" = "visibleground")) by reflexivity.
    rewrite !(decide_True (P := "ShadowPlane" = "ShadowPlane")) by reflexivity.
    rewrite !(decide_False (P := "visibleground" = "ShadowPlane")) by discriminate.
    rewrite (hidden_flags_Some _ _ _ Hvg), (hidden_flags_Some _ _ _ Hsp). auto.
  - rewrite shots_frames_paths, squirrel_shots_paths, anim_prefix_walk.
    apply squirrel_paths.
Qed.

Lemma run_case_squirrel_renders_witness :
  exists w' idle walk,
    run_case "squirrel" Sample.w0 = (Done tt, w')
    /\ renders (w_trace w') = renders (w_trace Sample.w0) ++ idle ++ walk
    /\ length idle = 80%nat
    /\ map (fun s => (frame_current s, render_filepath s)) idle
       = map (fun k : nat =>
                let f := 2 * Z.of_nat k + 1 in
                (f, Py.path_join (w_blend_dir Sample.w0) "renders"
                    +:+ "/squirrel/Idle1/Idle1_" +:+ pad3 f +:+ ".png")) (seq 0 80)
    /\ Forall (fun s => hidden_flags s "visibleground" = Some (true, true)
                        /\ hidden_flags s "ShadowPlane" = Some (false, false)) idle
    /\ map (fun s => (frame_current s, render_filepath s)) walk
       = map (fun k : nat =>
                let f := 2 * Z.of_nat k + 1 in
                (f, Py.path_join (w_blend_dir Sample.w0) "renders"
                    +:+ "/squirrel/Walk/Walk_" +:+ pad3 f +:+ ".png")) (seq 0 80).
Proof.
  apply (run_case_squirrel_renders Sample.w0).
  unfold squirrel_scene, has_track.
  repeat split; try (eexists; vm_compute; reflexivity);
    eexists _, _; split; vm_compute; reflexivity.
Defined.

(** The first and the last render of ["Idle1"] on the sample scene. *)
Example sample_idle1_first_last :
  let rs := renders (w_trace (run_case "squirrel" Sample.w0).2) in
  (length rs = 160%nat)
  /\ (render_filepath <$> rs !! 0%nat)
     = Some "/home/user/squirrel/renders/squirrel/Idle1/Idle1_001.png"
  /\ (render_filepath <$> rs !! 79%nat)
     = Some "/home/user/squirrel/renders/squirrel/Idle1/Idle1_159.png"
  /\ (render_filepath <$> rs !! 80%nat)
     = Some "/home/user/squirrel/renders/squirrel/Walk/Walk_001.png".
Proof. vm_compute. repeat split. Qed.

(** ** [mute_tracks] on arbitrary handles *)

Lemma mute_tracks_refs_run refs b w :
  mute_tracks refs b w = (Done tt, upd (set_flags b refs) (set_flags_trace b refs) w).
Proof.
  unfold mute_tracks, set_flags, set_flags_trace. revert w.
  induction refs as [|[x i] refs IH]; intros w; cbn [for_each fold_left map].
  - unfold ret. now rewrite upd_id.
  - erewrite bind_done by apply write_mute_run. rewrite IH, upd_upd. reflexivity.
Qed.

Lemma track_flag_map_tracks_mute_at b x i sc r :
  track_flag (map_tracks (mute_at b i) x sc) r
  = if decide (r = (x, i)) then (fun _ => b) <$> track_flag sc r else track_flag sc r.
Proof.
  destruct r as [y j]. unfold track_flag. cbn [fst snd].
  rewrite lookup_tracks_map_tracks.
  destruct (decide (x = y)) as [->|Hxy].
  - destruct (lookup_tracks sc y) as [ts|]; cbn [fmap option_fmap option_map mbind option_bind].
    + unfold mute_at. rewrite list_lookup_alter.
      destruct (decide (i = j)) as [->|Hij].
      * rewrite decide_True by reflexivity. now destruct (ts !! j).
      * rewrite decide_False by congruence. reflexivity.
    + now case_decide.
  - rewrite decide_False by congruence. reflexivity.
Qed.

Lemma track_flag_set_flags b refs sc r :
  track_flag (set_flags b refs sc) r
  = if decide (r ∈ refs) then (fun _ => b) <$> track_flag sc r else track_flag sc r.
Proof.
  unfold set_flags. revert sc. induction refs as [|[x i] refs IH]; intros sc; cbn [fold_left].
  - destruct (decide (r ∈ [])) as [H|_]; [|reflexivity]. now apply not_elem_of_nil in H.
  - rewrite IH. cbn [fst snd]. rewrite track_flag_map_tracks_mute_at.
    repeat case_decide; subst; try reflexivity;
      try (now destruct (track_flag sc _)); exfalso;
      match goal with
      | H : ¬ _ ∈ _ :: _ |- _ =>
          apply H; first [apply list_elem_of_here | now apply list_elem_of_further]
      | H : _ ∈ _ :: _ |- _ => apply elem_of_cons in H as [?|?]; congruence
      end.
Qed.

Lemma hidden_flags_set_flags b refs sc y :
  hidden_flags (set_flags b refs sc) y = hidden_flags sc y.
Proof.
  unfold set_flags. revert sc. induction refs as [|[x i] refs IH]; intros sc; cbn [fold_left].
  - reflexivity.
  - now rewrite IH, hidden_flags_map_tracks.
Qed.

Lemma same_names_set_flags b refs sc : same_names sc (set_flags b refs sc).
Proof.
  unfold set_flags. revert sc. induction refs as [|[x i] refs IH]; intros sc; cbn [fold_left].
  - apply same_names_refl.
  - eapply same_names_trans; [|apply IH].
    apply same_names_map_tracks. apply mute_at_names.
Qed.

Lemma set_flags_frames b refs sc :
  frame_current (set_flags b refs sc) = frame_current sc
  /\ frame_end (set_flags b refs sc) = frame_end sc
  /\ render_filepath (set_flags b refs sc) = render_filepath sc.
Proof.
  unfold set_flags. revert sc. induction refs as [|[x i] refs IH]; intros sc; cbn [fold_left].
  - auto.
  - destruct (IH (map_tracks (mute_at b i) x sc)) as (E1 & E2 & E3).
    split; [exact E1|]. split; [exact E2|exact E3].
Qed.

(** X1: [mute_tracks] always returns.  Afterwards every track of the list
    has the given mute flag and every other track has the flag it had; the
    visibility flags of all objects, the track names, the current frame,
    the frame range end and the render path are as before, and one write
    per listed handle, in order, is all that was done. *)
Theorem mute_tracks_sets_listed_only (tracks : list track_ref) (mute : bool) (w : world) :
  exists w',
    mute_tracks tracks mute w = (Done tt, w')
    /\ (forall r, track_flag (w_scene w') r
                  = if decide (r ∈ tracks) then (fun _ => mute) <$> track_flag (w_scene w) r
                    else track_flag (w_scene w) r)
    /\ (forall y, hidden_flags (w_scene w') y = hidden_flags (w_scene w) y)
    /\ same_names (w_scene w) (w_scene w')
    /\ frame_current (w_scene w') = frame_current (w_scene w)
    /\ frame_end (w_scene w') = frame_end (w_scene w)
    /\ render_filepath (w_scene w') = render_filepath (w_scene w)
    /\ w_dirs w' = w_dirs w
    /\ w_trace w' = w_trace w ++ map (fun r => ESetMute r.1 r.2 mute) tracks.
Proof.
  eexists. split; [apply mute_tracks_refs_run|].
  rewrite w_scene_upd.
  destruct (set_flags_frames mute tracks (w_scene w)) as (H1 & H2 & H3).
  repeat split; try assumption.
  - intros r. apply track_flag_set_flags.
  - intros y. apply hidden_flags_set_flags.
  - apply same_names_set_flags.
Qed.

(** ** [write_animations] *)

Lemma renders_set_flags_trace b refs : renders (set_flags_trace b refs) = [].
Proof. induction refs as [|r refs IH]; [reflexivity|exact IH]. Qed.

Lemma wa_body_run tm tu p f w :
  (mute_tracks tm true ;;;
   mute_tracks tu false ;;;
   render_frame f ((p +:+ Py.zfill 3 (Py.str f)) +:+ ".png")) w
  = (Done tt,
     upd (fun sc => wa_shot tm tu p sc f)
         (set_flags_trace true tm ++ set_flags_trace false tu
          ++ [EFrameSet f; ESetFilepath (plain_filename p f);
              ERender (wa_shot tm tu p (w_scene w) f)]) w).
Proof.
  erewrite bind_done by apply mute_tracks_refs_run.
  erewrite bind_done by apply mute_tracks_refs_run.
  rewrite render_frame_run, !upd_upd. reflexivity.
Qed.

Lemma wa_loop_run tm tu p frames w :
  for_each frames (fun frame =>
    mute_tracks tm true ;;;
    mute_tracks tu false ;;;
    render_frame frame ((p +:+ Py.zfill 3 (Py.str frame)) +:+ ".png")) w
  = (Done tt,
     upd (fun sc => fold_left (wa_shot tm tu p) frames sc)
         (wa_trace tm tu p (w_scene w) frames) w).
Proof.
  revert w. induction frames as [|f frames IH]; intros w; cbn [for_each].
  - unfold ret. now rewrite upd_id.
  - erewrite bind_done by apply wa_body_run. rewrite IH, upd_upd. reflexivity.
Qed.

Lemma renders_wa_trace tm tu p sc frames :
  renders (wa_trace tm tu p sc frames) = wa_shots tm tu p sc frames.
Proof.
  revert sc. induction frames as [|f frames IH]; intros sc; cbn [wa_trace wa_shots].
  - reflexivity.
  - rewrite !renders_app, !renders_set_flags_trace, IH. reflexivity.
Qed.

Lemma wa_shots_frames_paths tm tu p sc frames :
  map (fun s => (frame_current s, render_filepath s)) (wa_shots tm tu p sc frames)
  = map (fun f => (f, plain_filename p f)) frames.
Proof.
  revert sc. induction frames as [|f frames IH]; intros sc; cbn [wa_shots map].
  - reflexivity.
  - now rewrite IH.
Qed.

Lemma range_forward start stop step :
  1 <= step -> start < stop ->
  Py.range start stop step
  = Some (map (fun i : nat => start + Z.of_nat i * step)
              (seq 0 (Z.to_nat ((stop - start - 1) / step + 1)))).
Proof.
  intros Hstep Hlt. unfold Py.range. destruct (Z.eqb_spec step 0); [lia|].
  now rewrite range_len_forward by lia.
Qed.

Lemma track_flag_wa tm tu sc r :
  track_flag (set_flags false tu (set_flags true tm sc)) r
  = wa_flag tm tu r (track_flag sc r).
Proof.
  rewrite !track_flag_set_flags. unfold wa_flag.
  repeat case_decide; destruct (track_flag sc r); reflexivity.
Qed.

Lemma wa_flag_idem tm tu r o : wa_flag tm tu r (wa_flag tm tu r o) = wa_flag tm tu r o.
Proof. unfold wa_flag. repeat case_decide; destruct o; reflexivity. Qed.

Lemma wa_shots_flags tm tu p sc0 frames sc :
  (forall r, wa_flag tm tu r (track_flag sc r) = wa_flag tm tu r (track_flag sc0 r)) ->
  (forall y, hidden_flags sc y = hidden_flags sc0 y) ->
  Forall (fun s =>
            (forall r, track_flag s r = wa_flag tm tu r (track_flag sc0 r))
            /\ forall y, hidden_flags s y = hidden_flags sc0 y)
         (wa_shots tm tu p sc frames).
Proof.
  revert sc. induction frames as [|f frames IH]; intros sc Hsc Hhid; cbn [wa_shots].
  - constructor.
  - assert (Hflag : forall r, track_flag (wa_shot tm tu p sc f) r
                              = wa_flag tm tu r (track_flag sc0 r)).
    { intros r. rewrite <- Hsc. apply track_flag_wa. }
    assert (Hh : forall y, hidden_flags (wa_shot tm tu p sc f) y = hidden_flags sc0 y).
    { intros y. rewrite <- Hhid. unfold wa_shot.
      change (hidden_flags (set_render_filepath ?q (set_frame_current ?g ?s)) y)
        with (hidden_flags s y).
      now rewrite !hidden_flags_set_flags. }
    apply Forall_cons. split; [auto|]. apply IH; [|exact Hh].
    intros r. now rewrite Hflag, wa_flag_idem.
Qed.

(** X2: with [step >= 1] and [frame_start <= frame_end], [write_animations]
    returns after rendering the frames [frame_start + i * step] for
    [i = 0 .. floor((frame_end - frame_start) / step)], in that order, each
    to [output_path + str(frame).zfill(3) + ".png"]: the name has no
    underscore, unlike the one [write_animations2] builds. *)
Theorem write_animations_frames
    (frame_start : Z) (tracks_to_mute tracks_to_unmute : list track_ref)
    (output_path : string) (step : Z) (w : world) :
  1 <= step ->
  frame_start <= frame_end (w_scene w) ->
  exists w' evs,
    write_animations frame_start tracks_to_mute tracks_to_unmute output_path step w
    = (Done tt, w')
    /\ w_trace w' = w_trace w ++ evs
    /\ map (fun s => (frame_current s, render_filepath s)) (renders evs)
       = map (fun i : nat =>
                let f := frame_start + Z.of_nat i * step in
                (f, (output_path +:+ Py.zfill 3 (Py.str f)) +:+ ".png"))
             (seq 0 (Z.to_nat ((frame_end (w_scene w) - frame_start) / step + 1))).
Proof.
  intros Hstep Hle. unfold write_animations. cbv zeta.
  erewrite bind_done by reflexivity.
  rewrite range_forward by lia.
  replace (frame_end (w_scene w) + 1 - frame_start - 1)
    with (frame_end (w_scene w) - frame_start) by lia.
  rewrite wa_loop_run. eexists _, _. split; [reflexivity|]. split; [reflexivity|].
  rewrite renders_wa_trace, wa_shots_frames_paths, map_map. reflexivity.
Qed.

Lemma write_animations_frames_witness :
  exists w' evs,
    write_animations 1 [("rig", 1%nat)] [("rig", 0%nat)] "/r/Idle1/" 50 Sample.w0
    = (Done tt, w')
    /\ w_trace w' = w_trace Sample.w0 ++ evs
    /\ map (fun s => (frame_current s, render_filepath s)) (renders evs)
       = map (fun i : nat =>
                let f := 1 + Z.of_nat i * 50 in
                (f, ("/r/Idle1/" +:+ Py.zfill 3 (Py.str f)) +:+ ".png"))
             (seq 0 (Z.to_nat ((frame_end (w_scene Sample.w0) - 1) / 50 + 1))).
Proof.
  apply (write_animations_frames 1 [("rig", 1%nat)] [("rig", 0%nat)] "/r/Idle1/" 50
           Sample.w0).
  - lia.
  - vm_compute. discriminate.
Defined.

(** X3: at every render of [write_animations], whatever its arguments and
    the scene, every valid handle of [tracks_to_unmute] is unmuted, every
    valid handle of [tracks_to_mute] that is not also in [tracks_to_unmute]
    is muted, every other track has the flag it had before the call, and
    the visibility flags of all objects are as before the call. *)
Theorem write_animations_flags_at_renders
    (frame_start : Z) (tracks_to_mute tracks_to_unmute : list track_ref)
    (output_path : string) (step : Z) (w : world) :
  exists evs,
    w_trace (write_animations frame_start tracks_to_mute tracks_to_unmute
               output_path step w).2 = w_trace w ++ evs
    /\ Forall (fun s =>
                 (forall r, track_flag s r
                            = if decide (r ∈ tracks_to_unmute)
                              then (fun _ => false) <$> track_flag (w_scene w) r
                              else if decide (r ∈ tracks_to_mute)
                                   then (fun _ => true) <$> track_flag (w_scene w) r
                                   else track_flag (w_scene w) r)
                 /\ forall y, hidden_flags s y = hidden_flags (w_scene w) y)
              (renders evs).
Proof.
  unfold write_animations. cbv zeta. erewrite bind_done by reflexivity.
  destruct (Py.range frame_start (frame_end (w_scene w) + 1) step) as [frames|].
  - rewrite wa_loop_run. eexists. split; [reflexivity|].
    rewrite renders_wa_trace.
    apply (wa_shots_flags tracks_to_mute tracks_to_unmute output_path (w_scene w)); auto.
  - exists []. split; [now rewrite app_nil_r|constructor].
Qed.

(** ** More on [write_animations2] *)

Lemma range_forward_complete start stop step f :
  1 <= step -> start <= f < stop -> (f - start) mod step = 0 ->
  exists frames, Py.range start stop step = Some frames /\ f ∈ frames.
Proof.
  intros Hstep Hf Hmod. rewrite range_forward by lia. eexists. split; [reflexivity|].
  apply list_elem_of_fmap. exists (Z.to_nat ((f - start) / step)).
  assert (Hq : 0 <= (f - start) / step) by (apply Z.div_pos; lia).
  assert (Hdiv : f - start = step * ((f - start) / step)).
  { apply Z.div_exact; lia. }
  split.
  - rewrite Z2Nat.id by lia. lia.
  - apply elem_of_seq. split; [lia|].
    assert ((f - start) / step <= (stop - start - 1) / step)
      by (apply Z.div_le_mono; lia).
    lia.
Qed.

Lemma range_forward_sorted start step n :
  1 <= step ->
  StronglySorted Z.lt (map (fun i : nat => start + Z.of_nat i * step) (seq 0 n)).
Proof.
  intros Hstep. generalize 0%nat as k. induction n as [|n IH]; intros k; cbn [seq map].
  - constructor.
  - constructor; [apply IH|].
    apply Forall_forall. intros f (i & -> & Hi)%list_elem_of_fmap.
    apply elem_of_seq in Hi. nia.
Qed.

(** X4: [write_animations2] with a zero step raises [ValueError], and with
    [step >= 1] and [end_frame < start_frame] it returns; either way nothing
    was written: no frame set, no render, the world as it was. *)
Theorem write_animations2_no_frames
    (output_path : string) (step start_frame end_frame : Z) (w : world) :
  (step = 0 ->
   write_animations2 output_path step start_frame end_frame w = (Raised ValueError, w))
  /\ (1 <= step -> end_frame < start_frame ->
      write_animations2 output_path step start_frame end_frame w = (Done tt, w)).
Proof.
  split.
  - intros ->. reflexivity.
  - intros Hstep Hlt. unfold write_animations2, Py.range.
    destruct (Z.eqb_spec step 0); [lia|]. unfold Py.range_len.
    destruct (Z.ltb_spec 0 step); [|lia].
    destruct (Z.ltb_spec start_frame (end_frame + 1)); [lia|]. reflexivity.
Qed.

Lemma write_animations2_no_frames_witness :
  write_animations2 "/r/Walk/Walk" 0 1 160 Sample.w0 = (Raised ValueError, Sample.w0)
  /\ write_animations2 "/r/Walk/Walk" 2 5 4 Sample.w0 = (Done tt, Sample.w0).
Proof.
  split.
  - apply (proj1 (write_animations2_no_frames "/r/Walk/Walk" 0 1 160 Sample.w0)).
    reflexivity.
  - apply (proj2 (write_animations2_no_frames "/r/Walk/Walk" 2 5 4 Sample.w0)); lia.
Defined.

(** X5: with [step >= 1], [write_animations2] renders a frame [f] exactly
    when [start_frame <= f <= end_frame] and [f] is congruent to
    [start_frame] modulo [step]; it renders the frames in strictly
    increasing order, each to [output_path + "_" + str(f).zfill(3) + ".png"]. *)
Theorem write_animations2_sampling
    (output_path : string) (step start_frame end_frame : Z) (w : world) :
  1 <= step ->
  exists w' evs,
    write_animations2 output_path step start_frame end_frame w = (Done tt, w')
    /\ w_trace w' = w_trace w ++ evs
    /\ (forall f, f ∈ map frame_current (renders evs)
                  <-> start_frame <= f <= end_frame /\ (f - start_frame) mod step = 0)
    /\ StronglySorted Z.lt (map frame_current (renders evs))
    /\ Forall (fun s => render_filepath s
                        = ((output_path +:+ "_") +:+ Py.zfill 3 (Py.str (frame_current s)))
                          +:+ ".png")
              (renders evs).
Proof.
  intros Hstep.
  destruct (Py.range start_frame (end_frame + 1) step) as [frames|] eqn:Hrange.
  2:{ unfold Py.range in Hrange. destruct (Z.eqb_spec step 0); [lia|discriminate]. }
  eexists _, _. split; [apply (write_animations2_run _ _ _ _ _ frames Hrange)|].
  split; [reflexivity|]. rewrite renders_shots, map_map. cbn [frame_current shot
    set_render_filepath set_frame_current]. rewrite map_id.
  split; [|split].
  - intros f. split.
    + intros Hf. destruct (range_forward_elem _ _ _ _ _ Hstep Hrange Hf). lia.
    + intros [Hf Hmod].
      destruct (range_forward_complete start_frame (end_frame + 1) step f)
        as (frames' & Hr & Hin); try lia.
      rewrite Hrange in Hr. now injection Hr as <-.
  - unfold Py.range in Hrange. destruct (Z.eqb_spec step 0); [lia|].
    injection Hrange as <-. now apply range_forward_sorted.
  - apply Forall_forall. intros s (f & -> & _)%list_elem_of_fmap. reflexivity.
Qed.

Lemma write_animations2_sampling_witness :
  exists w' evs,
    write_animations2 "/r/Walk/Walk" 3 2 11 Sample.w0 = (Done tt, w')
    /\ w_trace w' = w_trace Sample.w0 ++ evs
    /\ (forall f, f ∈ map frame_current (renders evs)
                  <-> 2 <= f <= 11 /\ (f - 2) mod 3 = 0)
    /\ StronglySorted Z.lt (map frame_current (renders evs))
    /\ Forall (fun s => render_filepath s
                        = (("/r/Walk/Walk" +:+ "_") +:+ Py.zfill 3 (Py.str (frame_current s)))
                          +:+ ".png")
              (renders evs).
Proof.
  apply (write_animations2_sampling "/r/Walk/Walk" 3 2 11 Sample.w0). lia.
Defined.

Lemma fold_shot_last p frames f sc :
  frame_current (fold_left (shot p) (frames ++ [f]) sc) = f
  /\ render_filepath (fold_left (shot p) (frames ++ [f]) sc) = frame_filename p f.
Proof. rewrite fold_left_app. split; reflexivity. Qed.

(** X6: what [write_animations2] leaves behind.  With [step >= 1] and
    [start_frame <= end_frame] the current frame is the last sampled frame,
    [start_frame + floor((end_frame - start_frame) / step) * step], and the
    render path is that frame's file; the objects (visibility flags, tracks
    and mute flags), the scene's [frame_end] and the directories are
    untouched. *)
Theorem write_animations2_leaves
    (output_path : string) (step start_frame end_frame : Z) (w : world) :
  1 <= step ->
  start_frame <= end_frame ->
  exists w',
    write_animations2 output_path step start_frame end_frame w = (Done tt, w')
    /\ frame_current (w_scene w')
       = start_frame + (end_frame - start_frame) / step * step
    /\ render_filepath (w_scene w') = frame_filename output_path (frame_current (w_scene w'))
    /\ objects (w_scene w') = objects (w_scene w)
    /\ frame_end (w_scene w') = frame_end (w_scene w)
    /\ w_dirs w' = w_dirs w.
Proof.
  intros Hstep Hle.
  assert (Hq : 0 <= (end_frame - start_frame) / step) by (apply Z.div_pos; lia).
  pose proof (range_forward start_frame (end_frame + 1) step Hstep ltac:(lia)) as Hrange.
  replace (end_frame + 1 - start_frame - 1) with (end_frame - start_frame) in Hrange by lia.
  replace (Z.to_nat ((end_frame - start_frame) / step + 1))
    with (S (Z.to_nat ((end_frame - start_frame) / step))) in Hrange by lia.
  rewrite seq_S, map_app in Hrange. cbn [map plus] in Hrange.
  rewrite Z2Nat.id in Hrange by lia.
  eexists. split; [apply (write_animations2_run _ _ _ _ _ _ Hrange)|].
  rewrite w_scene_upd.
  destruct (fold_shot_last output_path
              (map (fun i : nat => start_frame + Z.of_nat i * step)
                   (seq 0 (Z.to_nat ((end_frame - start_frame) / step))))
              (start_frame + (end_frame - start_frame) / step * step) (w_scene w))
    as [Hf Hp].
  destruct (fold_shot_objects output_path
              (map (fun i : nat => start_frame + Z.of_nat i * step)
                   (seq 0 (Z.to_nat ((end_frame - start_frame) / step)))
               ++ [start_frame + (end_frame - start_frame) / step * step]) (w_scene w))
    as [Ho He].
  split; [exact Hf|]. split; [now rewrite Hp, Hf|]. split; [exact Ho|].
  split; [exact He|reflexivity].
Qed.

Lemma write_animations2_leaves_witness :
  exists w',
    write_animations2 "/r/Walk/Walk" 3 2 12 Sample.w0 = (Done tt, w')
    /\ frame_current (w_scene w') = 2 + (12 - 2) / 3 * 3
    /\ render_filepath (w_scene w') = frame_filename "/r/Walk/Walk" (frame_current (w_scene w'))
    /\ objects (w_scene w') = objects (w_scene Sample.w0)
    /\ frame_end (w_scene w') = frame_end (w_scene Sample.w0)
    /\ w_dirs w' = w_dirs Sample.w0.
Proof.
  apply (write_animations2_leaves "/r/Walk/Walk" 3 2 12 Sample.w0); lia.
Defined.

(** ** File names determine the frame *)

Lemma zeros_uint k d :
  NilEmpty.uint_of_string (Py.zeros k +:+ NilEmpty.string_of_uint d)
  = Some (Nat.iter k Decimal.D0 d).
Proof.
  induction k as [|k IH]; cbn [Py.zeros Nat.iter].
  - rewrite append_nil_l. apply NilEmpty.usu.
  - rewrite append_cons. cbn [NilEmpty.uint_of_string]. now rewrite IH.
Qed.

Lemma of_uint_iter_zeros k d : Pos.of_uint (Nat.iter k Decimal.D0 d) = Pos.of_uint d.
Proof. induction k as [|k IH]; [reflexivity|exact IH]. Qed.

Lemma zfill_unsigned width c rest :
  (Ascii.eqb c "+" || Ascii.eqb c "-")%bool = false ->
  Py.zfill width (String c rest)
  = Py.zeros (width - String.length (String c rest)) +:+ String c rest.
Proof.
  intros Hc. unfold Py.zfill.
  destruct (Nat.leb_spec width (String.length (String c rest))) as [Hle|Hlt].
  - replace (width - String.length (String c rest))%nat with O by lia.
    now rewrite append_nil_l.
  - now rewrite Hc.
Qed.

Lemma zfill_minus width rest :
  Py.zfill width (String "-" rest)
  = String "-" (Py.zeros (width - String.length (String "-" rest)) +:+ rest).
Proof.
  unfold Py.zfill.
  destruct (Nat.leb_spec width (String.length (String "-" rest))) as [Hle|Hlt].
  - replace (width - String.length (String "-" rest))%nat with O by lia.
    now rewrite append_nil_l.
  - reflexivity.
Qed.

Lemma string_of_uint_head d :
  d <> Decimal.Nil ->
  exists c rest,
    NilEmpty.string_of_uint d = String c rest
    /\ (Ascii.eqb c "+" || Ascii.eqb c "-")%bool = false.
Proof. destruct d; [congruence|..]; intros _; eexists _, _; split; reflexivity. Qed.

Lemma int_of_string_zeros k d :
  d <> Decimal.Nil ->
  NilZero.int_of_string (Py.zeros k +:+ NilEmpty.string_of_uint d)
  = Some (Decimal.Pos (Nat.iter k Decimal.D0 d)).
Proof.
  intros Hd. pose proof (zeros_uint k d) as Hu.
  destruct (string_of_uint_head d Hd) as (c & rest & Hs & Hc).
  apply orb_false_iff in Hc as [_ Hminus].
  destruct k as [|k].
  - cbn [Py.zeros] in *. rewrite append_nil_l in *. rewrite Hs in *.
    unfold NilZero.int_of_string, NilZero.uint_of_string. rewrite Hminus, Hu. reflexivity.
  - cbn [Py.zeros] in *. rewrite append_cons in *.
    unfold NilZero.int_of_string, NilZero.uint_of_string.
    change (Ascii.eqb "0" "-") with false. cbv iota. now rewrite Hu.
Qed.

Lemma int_of_string_minus_zeros k d :
  d <> Decimal.Nil ->
  NilZero.int_of_string (String "-" (Py.zeros k +:+ NilEmpty.string_of_uint d))
  = Some (Decimal.Neg (Nat.iter k Decimal.D0 d)).
Proof.
  intros Hd. pose proof (zeros_uint k d) as Hu.
  destruct (string_of_uint_head d Hd) as (c & rest & Hs & _).
  unfold NilZero.int_of_string. change (Ascii.eqb "-" "-") with true. cbv iota.
  unfold NilZero.uint_of_string.
  destruct (Py.zeros k +:+ NilEmpty.string_of_uint d) eqn:E.
  - destruct k; cbn [Py.zeros] in E; rewrite ?append_nil_l, ?append_cons in E;
      [congruence|discriminate].
  - now rewrite Hu.
Qed.

Lemma zfill_str_round_trip width f : int_of_field (Py.zfill width (Py.str f)) = Some f.
Proof.
  unfold int_of_field, Py.str.
  rewrite <- (DecimalZ.of_to f) at 2.
  destruct f as [|p|p]; cbn [Z.to_int].
  - change (NilZero.string_of_int (Decimal.Pos Decimal.zero)) with "0".
    rewrite zfill_unsigned by reflexivity.
    change "0" with (NilEmpty.string_of_uint (Decimal.D0 Decimal.Nil)) at 2.
    rewrite int_of_string_zeros by discriminate.
    cbn [fmap option_fmap option_map Z.of_int]. unfold Z.of_uint.
    now rewrite of_uint_iter_zeros.
  - pose proof (Unsigned.to_uint_nonnil p) as Hn.
    assert (Hs : NilZero.string_of_int (Decimal.Pos (Pos.to_uint p))
                 = NilEmpty.string_of_uint (Pos.to_uint p)).
    { cbn [NilZero.string_of_int]. unfold NilZero.string_of_uint.
      now destruct (Pos.to_uint p). }
    rewrite Hs. destruct (string_of_uint_head _ Hn) as (c & rest & Hcr & Hc).
    rewrite Hcr, zfill_unsigned by assumption. rewrite <- Hcr.
    rewrite int_of_string_zeros by assumption.
    cbn [fmap option_fmap option_map Z.of_int]. unfold Z.of_uint.
    now rewrite of_uint_iter_zeros.
  - pose proof (Unsigned.to_uint_nonnil p) as Hn.
    assert (Hs : NilZero.string_of_int (Decimal.Neg (Pos.to_uint p))
                 = String "-" (NilEmpty.string_of_uint (Pos.to_uint p))).
    { cbn [NilZero.string_of_int]. unfold NilZero.string_of_uint.
      now destruct (Pos.to_uint p). }
    rewrite Hs, zfill_minus. rewrite int_of_string_minus_zeros by assumption.
    cbn [fmap option_fmap option_map Z.of_int]. unfold Z.of_uint.
    now rewrite of_uint_iter_zeros.
Qed.

Lemma append_inv_head (p a b : string) : p +:+ a = p +:+ b -> a = b.
Proof.
  induction p as [|c p IH]; rewrite ?append_nil_l, ?append_cons; [auto|].
  intros [= H]. auto.
Qed.

Lemma length_append_str (a b : string) :
  String.length (a +:+ b) = (String.length a + String.length b)%nat.
Proof.
  induction a as [|c a IH]; rewrite ?append_nil_l, ?append_cons; [reflexivity|].
  cbn [String.length]. now rewrite IH.
Qed.

Lemma append_inv_tail (a b s : string) : a +:+ s = b +:+ s -> a = b.
Proof.
  revert b. induction a as [|c a IH]; intros [|d b] H;
    rewrite ?append_nil_l, ?append_cons in H.
  - reflexivity.
  - apply (f_equal String.length) in H. cbn [String.length] in H.
    rewrite length_append_str in H. lia.
  - apply (f_equal String.length) in H. cbn [String.length] in H.
    rewrite length_append_str in H. lia.
  - injection H as -> H. f_equal. now apply IH.
Qed.

(** X7: the zero-padded field [str(frame).zfill(width)] reads back as the
    frame it was made from, for every integer frame and every width, so
    for every width two different frames give different fields; with the
    width 3 of the code, neither [write_animations2] nor
    [write_animations] gives two different frames the same file name, also
    for frames below 0 or above 999. *)
Theorem frame_filename_determines_frame
    (output_path : string) (width : nat) (f1 f2 : Z) :
  int_of_field (Py.zfill width (Py.str f1)) = Some f1
  /\ (f1 <> f2 ->
      Py.zfill width (Py.str f1) <> Py.zfill width (Py.str f2)
      /\ frame_filename output_path f1 <> frame_filename output_path f2
      /\ (output_path +:+ Py.zfill 3 (Py.str f1)) +:+ ".png"
         <> (output_path +:+ Py.zfill 3 (Py.str f2)) +:+ ".png").
Proof.
  assert (Hinj : forall n, Py.zfill n (Py.str f1) = Py.zfill n (Py.str f2) -> f1 = f2).
  { intros n H. pose proof (zfill_str_round_trip n f1) as H1.
    rewrite H, zfill_str_round_trip in H1. congruence. }
  split; [apply zfill_str_round_trip|]. intros Hne. split; [|split].
  - intros H. apply Hinj in H. contradiction.
  - unfold frame_filename. intros H. apply append_inv_tail, append_inv_head in H.
    apply Hinj in H. contradiction.
  - intros H. apply append_inv_tail, append_inv_head in H.
    apply Hinj in H. contradiction.
Qed.

Lemma frame_filename_determines_frame_witness :
  int_of_field (Py.zfill 5 (Py.str (-7))) = Some (-7)
  /\ Py.zfill 5 (Py.str (-7)) <> Py.zfill 5 (Py.str 1007)
  /\ frame_filename "/r/Walk/Walk" (-7) <> frame_filename "/r/Walk/Walk" 1007
  /\ ("/r/Walk/Walk" +:+ Py.zfill 3 (Py.str (-7))) +:+ ".png"
     <> ("/r/Walk/Walk" +:+ Py.zfill 3 (Py.str 1007)) +:+ ".png".
Proof.
  split.
  - apply (proj1 (frame_filename_determines_frame "/r/Walk/Walk" 5 (-7) 1007)).
  - apply (proj2 (frame_filename_determines_frame "/r/Walk/Walk" 5 (-7) 1007)). lia.
Defined.

(** The field of frame -7 at widths 1, 3 and 5, and what reads back. *)
Example zfill_width_samples :
  map (fun n => Py.zfill n (Py.str (-7))) [1%nat; 3%nat; 5%nat] = ["-7"; "-07"; "-0007"]
  /\ map (fun n => int_of_field (Py.zfill n (Py.str (-7)))) [1%nat; 3%nat; 5%nat]
     = [Some (-7); Some (-7); Some (-7)].
Proof. split; vm_compute; reflexivity. Qed.

(** ** More on [reset_tracks] *)

Lemma resettable_reset_tracks_eff objs sc y :
  resettable (reset_tracks_eff objs sc) y <-> resettable sc y.
Proof.
  apply (same_names_has_track sc (reset_tracks_eff objs sc) y "reset").
  apply same_names_reset_tracks_eff.
Qed.

Lemma render_filepath_reset_tracks_eff objs sc :
  render_filepath (reset_tracks_eff objs sc) = render_filepath sc.
Proof.
  unfold reset_tracks_eff. revert sc. induction objs as [|x objs IH]; intros sc; simpl;
    [reflexivity|now rewrite IH].
Qed.

(** X8: [reset_tracks] returns exactly when every listed object exists, has
    animation data and has a track named ["reset"].  When it returns, the
    tracks of each listed object are the ones it had, in the same order,
    all muted; the tracks of every other object, the visibility flags of
    all objects, the scene's [frame_end], the render path and the
    directories are as before. *)
Theorem reset_tracks_effect (objs : list string) (w : world) :
  ((exists w', reset_tracks objs w = (Done tt, w'))
   <-> Forall (resettable (w_scene w)) objs)
  /\ forall w', reset_tracks objs w = (Done tt, w') ->
       (forall y, lookup_tracks (w_scene w') y
                  = if decide (y ∈ objs)
                    then map (track_set_mute true) <$> lookup_tracks (w_scene w) y
                    else lookup_tracks (w_scene w) y)
       /\ (forall y, hidden_flags (w_scene w') y = hidden_flags (w_scene w) y)
       /\ frame_end (w_scene w') = frame_end (w_scene w)
       /\ render_filepath (w_scene w') = render_filepath (w_scene w)
       /\ w_dirs w' = w_dirs w.
Proof.
  split.
  - split.
    + intros [w' H]. now apply reset_tracks_done_iff in H as [H _].
    + intros H. eexists. apply reset_tracks_done_iff. split; [exact H|reflexivity].
  - intros w' H. apply reset_tracks_done_iff in H as [_ ->]. rewrite w_scene_upd.
    split; [intros y; apply lookup_tracks_reset_tracks_eff|].
    split; [intros y; apply hidden_flags_reset_tracks_eff|].
    split; [apply frame_end_reset_tracks_eff|].
    split; [apply render_filepath_reset_tracks_eff|reflexivity].
Qed.

Lemma reset_tracks_effect_witness :
  (forall y, lookup_tracks (w_scene (reset_tracks ["rig"] Sample.w0).2) y
             = if decide (y ∈ ["rig"])
               then map (track_set_mute true) <$> lookup_tracks (w_scene Sample.w0) y
               else lookup_tracks (w_scene Sample.w0) y)
  /\ (forall y, hidden_flags (w_scene (reset_tracks ["rig"] Sample.w0).2) y
                = hidden_flags (w_scene Sample.w0) y)
  /\ frame_end (w_scene (reset_tracks ["rig"] Sample.w0).2) = frame_end (w_scene Sample.w0)
  /\ render_filepath (w_scene (reset_tracks ["rig"] Sample.w0).2)
     = render_filepath (w_scene Sample.w0)
  /\ w_dirs (reset_tracks ["rig"] Sample.w0).2 = w_dirs Sample.w0.
Proof.
  apply (proj2 (reset_tracks_effect ["rig"] Sample.w0)). vm_compute. reflexivity.
Defined.

(** X9: when an object of the list cannot be reset, [reset_tracks] stops at
    the first such object [x]: with [AttributeError] when [x] is missing or
    has no animation data, with [KeyError] when it has no ["reset"] track.
    By then the current frame is 1, the objects before [x] have all their
    tracks muted, and so has [x] itself in the [KeyError] case; the tracks of
    the remaining objects and all visibility flags are untouched. *)
Theorem reset_tracks_stops_at_first_failure
    (pre post : list string) (x : string) (w : world) :
  Forall (resettable (w_scene w)) pre ->
  ~ resettable (w_scene w) x ->
  exists w',
    reset_tracks (pre ++ x :: post) w
    = (Raised (match lookup_tracks (w_scene w) x with
               | Some _ => KeyError "reset"
               | None => AttributeError
               end), w')
    /\ frame_current (w_scene w') = 1
    /\ (forall y, lookup_tracks (w_scene w') y
                  = if decide (y ∈ pre ++ [x])
                    then map (track_set_mute true) <$> lookup_tracks (w_scene w) y
                    else lookup_tracks (w_scene w) y)
    /\ (forall y, hidden_flags (w_scene w') y = hidden_flags (w_scene w) y).
Proof.
  intros Hpre Hx. unfold reset_tracks. rewrite for_each_app.
  erewrite bind_done.
  2:{ apply reset_tracks_done_iff. split; [exact Hpre|reflexivity]. }
  cbn [for_each]. unfold bind. rewrite reset_tracks_entry_run, w_scene_upd.
  assert (Hx' : ~ resettable (reset_tracks_eff pre (w_scene w)) x)
    by now rewrite resettable_reset_tracks_eff.
  assert (Hin : forall y, y ∈ pre ++ [x] <-> y ∈ pre \/ y = x).
  { intros y. rewrite elem_of_app, list_elem_of_singleton. reflexivity. }
  pose proof (lookup_tracks_reset_tracks_eff pre x (w_scene w)) as Hlx.
  destruct (lookup_tracks (reset_tracks_eff pre (w_scene w)) x) as [ts|] eqn:Hts.
  - assert (Hsome : exists ts0, lookup_tracks (w_scene w) x = Some ts0).
    { destruct (lookup_tracks (w_scene w) x) as [ts0|]; [eauto|].
      now destruct (decide (x ∈ pre)). }
    destruct Hsome as [ts0 Hts0]. rewrite Hts0.
    destruct (find_track "reset" ts) as [r|] eqn:Hr.
    { exfalso. apply Hx'. exists ts, r. auto. }
    eexists. split; [reflexivity|]. rewrite upd_upd, w_scene_upd.
    split; [reflexivity|]. split.
    + intros y. rewrite lookup_tracks_map_tracks, lookup_tracks_set_frame_current.
      rewrite lookup_tracks_reset_tracks_eff.
      destruct (decide (x = y)) as [<-|Hxy].
      * rewrite (decide_True (P := x ∈ pre ++ [x])) by (apply Hin; auto).
        rewrite Hts0. destruct (decide (x ∈ pre)); simpl;
          [now rewrite mute_all_idem|reflexivity].
      * destruct (decide (y ∈ pre)) as [Hp|Hp].
        -- rewrite decide_True by (apply Hin; auto). reflexivity.
        -- rewrite decide_False; [reflexivity|]. intros [?|?]%Hin; congruence.
    + intros y. rewrite hidden_flags_map_tracks.
      change (hidden_flags (set_frame_current 1 ?s) y) with (hidden_flags s y).
      apply hidden_flags_reset_tracks_eff.
  - assert (Hnone : lookup_tracks (w_scene w) x = None).
    { destruct (lookup_tracks (w_scene w) x); [|reflexivity].
      now destruct (decide (x ∈ pre)). }
    rewrite Hnone.
    eexists. split; [reflexivity|]. rewrite upd_upd, w_scene_upd.
    split; [reflexivity|]. split.
    + intros y. rewrite lookup_tracks_set_frame_current, lookup_tracks_reset_tracks_eff.
      destruct (decide (y ∈ pre)) as [Hp|Hp].
      * rewrite decide_True by (apply Hin; auto). reflexivity.
      * destruct (decide (y = x)) as [->|Hxy].
        -- rewrite decide_True by (apply Hin; auto). now rewrite Hnone.
        -- rewrite decide_False; [reflexivity|]. intros [?|?]%Hin; congruence.
    + intros y.
      change (hidden_flags (set_frame_current 1 ?s) y) with (hidden_flags s y).
      apply hidden_flags_reset_tracks_eff.
Qed.

Lemma reset_tracks_stops_at_first_failure_witness :
  exists w',
    reset_tracks ([] ++ "visibleground" :: ["rig"]) Sample.w0
    = (Raised (match lookup_tracks (w_scene Sample.w0) "visibleground" with
               | Some _ => KeyError "reset"
               | None => AttributeError
               end), w')
    /\ frame_current (w_scene w') = 1
    /\ (forall y, lookup_tracks (w_scene w') y
                  = if decide (y ∈ [] ++ ["visibleground"])
                    then map (track_set_mute true) <$> lookup_tracks (w_scene Sample.w0) y
                    else lookup_tracks (w_scene Sample.w0) y)
    /\ (forall y, hidden_flags (w_scene w') y = hidden_flags (w_scene Sample.w0) y).
Proof.
  apply (reset_tracks_stops_at_first_failure [] ["rig"] "visibleground" Sample.w0).
  - constructor.
  - intros (ts & r & Hts & _). vm_compute in Hts. discriminate.
Defined.

Lemma set_frame_current_id f sc : frame_current sc = f -> set_frame_current f sc = sc.
Proof. destruct sc. simpl. now intros ->. Qed.

Lemma reset_entry_eff_id x sc :
  (forall ts, lookup_tracks sc x = Some ts -> mute_all ts = ts) ->
  frame_current sc = 1 ->
  reset_entry_eff x sc = sc.
Proof.
  intros Hts Hf. unfold reset_entry_eff.
  rewrite (map_tracks_ext mute_all (fun ts => ts)) by exact Hts.
  rewrite map_tracks_id. now apply set_frame_current_id.
Qed.

Lemma reset_tracks_eff_idem objs sc :
  reset_tracks_eff objs (reset_tracks_eff objs sc) = reset_tracks_eff objs sc.
Proof.
  destruct objs as [|x0 objs0] eqn:E; [reflexivity|]. rewrite <- E.
  assert (Hne : objs <> []) by (rewrite E; discriminate). clear E.
  set (s1 := reset_tracks_eff objs sc).
  assert (Hgen : forall l, (forall x, x ∈ l -> x ∈ objs) -> reset_tracks_eff l s1 = s1).
  { unfold reset_tracks_eff at 1. induction l as [|x l IH]; intros Hl; cbn [fold_left].
    - reflexivity.
    - rewrite reset_entry_eff_id.
      + apply IH. intros y Hy. apply Hl. now apply list_elem_of_further.
      + intros ts Hts. unfold s1 in Hts.
        rewrite lookup_tracks_reset_tracks_eff in Hts.
        rewrite decide_True in Hts by (apply Hl, list_elem_of_here).
        destruct (lookup_tracks sc x); [|discriminate]. simpl in Hts.
        injection Hts as <-. apply mute_all_idem.
      + now apply frame_current_reset_tracks_eff. }
  now apply Hgen.
Qed.

(** X10: running [reset_tracks] twice in succession ends as running it once
    does: the same outcome (both return, or both stop at the same object
    with the same exception) and the same scene. *)
Theorem reset_tracks_idempotent (objs : list string) (w : world) :
  let once := reset_tracks objs w in
  let twice := (reset_tracks objs ;;; reset_tracks objs) w in
  twice.1 = once.1 /\ w_scene twice.2 = w_scene once.2.
Proof.
  intros once twice. subst once twice. unfold bind at 1 2.
  destruct (reset_tracks objs w) as [[[]|e] w1] eqn:Hrun; [|auto].
  apply reset_tracks_done_iff in Hrun as [Hall ->].
  assert (Hdone : reset_tracks objs
                    (upd (reset_tracks_eff objs) (reset_tracks_trace (w_scene w) objs) w)
                  = (Done tt,
                     upd (reset_tracks_eff objs)
                       (reset_tracks_trace
                          (w_scene (upd (reset_tracks_eff objs)
                                        (reset_tracks_trace (w_scene w) objs) w)) objs)
                       (upd (reset_tracks_eff objs)
                            (reset_tracks_trace (w_scene w) objs) w))).
  { apply reset_tracks_done_iff. split; [|reflexivity].
    rewrite Forall_forall in Hall |- *. intros x Hx. rewrite w_scene_upd.
    apply resettable_reset_tracks_eff. auto. }
  rewrite Hdone. cbn [fst snd]. split; [reflexivity|].
  rewrite !w_scene_upd. apply reset_tracks_eff_idem.
Qed.

(** ** More on [hide_objects] *)

Lemma scene_eq (s1 s2 : scene) :
  objects s1 = objects s2 -> frame_current s1 = frame_current s2 ->
  frame_end s1 = frame_end s2 -> render_filepath s1 = render_filepath s2 ->
  s1 = s2.
Proof. destruct s1, s2. simpl. now intros -> -> -> ->. Qed.

Lemma objects_hide_eff b x y sc :
  objects (hide_eff b x sc) !! y
  = if decide (x = y) then obj_hide b <$> objects sc !! y else objects sc !! y.
Proof.
  unfold hide_eff, alter_object; simpl. rewrite alter_alter_eq, lookup_alter.
  case_decide; [subst|reflexivity]. now destruct (objects sc !! y).
Qed.

Lemma objects_hide_objects_eff b objs y sc :
  objects (hide_objects_eff b objs sc) !! y
  = if decide (y ∈ objs) then obj_hide b <$> objects sc !! y else objects sc !! y.
Proof.
  unfold hide_objects_eff. revert sc.
  induction objs as [|x objs IH]; intros sc; cbn [fold_left].
  - destruct (decide (y ∈ [])) as [H|_]; [|reflexivity]. now apply not_elem_of_nil in H.
  - rewrite IH, objects_hide_eff.
    destruct (decide (y ∈ x :: objs)) as [Hin|Hnin];
      destruct (decide (y ∈ objs)) as [Hin'|Hnin'];
      destruct (decide (x = y)) as [->|Hxy]; try reflexivity.
    + now destruct (objects sc !! y).
    + apply elem_of_cons in Hin as [?|?]; congruence.
    + exfalso. apply Hnin. now apply list_elem_of_further.
    + exfalso. apply Hnin. now apply list_elem_of_further.
    + exfalso. apply Hnin. apply list_elem_of_here.
Qed.

Lemma hide_objects_eff_frames b objs sc :
  frame_current (hide_objects_eff b objs sc) = frame_current sc
  /\ frame_end (hide_objects_eff b objs sc) = frame_end sc
  /\ render_filepath (hide_objects_eff b objs sc) = render_filepath sc.
Proof.
  unfold hide_objects_eff. revert sc.
  induction objs as [|x objs IH]; intros sc; cbn [fold_left]; [auto|].
  destruct (IH (hide_eff b x sc)) as (E1 & E2 & E3).
  split; [exact E1|]. split; [exact E2|exact E3].
Qed.

Lemma lookup_tracks_hide_objects_eff b objs sc y :
  lookup_tracks (hide_objects_eff b objs sc) y = lookup_tracks sc y.
Proof.
  unfold hide_objects_eff. revert sc.
  induction objs as [|x objs IH]; intros sc; cbn [fold_left]; [reflexivity|].
  now rewrite IH, lookup_tracks_hide_eff.
Qed.

(** X11: [hide_objects] returns exactly when every listed name resolves to
    an object.  When it returns, each listed object has both visibility
    flags equal to the argument, every other object has the flags it had,
    and no track, frame setting, render path or directory has changed. *)
Theorem hide_objects_effect (names : list string) (b : bool) (w : world) :
  ((exists w', hide_objects names b w = (Done tt, w'))
   <-> Forall (fun x => is_Some (objects (w_scene w) !! x)) names)
  /\ forall w', hide_objects names b w = (Done tt, w') ->
       (forall y, hidden_flags (w_scene w') y
                  = if decide (y ∈ names) then Some (b, b) else hidden_flags (w_scene w) y)
       /\ (forall y, lookup_tracks (w_scene w') y = lookup_tracks (w_scene w) y)
       /\ frame_current (w_scene w') = frame_current (w_scene w)
       /\ frame_end (w_scene w') = frame_end (w_scene w)
       /\ render_filepath (w_scene w') = render_filepath (w_scene w)
       /\ w_dirs w' = w_dirs w.
Proof.
  split.
  - split.
    + intros [w' H]. now apply hide_objects_done_iff in H as [H _].
    + intros H. eexists. apply hide_objects_done_iff. split; [exact H|reflexivity].
  - intros w' H. apply hide_objects_done_iff in H as [Hall ->]. rewrite w_scene_upd.
    destruct (hide_objects_eff_frames b names (w_scene w)) as (E1 & E2 & E3).
    split; [|split; [intros y; apply lookup_tracks_hide_objects_eff|auto]].
    intros y. rewrite hidden_flags_hide_objects_eff.
    destruct (decide (y ∈ names)) as [Hy|Hy]; [|reflexivity].
    rewrite Forall_forall in Hall. destruct (Hall y Hy) as [o Ho].
    now rewrite (hidden_flags_Some _ _ _ Ho).
Qed.

Lemma hide_objects_effect_witness :
  (forall y, hidden_flags (w_scene (hide_objects ["rig"; "ShadowPlane"] true Sample.w0).2) y
             = if decide (y ∈ ["rig"; "ShadowPlane"]) then Some (true, true)
               else hidden_flags (w_scene Sample.w0) y)
  /\ (forall y, lookup_tracks (w_scene (hide_objects ["rig"; "ShadowPlane"] true Sample.w0).2) y
                = lookup_tracks (w_scene Sample.w0) y)
  /\ frame_current (w_scene (hide_objects ["rig"; "ShadowPlane"] true Sample.w0).2)
     = frame_current (w_scene Sample.w0)
  /\ frame_end (w_scene (hide_objects ["rig"; "ShadowPlane"] true Sample.w0).2)
     = frame_end (w_scene Sample.w0)
  /\ render_filepath (w_scene (hide_objects ["rig"; "ShadowPlane"] true Sample.w0).2)
     = render_filepath (w_scene Sample.w0)
  /\ w_dirs (hide_objects ["rig"; "ShadowPlane"] true Sample.w0).2 = w_dirs Sample.w0.
Proof.
  apply (proj2 (hide_objects_effect ["rig"; "ShadowPlane"] true Sample.w0)).
  vm_compute. reflexivity.
Defined.

(** X12: when a name does not resolve, [hide_objects] stops there with
    [AttributeError]: the objects listed before it have their flags set,
    the objects listed after it are not touched, and what was written stays
    written. *)
Theorem hide_objects_stops_at_missing
    (pre post : list string) (x : string) (b : bool) (w : world) :
  Forall (fun y => is_Some (objects (w_scene w) !! y)) pre ->
  objects (w_scene w) !! x = None ->
  exists w',
    hide_objects (pre ++ x :: post) b w = (Raised AttributeError, w')
    /\ (forall y, hidden_flags (w_scene w') y
                  = if decide (y ∈ pre) then Some (b, b) else hidden_flags (w_scene w) y)
    /\ (forall y, lookup_tracks (w_scene w') y = lookup_tracks (w_scene w) y)
    /\ w_trace w' = w_trace w ++ flat_map (hide_trace b) pre.
Proof.
  intros Hpre Hx. unfold hide_objects. rewrite for_each_app.
  erewrite bind_done.
  2:{ apply hide_objects_done_iff. split; [exact Hpre|reflexivity]. }
  cbn [for_each]. unfold bind. rewrite hide_objects_entry_run, w_scene_upd.
  rewrite objects_hide_objects_eff, Hx.
  destruct (decide (x ∈ pre)) as [Hin|_].
  { rewrite Forall_forall in Hpre. destruct (Hpre x Hin) as [? ?]. congruence. }
  eexists. split; [reflexivity|]. rewrite w_scene_upd.
  split; [|split; [intros y; apply lookup_tracks_hide_objects_eff|reflexivity]].
  intros y. rewrite hidden_flags_hide_objects_eff.
  destruct (decide (y ∈ pre)) as [Hy|Hy]; [|reflexivity].
  rewrite Forall_forall in Hpre. destruct (Hpre y Hy) as [o Ho].
  now rewrite (hidden_flags_Some _ _ _ Ho).
Qed.

Lemma hide_objects_stops_at_missing_witness :
  exists w',
    hide_objects (["rig"] ++ "cape" :: ["ShadowPlane"]) true Sample.w0
    = (Raised AttributeError, w')
    /\ (forall y, hidden_flags (w_scene w') y
                  = if decide (y ∈ ["rig"]) then Some (true, true)
                    else hidden_flags (w_scene Sample.w0) y)
    /\ (forall y, lookup_tracks (w_scene w') y = lookup_tracks (w_scene Sample.w0) y)
    /\ w_trace w' = w_trace Sample.w0 ++ flat_map (hide_trace true) ["rig"].
Proof.
  apply (hide_objects_stops_at_missing ["rig"] ["ShadowPlane"] "cape" true Sample.w0).
  - apply Forall_cons. split; [|constructor]. eexists. vm_compute. reflexivity.
  - vm_compute. reflexivity.
Defined.

(** X13: the last call wins.  When every listed name resolves,
    [hide_objects(names, b)] followed by [hide_objects(names, b')] returns
    and leaves the scene that [hide_objects(names, b')] alone leaves; in
    particular hiding and then showing is showing. *)
Theorem hide_objects_last_wins (names : list string) (b b' : bool) (w : world) :
  Forall (fun x => is_Some (objects (w_scene w) !! x)) names ->
  exists w1 w2,
    (hide_objects names b ;;; hide_objects names b') w = (Done tt, w2)
    /\ hide_objects names b' w = (Done tt, w1)
    /\ w_scene w2 = w_scene w1.
Proof.
  intros Hall.
  assert (H1 : hide_objects names b w
               = (Done tt, upd (hide_objects_eff b names) (flat_map (hide_trace b) names) w))
    by (apply hide_objects_done_iff; auto).
  assert (H2 : hide_objects names b'
                 (upd (hide_objects_eff b names) (flat_map (hide_trace b) names) w)
               = (Done tt, upd (hide_objects_eff b' names) (flat_map (hide_trace b') names)
                             (upd (hide_objects_eff b names)
                                  (flat_map (hide_trace b) names) w))).
  { apply hide_objects_done_iff. split; [|reflexivity]. rewrite w_scene_upd.
    rewrite Forall_forall in Hall |- *. intros x Hx.
    rewrite objects_hide_objects_eff, decide_True by assumption.
    destruct (Hall x Hx) as [o ->]. simpl. eauto. }
  eexists _, _. split; [erewrite bind_done by exact H1; exact H2|].
  split; [apply hide_objects_done_iff; split; [exact Hall|reflexivity]|].
  rewrite !w_scene_upd.
  destruct (hide_objects_eff_frames b' names (hide_objects_eff b names (w_scene w)))
    as (E1 & E2 & E3).
  destruct (hide_objects_eff_frames b names (w_scene w)) as (F1 & F2 & F3).
  destruct (hide_objects_eff_frames b' names (w_scene w)) as (G1 & G2 & G3).
  apply scene_eq; [|congruence..].
  apply map_eq. intros y. rewrite !objects_hide_objects_eff.
  destruct (decide (y ∈ names)); [|reflexivity].
  now destruct (objects (w_scene w) !! y).
Qed.

Lemma hide_objects_last_wins_witness :
  exists w1 w2,
    (hide_objects ["ShadowPlane"; "rig"] true ;;; hide_objects ["ShadowPlane"; "rig"] false)
      Sample.w0 = (Done tt, w2)
    /\ hide_objects ["ShadowPlane"; "rig"] false Sample.w0 = (Done tt, w1)
    /\ w_scene w2 = w_scene w1.
Proof.
  apply (hide_objects_last_wins ["ShadowPlane"; "rig"] true false Sample.w0).
  repeat (apply Forall_cons; split; [eexists; vm_compute; reflexivity|]). constructor.
Defined.

(** ** More on [mute_and_unmute] *)

Lemma zip3_app_ignored {A B C} (la extra : list A) (lb : list B) (lc : list C) :
  (Nat.min (length lb) (length lc) <= length la)%nat ->
  zip3 (la ++ extra) lb lc = zip3 la lb lc.
Proof.
  revert lb lc. induction la as [|a la IH]; intros lb lc H.
  - destruct lb, lc; simpl in H; try lia; destruct extra; reflexivity.
  - destruct lb, lc; simpl in *; try reflexivity. f_equal. apply IH. lia.
Qed.

(** X14: [mute_and_unmute] goes through [zip(objects, tracks_to_mute,
    tracks_to_unmute)], so objects beyond the shorter of the two track lists
    are ignored without an error: they are neither looked up nor changed. *)
Theorem mute_and_unmute_ignores_unpaired
    (objs extra : list string) (tracks_to_mute tracks_to_unmute : list layer_arg)
    (w : world) :
  (Nat.min (length tracks_to_mute) (length tracks_to_unmute) <= length objs)%nat ->
  mute_and_unmute (objs ++ extra) tracks_to_mute tracks_to_unmute w
  = mute_and_unmute objs tracks_to_mute tracks_to_unmute w.
Proof. intros H. unfold mute_and_unmute. now rewrite zip3_app_ignored. Qed.

Lemma mute_and_unmute_ignores_unpaired_witness :
  mute_and_unmute (["rig"] ++ ["cape"; "hat"]) [Names ["Idle1"]] [Names ["Walk"]] Sample.w0
  = mute_and_unmute ["rig"] [Names ["Idle1"]] [Names ["Walk"]] Sample.w0.
Proof.
  apply (mute_and_unmute_ignores_unpaired ["rig"] ["cape"; "hat"]
           [Names ["Idle1"]] [Names ["Walk"]] Sample.w0).
  simpl. lia.
Defined.



Lemma track_mute_set b (o : option nla_track) :
  track_mute <$> (track_set_mute b <$> o) = (fun _ => b) <$> (track_mute <$> o).
Proof. now destruct o. Qed.

(** X16: what [mute_and_unmute] leaves, for an object that is named by one
    entry only.  When it returns, a track of that object is unmuted if a
    name of the entry's unmute list resolves to it, else muted if a name of
    the mute list resolves to it, else as it was.  Objects that no entry
    names keep their tracks, and no visibility flag or track name changes. *)
Theorem mute_and_unmute_final_flags
    (objs : list string) (tracks_to_mute tracks_to_unmute : list layer_arg)
    (w w' : world) (pre post : list (string * layer_arg * layer_arg))
    (x : string) (a1 a2 : layer_arg) :
  mute_and_unmute objs tracks_to_mute tracks_to_unmute w = (Done tt, w') ->
  zip3 objs tracks_to_mute tracks_to_unmute = pre ++ (x, a1, a2) :: post ->
  Forall (fun e => e.1.1 <> x) pre ->
  Forall (fun e => e.1.1 <> x) post ->
  (forall i,
     track_flag (w_scene w') (x, i)
     = if decide (i ∈ map (track_index (w_scene w) x) (arg_names a2))
       then (fun _ => false) <$> track_flag (w_scene w) (x, i)
       else if decide (i ∈ map (track_index (w_scene w) x) (arg_names a1))
            then (fun _ => true) <$> track_flag (w_scene w) (x, i)
            else track_flag (w_scene w) (x, i))
  /\ (forall y, Forall (fun e => e.1.1 <> y) (zip3 objs tracks_to_mute tracks_to_unmute) ->
                lookup_tracks (w_scene w') y = lookup_tracks (w_scene w) y)
  /\ (forall y, hidden_flags (w_scene w') y = hidden_flags (w_scene w) y)
  /\ same_names (w_scene w) (w_scene w').
Proof.
  intros Hrun Hzip Hpre Hpost. unfold mute_and_unmute in Hrun.
  apply mute_and_unmute_entries_done_iff in Hrun as [Hok ->]. rewrite w_scene_upd.
  split; [|split; [|split]].
  - intros i. rewrite Hzip. unfold track_flag. cbn [fst snd].
    unfold entries_eff. rewrite fold_left_app. cbn [fold_left].
    fold (entries_eff (w_scene w) pre (w_scene w)).
    fold (entries_eff (w_scene w) post
            (entry_eff (w_scene w) (x, a1, a2) (entries_eff (w_scene w) pre (w_scene w)))).
    rewrite lookup_tracks_entries_eff_other by assumption.
    rewrite lookup_tracks_entry_eff. cbn [fst snd]. rewrite decide_True by reflexivity.
    rewrite lookup_tracks_entries_eff_other by assumption.
    destruct (lookup_tracks (w_scene w) x) as [ts|]; cbn [fmap option_fmap option_map
      mbind option_bind].
    + rewrite !mute_fold_lookup.
      repeat case_decide; rewrite ?track_mute_set; try reflexivity;
        now destruct (ts !! i).
    + now repeat case_decide.
  - intros y Hy. now apply lookup_tracks_entries_eff_other.
  - intros y. apply hidden_flags_entries_eff.
  - apply same_names_entries_eff.
Qed.

Lemma mute_and_unmute_final_flags_witness :
  let w' := (mute_and_unmute ["rig"] [Names ["Idle1"; "reset"]] [Names ["Idle1"]]
               Sample.w0).2 in
  (forall i,
     track_flag (w_scene w') ("rig", i)
     = if decide (i ∈ map (track_index (w_scene Sample.w0) "rig") (arg_names (Names ["Idle1"])))
       then (fun _ => false) <$> track_flag (w_scene Sample.w0) ("rig", i)
       else if decide (i ∈ map (track_index (w_scene Sample.w0) "rig")
                                (arg_names (Names ["Idle1"; "reset"])))
            then (fun _ => true) <$> track_flag (w_scene Sample.w0) ("rig", i)
            else track_flag (w_scene Sample.w0) ("rig", i))
  /\ (forall y, Forall (fun e => e.1.1 <> y)
                  (zip3 ["rig"] [Names ["Idle1"; "reset"]] [Names ["Idle1"]]) ->
                lookup_tracks (w_scene w') y = lookup_tracks (w_scene Sample.w0) y)
  /\ (forall y, hidden_flags (w_scene w') y = hidden_flags (w_scene Sample.w0) y)
  /\ same_names (w_scene Sample.w0) (w_scene w').
Proof.
  apply (mute_and_unmute_final_flags ["rig"] [Names ["Idle1"; "reset"]] [Names ["Idle1"]]
           Sample.w0 _ [] [] "rig" (Names ["Idle1"; "reset"]) (Names ["Idle1"])).
  - vm_compute. reflexivity.
  - reflexivity.
  - constructor.
  - constructor.
Defined.

Lemma pass_stops_at_unknown x b l1 n l2 w ts :
  lookup_tracks (w_scene w) x = Some ts ->
  Forall (has_track (w_scene w) x) l1 ->
  find_track n ts = None ->
  for_each (l1 ++ n :: l2) (fun y => t <- nla_track_named (Some x) y ;; write_mute t b) w
  = (Raised (KeyError n),
     upd (pass_eff b x (map (track_index (w_scene w) x) l1))
         (pass_trace (w_scene w) b x l1) w).
Proof.
  intros Hts Hl1 Hn. rewrite for_each_app.
  erewrite bind_done by (apply pass_done_iff; split; [exact Hl1|reflexivity]).
  cbn [for_each]. erewrite bind_raised; [reflexivity|].
  rewrite pass_step_run, w_scene_upd. unfold pass_eff.
  rewrite lookup_tracks_map_tracks_eq, Hts. cbn [fmap option_fmap option_map].
  rewrite (find_track_names n _ ts) by apply mute_fold_names.
  now rewrite Hn.
Qed.

Lemma mute_and_unmute_stops_at_unknown
    (x : string) (ml ul1 ul2 : list string) (n : string) (w : world)
    (ts : list nla_track) :
  lookup_tracks (w_scene w) x = Some ts ->
  Forall (has_track (w_scene w) x) ml ->
  Forall (has_track (w_scene w) x) ul1 ->
  find_track n ts = None ->
  exists w',
    mute_and_unmute [x] [Names ml] [Names (ul1 ++ n :: ul2)] w = (Raised (KeyError n), w')
    /\ w_trace w' = w_trace w ++ pass_trace (w_scene w) true x ml
                              ++ pass_trace (w_scene w) false x ul1
    /\ lookup_tracks (w_scene w') x
       = Some (mute_fold false (map (track_index (w_scene w) x) ul1)
                 (mute_fold true (map (track_index (w_scene w) x) ml) ts)).
Proof.
  intros Hts Hml Hul1 Hn. unfold mute_and_unmute. cbn [zip3 for_each].
  assert (Hobj : objects_get x w = (Done (Some x), w)).
  { unfold objects_get. unfold lookup_tracks in Hts.
    destruct (objects (w_scene w) !! x); [reflexivity|discriminate]. }
  set (w1 := upd (pass_eff true x (map (track_index (w_scene w) x) ml))
                 (pass_trace (w_scene w) true x ml) w).
  assert (Hsn : same_names (w_scene w) (w_scene w1)) by apply same_names_pass_eff.
  assert (Hts1 : lookup_tracks (w_scene w1) x
                 = Some (mute_fold true (map (track_index (w_scene w) x) ml) ts)).
  { unfold w1. rewrite w_scene_upd. unfold pass_eff.
    now rewrite lookup_tracks_map_tracks_eq, Hts. }
  eexists. split.
  - erewrite bind_raised; [reflexivity|].
    unfold mute_and_unmute_entry.
    erewrite bind_done by exact Hobj.
    erewrite bind_done by (apply pass_done_iff; split; [exact Hml|reflexivity]).
    fold w1. apply (pass_stops_at_unknown x false ul1 n ul2 w1 _ Hts1).
    + rewrite Forall_forall in Hul1 |- *. intros y Hy.
      apply (same_names_has_track _ _ x y Hsn). auto.
    + rewrite (find_track_names n _ ts) by apply mute_fold_names. exact Hn.
  - rewrite w_trace_upd, w_scene_upd. split.
    + unfold w1. rewrite w_trace_upd, <- app_assoc. f_equal. f_equal.
      unfold pass_trace. apply map_ext. intros y. f_equal.
      apply (same_names_track_index _ _ x y Hsn).
    + unfold pass_eff. rewrite lookup_tracks_map_tracks_eq, Hts1.
      cbn [fmap option_fmap option_map]. f_equal. f_equal.
      apply map_ext. intros y. now apply same_names_track_index.
Qed.



(** ** More on [run_case] *)

(** X18: [run_case] sets the visibility of the two planes before it looks
    at the subject.  For every subject name, a scene without
    ["visibleground"] makes it raise [AttributeError] with nothing written,
    and a scene with it but without ["ShadowPlane"] makes it raise
    [AttributeError] with ["visibleground"] hidden and nothing else done: no
    diagnostic is printed, whether the subject is supported or not. *)
Theorem run_case_needs_both_planes (animal_name : string) (w : world) :
  (objects (w_scene w) !! "visibleground" = None ->
   run_case animal_name w = (Raised AttributeError, w))
  /\ (is_Some (objects (w_scene w) !! "visibleground") ->
      objects (w_scene w) !! "ShadowPlane" = None ->
      run_case animal_name w
      = (Raised AttributeError,
         upd (hide_eff true "visibleground")
             [ESetHideRender "visibleground" true; ESetHideViewport "visibleground" true] w)).
Proof.
  split.
  - intros Hvg. unfold run_case. erewrite bind_done by reflexivity.
    erewrite bind_raised; [reflexivity|]. now rewrite hide_objects_single_run, Hvg.
  - intros [vg Hvg] Hsp. unfold run_case. erewrite bind_done by reflexivity.
    erewrite bind_done by (rewrite hide_objects_single_run, Hvg; reflexivity).
    erewrite bind_raised; [reflexivity|].
    rewrite hide_objects_single_run, w_scene_upd.
    now rewrite objects_hide_eff_ne, Hsp by discriminate.
Qed.

Lemma run_case_needs_both_planes_witness :
  run_case "cat" (World (Scene ∅ 1 250 "") "/tmp/" ∅ [])
  = (Raised AttributeError, World (Scene ∅ 1 250 "") "/tmp/" ∅ []).
Proof.
  apply (proj1 (run_case_needs_both_planes "cat" (World (Scene ∅ 1 250 "") "/tmp/" ∅ []))).
  reflexivity.
Defined.

Lemma makedirs_of_app tr1 tr2 : makedirs_of (tr1 ++ tr2) = makedirs_of tr1 ++ makedirs_of tr2.
Proof. apply omap_app. Qed.

Lemma makedirs_of_mutes x b (l : list nat) :
  makedirs_of (map (fun i => ESetMute x i b) l) = [].
Proof. induction l as [|i l IH]; [reflexivity|exact IH]. Qed.

Lemma makedirs_of_reset_tracks_trace sc objs : makedirs_of (reset_tracks_trace sc objs) = [].
Proof.
  unfold reset_tracks_trace. induction objs as [|x objs IH]; cbn [flat_map]; [reflexivity|].
  rewrite makedirs_of_app, IH. unfold reset_entry_trace, mute_all_trace.
  rewrite !makedirs_of_app, !makedirs_of_mutes. reflexivity.
Qed.

Lemma makedirs_of_pass_trace sc b x l : makedirs_of (pass_trace sc b x l) = [].
Proof. unfold pass_trace. induction l as [|y l IH]; [reflexivity|exact IH]. Qed.

Lemma makedirs_of_entries sc es : makedirs_of (flat_map (entry_trace sc) es) = [].
Proof.
  induction es as [|e es IH]; cbn [flat_map]; [reflexivity|].
  rewrite makedirs_of_app, IH. unfold entry_trace.
  now rewrite makedirs_of_app, !makedirs_of_pass_trace.
Qed.

Lemma makedirs_of_shots p sc frames : makedirs_of (flat_map (shot_trace p sc) frames) = [].
Proof. induction frames as [|f frames IH]; [reflexivity|exact IH]. Qed.

Lemma run_animation_full animal_name base_path anim frames w :
  is_Some (objects (w_scene w) !! "ShadowPlane") ->
  has_track (w_scene w) "rig" "reset" ->
  has_track (w_scene w) "rig" anim ->
  has_track (w_scene w) "rig" "Rotation" ->
  Py.range 1 (frame_end (w_scene w) + 1) 2 = Some frames ->
  exists w',
    run_animation animal_name base_path (Some ["rig"]) [] 1 anim w = (Done tt, w')
    /\ w_scene w'
       = fold_left (shot (anim_prefix base_path animal_name anim)) frames
                   (anim_scene anim (w_scene w))
    /\ w_dirs w' = {[ anim_dir base_path animal_name anim ]} ∪ w_dirs w
    /\ makedirs_of (w_trace w')
       = makedirs_of (w_trace w)
         ++ (if decide (anim_dir base_path animal_name anim ∈ w_dirs w) then []
             else [anim_dir base_path animal_name anim]).
Proof.
  intros [sp Hsp] Hreset Hanim Hrot Hrange.
  unfold run_animation. cbv zeta.
  erewrite bind_done by reflexivity.
  erewrite bind_done by (rewrite hide_objects_single_run, Hsp; reflexivity).
  erewrite bind_done by reflexivity.
  set (sc1 := hide_eff false "ShadowPlane" (w_scene w)).
  assert (Hsn1 : same_names (w_scene w) sc1) by apply same_names_hide_eff.
  erewrite bind_done.
  2:{ apply reset_tracks_done_iff. split; [|reflexivity].
      apply Forall_cons. split; [|constructor]. rewrite w_scene_upd.
      apply (same_names_has_track _ _ "rig" "reset" Hsn1). exact Hreset. }
  rewrite upd_upd.
  erewrite bind_done by reflexivity.
  set (sc2 := reset_tracks_eff ["rig"] sc1).
  assert (Hsn2 : same_names (w_scene w) sc2).
  { eapply same_names_trans; [exact Hsn1|apply same_names_reset_tracks_eff]. }
  erewrite bind_done.
  2:{ unfold mute_and_unmute. cbn [zip3]. apply mute_and_unmute_entries_done_iff.
      split; [|reflexivity]. rewrite w_scene_upd. fold sc1. fold sc2.
      apply Forall_cons. split; [|constructor]. split; cbn [fst snd arg_names].
      - constructor.
      - apply Forall_cons. split; [|apply Forall_cons; split; [|constructor]].
        + now apply (same_names_has_track _ _ "rig" anim Hsn2).
        + now apply (same_names_has_track _ _ "rig" "Rotation" Hsn2). }
  rewrite w_scene_upd, upd_upd. fold sc1. fold sc2.
  erewrite bind_done by reflexivity.
  fold (anim_dir base_path animal_name anim).
  change (w_dirs (upd ?f ?e w)) with (w_dirs w).
  destruct (decide (anim_dir base_path animal_name anim ∈ w_dirs w)) as [Hin|Hnin].
  - rewrite bool_decide_true by assumption. cbn [negb].
    erewrite bind_done by reflexivity.
    rewrite (write_animations2_run _ _ _ _ _ frames Hrange).
    eexists. split; [reflexivity|]. split; [reflexivity|]. split.
    + change (w_dirs (upd ?f ?e (upd ?g ?e' w))) with (w_dirs w).
      symmetry. apply subseteq_union_1_L. now apply singleton_subseteq_l.
    + rewrite !w_trace_upd, !makedirs_of_app.
      rewrite makedirs_of_reset_tracks_trace, makedirs_of_entries, makedirs_of_shots.
      change (makedirs_of (hide_trace false "ShadowPlane")) with (@nil string).
      now rewrite !app_nil_r.
  - rewrite bool_decide_false by assumption. cbn [negb].
    erewrite bind_done by reflexivity.
    rewrite (write_animations2_run _ _ _ _ _ frames Hrange).
    eexists. split; [reflexivity|]. split; [reflexivity|]. split; [reflexivity|].
    cbn [w_trace upd emit with_scene add_dir].
    rewrite !makedirs_of_app.
    rewrite makedirs_of_reset_tracks_trace, makedirs_of_entries, makedirs_of_shots.
    change (makedirs_of (hide_trace false "ShadowPlane")) with (@nil string).
    now rewrite !app_nil_r.
Qed.

Lemma squirrel_start_ready sc : squirrel_scene sc -> anim_ready (squirrel_start sc).
Proof.
  intros (Hvg & [sp Hsp] & Hreset & Hidle & Hwalk & Hrot).
  assert (Hsn : same_names sc (squirrel_start sc)).
  { eapply same_names_trans; [apply (same_names_hide_eff true "visibleground")|].
    apply (same_names_hide_eff false "ShadowPlane"). }
  repeat split; try (now apply (same_names_has_track _ _ "rig" _ Hsn)).
  apply (objects_hide_eff_is_Some false "ShadowPlane").
  rewrite objects_hide_eff_ne, Hsp by discriminate. eauto.
Qed.

Lemma run_case_squirrel_full w :
  squirrel_scene (w_scene w) ->
  let base_path := Py.path_join (w_blend_dir w) "renders" +:+ Py.sep in
  let idle_dir := anim_dir base_path "squirrel" "Idle1" in
  let walk_dir := anim_dir base_path "squirrel" "Walk" in
  exists w',
    run_case "squirrel" w = (Done tt, w')
    /\ w_scene w'
       = after_anim base_path "Walk" (after_anim base_path "Idle1" (squirrel_start (w_scene w)))
    /\ w_dirs w' = {[ walk_dir ]} ∪ ({[ idle_dir ]} ∪ w_dirs w)
    /\ makedirs_of (w_trace w')
       = makedirs_of (w_trace w)
         ++ (if decide (idle_dir ∈ w_dirs w) then [] else [idle_dir])
         ++ (if decide (walk_dir ∈ {[ idle_dir ]} ∪ w_dirs w) then [] else [walk_dir]).
Proof.
  intros Hscene base_path idle_dir walk_dir.
  pose proof (squirrel_start_ready _ Hscene) as Hready.
  destruct Hscene as ([vg Hvg] & [sp Hsp] & _).
  unfold run_case.
  erewrite bind_done by reflexivity. fold base_path.
  erewrite bind_done by (rewrite hide_objects_single_run, Hvg; reflexivity).
  erewrite bind_done.
  2:{ rewrite hide_objects_single_run, w_scene_upd.
      rewrite objects_hide_eff_ne, Hsp by discriminate. reflexivity. }
  rewrite upd_upd.
  erewrite bind_done by reflexivity.
  change (emit ?evs (with_scene ?g (upd ?f ?evs0 ?v)))
    with (upd g evs (upd f evs0 v)).
  rewrite upd_upd.
  set (w3 := upd _ _ w).
  assert (Hsc3 : w_scene w3 = squirrel_start (w_scene w)) by reflexivity.
  unfold animation_list. cbn [for_each].
  destruct Hready as (R1 & R2 & R3 & R4 & R5 & R6).
  destruct (run_animation_full "squirrel" base_path "Idle1" squirrel_frames w3)
    as (w4 & Hrun4 & Hsc4 & Hdirs4 & Hmk4); rewrite ?Hsc3; try assumption.
  { rewrite R6. apply squirrel_frames_range. }
  erewrite bind_done by exact Hrun4.
  assert (Hready4 : anim_ready (w_scene w4)).
  { rewrite Hsc4, Hsc3. apply anim_ready_next. repeat split; assumption. }
  destruct Hready4 as (S1 & S2 & S3 & S4 & S5 & S6).
  destruct (run_animation_full "squirrel" base_path "Walk" squirrel_frames w4)
    as (w5 & Hrun5 & Hsc5 & Hdirs5 & Hmk5); try assumption.
  { rewrite S6. apply squirrel_frames_range. }
  erewrite bind_done by exact Hrun5.
  exists w5. split; [reflexivity|]. split; [|split].
  - rewrite Hsc5, Hsc4, Hsc3. reflexivity.
  - rewrite Hdirs5, Hdirs4. reflexivity.
  - rewrite Hmk5, Hmk4, Hdirs4. fold idle_dir. fold walk_dir.
    change (w_dirs w3) with (w_dirs w).
    unfold w3. rewrite w_trace_upd, makedirs_of_app.
    rewrite <- !app_assoc. f_equal.
Qed.

Lemma mute_all_mute_fold b idxs ts : mute_all (mute_fold b idxs ts) = mute_all ts.
Proof.
  unfold mute_fold. revert ts.
  induction idxs as [|i idxs IH]; intros ts; cbn [fold_left]; [reflexivity|].
  now rewrite IH, mute_all_mute_at.
Qed.

Lemma lookup_tracks_anim_scene anim sc y :
  lookup_tracks (anim_scene anim sc) y
  = if decide (y = "rig")
    then (fun ts => mute_fold false [track_index sc "rig" anim; track_index sc "rig" "Rotation"]
                      (mute_all ts)) <$> lookup_tracks sc y
    else lookup_tracks sc y.
Proof.
  unfold anim_scene, entries_eff. cbn [fold_left].
  rewrite lookup_tracks_entry_eff. cbn [fst snd arg_names map].
  rewrite lookup_tracks_reset_tracks_eff, lookup_tracks_hide_eff.
  assert (Hsn : same_names sc (reset_tracks_eff ["rig"] (hide_eff false "ShadowPlane" sc))).
  { eapply same_names_trans; [apply same_names_hide_eff|apply same_names_reset_tracks_eff]. }
  rewrite !(same_names_track_index _ _ "rig" _ Hsn).
  destruct (decide (y = "rig")) as [->|Hy].
  - rewrite decide_True by reflexivity.
    rewrite decide_True by apply list_elem_of_here.
    now destruct (lookup_tracks sc "rig").
  - rewrite decide_False by congruence.
    rewrite decide_False; [reflexivity|].
    intros Hin. apply list_elem_of_singleton in Hin. contradiction.
Qed.

Lemma lookup_tracks_after_anim base_path anim sc y :
  lookup_tracks (after_anim base_path anim sc) y
  = if decide (y = "rig")
    then (fun ts => mute_fold false [track_index sc "rig" anim; track_index sc "rig" "Rotation"]
                      (mute_all ts)) <$> lookup_tracks sc y
    else lookup_tracks sc y.
Proof. unfold after_anim. rewrite fold_shot_lookup_tracks. apply lookup_tracks_anim_scene. Qed.

Lemma same_names_after_anim base_path anim sc : same_names sc (after_anim base_path anim sc).
Proof.
  unfold after_anim.
  eapply same_names_trans; [apply same_names_anim_scene|apply same_names_fold_shot].
Qed.

Lemma same_names_squirrel_start sc : same_names sc (squirrel_start sc).
Proof.
  unfold squirrel_start.
  eapply same_names_trans; [apply (same_names_hide_eff true "visibleground")|].
  apply (same_names_hide_eff false "ShadowPlane").
Qed.

Lemma hidden_flags_after_anim base_path anim sc y :
  hidden_flags (after_anim base_path anim sc) y
  = hidden_flags (hide_eff false "ShadowPlane" sc) y.
Proof. unfold after_anim. now rewrite fold_shot_hidden_flags, hidden_flags_anim_scene. Qed.

Lemma after_anim_frame base_path anim sc :
  frame_current (after_anim base_path anim sc) = 159
  /\ render_filepath (after_anim base_path anim sc)
     = frame_filename (anim_prefix base_path "squirrel" anim) 159
  /\ frame_end (after_anim base_path anim sc) = frame_end sc.
Proof.
  unfold after_anim.
  change squirrel_frames with (map (fun k : nat => 2 * Z.of_nat k + 1) (seq 0 79) ++ [159]).
  destruct (fold_shot_last (anim_prefix base_path "squirrel" anim)
              (map (fun k : nat => 2 * Z.of_nat k + 1) (seq 0 79)) 159 (anim_scene anim sc))
    as [Hf Hp].
  split; [exact Hf|]. split; [exact Hp|].
  now rewrite (proj2 (fold_shot_objects _ _ _)), frame_end_anim_scene.
Qed.

Lemma frame_filename_walk_159 root :
  frame_filename (anim_prefix (root +:+ Py.sep) "squirrel" "Walk") 159
  = root +:+ "/squirrel/Walk/Walk_159.png".
Proof.
  rewrite anim_prefix_walk. unfold frame_filename.
  change (Py.zfill 3 (Py.str 159)) with "159".
  now rewrite !app_assoc_str.
Qed.

(** X19: the state a successful [run_case("squirrel")] leaves.  On a scene
    with the two planes and a rig carrying the four tracks, the run
    returns with the current frame at 159 (the last odd frame up to 160),
    [frame_end] at 160 and the render path at the last file of ["Walk"];
    of the rig's tracks exactly those at the positions of ["Walk"] and
    ["Rotation"] are unmuted, all others muted (so ["Idle1"] is muted
    again); the tracks of every other object are as before; the ground
    plane is hidden, the shadow plane shown, and no other object's
    visibility changes. *)
Theorem run_case_squirrel_final_state (w : world) (ts : list nla_track) :
  squirrel_scene (w_scene w) ->
  lookup_tracks (w_scene w) "rig" = Some ts ->
  exists w',
    run_case "squirrel" w = (Done tt, w')
    /\ frame_current (w_scene w') = 159
    /\ frame_end (w_scene w') = 160
    /\ render_filepath (w_scene w')
       = Py.path_join (w_blend_dir w) "renders" +:+ "/squirrel/Walk/Walk_159.png"
    /\ lookup_tracks (w_scene w') "rig"
       = Some (mute_fold false [track_index (w_scene w) "rig" "Walk";
                                track_index (w_scene w) "rig" "Rotation"]
                         (mute_all ts))
    /\ (forall y, y <> "rig" -> lookup_tracks (w_scene w') y = lookup_tracks (w_scene w) y)
    /\ (forall y, hidden_flags (w_scene w') y
                  = if decide (y = "ShadowPlane")
                    then (fun _ => (false, false)) <$> hidden_flags (w_scene w) y
                    else if decide (y = "visibleground")
                         then (fun _ => (true, true)) <$> hidden_flags (w_scene w) y
                         else hidden_flags (w_scene w) y).
Proof.
  intros Hscene Hts.
  destruct (run_case_squirrel_full w Hscene) as (w' & Hrun & Hsc & _).
  exists w'. split; [exact Hrun|]. rewrite Hsc.
  set (base_path := Py.path_join (w_blend_dir w) "renders" +:+ Py.sep).
  set (sc1 := after_anim base_path "Idle1" (squirrel_start (w_scene w))).
  destruct (after_anim_frame base_path "Walk" sc1) as (Hf & Hp & He).
  split; [exact Hf|]. split.
  { rewrite He. unfold sc1.
    now rewrite (proj2 (proj2 (after_anim_frame base_path "Idle1" _))). }
  split.
  { rewrite Hp. apply frame_filename_walk_159. }
  assert (Hsn : same_names (w_scene w) sc1).
  { eapply same_names_trans; [apply same_names_squirrel_start|apply same_names_after_anim]. }
  split; [|split].
  - rewrite lookup_tracks_after_anim, decide_True by reflexivity.
    rewrite !(same_names_track_index _ _ "rig" _ Hsn).
    unfold sc1. rewrite lookup_tracks_after_anim, decide_True by reflexivity.
    unfold squirrel_start.
    change (lookup_tracks (set_frame_end 160 ?s) "rig") with (lookup_tracks s "rig").
    rewrite !lookup_tracks_hide_eff, Hts. cbn [fmap option_fmap option_map].
    now rewrite mute_all_mute_fold, mute_all_idem.
  - intros y Hy. rewrite lookup_tracks_after_anim, decide_False by assumption.
    unfold sc1. rewrite lookup_tracks_after_anim, decide_False by assumption.
    unfold squirrel_start.
    change (lookup_tracks (set_frame_end 160 ?s) y) with (lookup_tracks s y).
    now rewrite !lookup_tracks_hide_eff.
  - intros y. rewrite hidden_flags_after_anim, hidden_flags_hide_eff.
    unfold sc1. rewrite hidden_flags_after_anim, hidden_flags_hide_eff.
    unfold squirrel_start.
    change (hidden_flags (set_frame_end 160 ?s) y) with (hidden_flags s y).
    rewrite !hidden_flags_hide_eff.
    repeat case_decide; subst; try congruence; try discriminate;
      now destruct (hidden_flags (w_scene w) _).
Qed.

Lemma run_case_squirrel_final_state_witness :
  exists w',
    run_case "squirrel" Sample.w0 = (Done tt, w')
    /\ frame_current (w_scene w') = 159
    /\ frame_end (w_scene w') = 160
    /\ render_filepath (w_scene w')
       = Py.path_join (w_blend_dir Sample.w0) "renders" +:+ "/squirrel/Walk/Walk_159.png"
    /\ lookup_tracks (w_scene w') "rig"
       = Some (mute_fold false [track_index (w_scene Sample.w0) "rig" "Walk";
                                track_index (w_scene Sample.w0) "rig" "Rotation"]
                         (mute_all [NlaTrack "Idle1" false; NlaTrack "reset" false;
                                    NlaTrack "Walk" false; NlaTrack "Rotation" true]))
    /\ (forall y, y <> "rig" ->
                  lookup_tracks (w_scene w') y = lookup_tracks (w_scene Sample.w0) y)
    /\ (forall y, hidden_flags (w_scene w') y
                  = if decide (y = "ShadowPlane")
                    then (fun _ => (false, false)) <$> hidden_flags (w_scene Sample.w0) y
                    else if decide (y = "visibleground")
                         then (fun _ => (true, true)) <$> hidden_flags (w_scene Sample.w0) y
                         else hidden_flags (w_scene Sample.w0) y).
Proof.
  apply (run_case_squirrel_final_state Sample.w0).
  - unfold squirrel_scene, has_track.
    repeat split; try (eexists; vm_compute; reflexivity);
      eexists _, _; split; vm_compute; reflexivity.
  - vm_compute. reflexivity.
Defined.

(** The rig of the sample scene after the run: ["Walk"] and ["Rotation"]
    unmuted, ["Idle1"] and ["reset"] muted. *)
Example sample_final_rig :
  mute_fold false [track_index (w_scene Sample.w0) "rig" "Walk";
                   track_index (w_scene Sample.w0) "rig" "Rotation"]
            (mute_all [NlaTrack "Idle1" false; NlaTrack "reset" false;
                       NlaTrack "Walk" false; NlaTrack "Rotation" true])
  = [NlaTrack "Idle1" true; NlaTrack "reset" true;
     NlaTrack "Walk" false; NlaTrack "Rotation" false].
Proof. vm_compute. reflexivity. Qed.

Lemma anim_dir_idle1 root :
  anim_dir (root +:+ Py.sep) "squirrel" "Idle1" = root +:+ "/squirrel/Idle1".
Proof.
  unfold anim_dir, Py.sep. rewrite app_assoc_str.
  change ("/" +:+ "squirrel") with "/squirrel".
  now rewrite path_join_append by (reflexivity || discriminate).
Qed.

Lemma anim_dir_walk root :
  anim_dir (root +:+ Py.sep) "squirrel" "Walk" = root +:+ "/squirrel/Walk".
Proof.
  unfold anim_dir, Py.sep. rewrite app_assoc_str.
  change ("/" +:+ "squirrel") with "/squirrel".
  now rewrite path_join_append by (reflexivity || discriminate).
Qed.

(** X20: the directories of [run_case("squirrel")].  The run asks for the
    output directory of ["Idle1"], then for that of ["Walk"], and calls
    [os.makedirs] exactly for those of the two that do not exist when the
    run starts, in this order; a directory that exists is never created
    again, and both exist when the run returns. *)
Theorem run_case_squirrel_directories (w : world) :
  squirrel_scene (w_scene w) ->
  let root := Py.path_join (w_blend_dir w) "renders" in
  let idle_dir := root +:+ "/squirrel/Idle1" in
  let walk_dir := root +:+ "/squirrel/Walk" in
  exists w',
    run_case "squirrel" w = (Done tt, w')
    /\ makedirs_of (w_trace w')
       = makedirs_of (w_trace w) ++ filter (fun d => d ∉ w_dirs w) [idle_dir; walk_dir]
    /\ idle_dir ∈ w_dirs w'
    /\ walk_dir ∈ w_dirs w'
    /\ w_dirs w ⊆ w_dirs w'.
Proof.
  intros Hscene root idle_dir walk_dir.
  destruct (run_case_squirrel_full w Hscene) as (w' & Hrun & _ & Hdirs & Hmk).
  cbv zeta in Hdirs, Hmk. fold root in Hdirs, Hmk.
  rewrite anim_dir_idle1, anim_dir_walk in Hdirs, Hmk.
  fold idle_dir in Hdirs, Hmk. fold walk_dir in Hdirs, Hmk.
  assert (Hne : walk_dir <> idle_dir).
  { unfold walk_dir, idle_dir. intros E. apply append_inv_head in E. discriminate. }
  exists w'. split; [exact Hrun|]. split; [|rewrite Hdirs; split; [|split]].
  - rewrite Hmk. f_equal.
    assert (Hw : walk_dir ∈ ({[ idle_dir ]} ∪ w_dirs w : gset string) <-> walk_dir ∈ w_dirs w).
    { rewrite elem_of_union, elem_of_singleton. tauto. }
    rewrite !filter_cons, filter_nil.
    destruct (decide (idle_dir ∈ w_dirs w)) as [Hi|Hi];
      destruct (decide (walk_dir ∈ {[ idle_dir ]} ∪ w_dirs w)) as [Hw'|Hw'];
      destruct (decide (idle_dir ∉ w_dirs w)) as [Hi'|Hi'];
      destruct (decide (walk_dir ∉ w_dirs w)) as [Hw''|Hw'']; try reflexivity;
      try tauto.
  - apply elem_of_union_r, elem_of_union_l, elem_of_singleton. reflexivity.
  - apply elem_of_union_l, elem_of_singleton. reflexivity.
  - intros d Hd. now apply elem_of_union_r, elem_of_union_r.
Qed.

Lemma run_case_squirrel_directories_witness :
  exists w',
    run_case "squirrel" Sample.w0 = (Done tt, w')
    /\ makedirs_of (w_trace w')
       = makedirs_of (w_trace Sample.w0)
         ++ filter (fun d => d ∉ w_dirs Sample.w0)
              [Py.path_join (w_blend_dir Sample.w0) "renders" +:+ "/squirrel/Idle1";
               Py.path_join (w_blend_dir Sample.w0) "renders" +:+ "/squirrel/Walk"]
    /\ Py.path_join (w_blend_dir Sample.w0) "renders" +:+ "/squirrel/Idle1" ∈ w_dirs w'
    /\ Py.path_join (w_blend_dir Sample.w0) "renders" +:+ "/squirrel/Walk" ∈ w_dirs w'
    /\ w_dirs Sample.w0 ⊆ w_dirs w'.
Proof.
  apply (run_case_squirrel_directories Sample.w0).
  unfold squirrel_scene, has_track.
  repeat split; try (eexists; vm_compute; reflexivity);
    eexists _, _; split; vm_compute; reflexivity.
Defined.

Lemma renders_mutes x b (l : list nat) : renders (map (fun i => ESetMute x i b) l) = [].
Proof. induction l; simpl; auto. Qed.

Lemma renders_reset_tracks_trace sc objs : renders (reset_tracks_trace sc objs) = [].
Proof.
  unfold reset_tracks_trace. induction objs as [|x objs IH]; [reflexivity|].
  cbn [flat_map]. rewrite renders_app, IH, app_nil_r.
  unfold reset_entry_trace, mute_all_trace.
  rewrite !renders_app, !renders_mutes. reflexivity.
Qed.

(** An animation whose track the rig does not have: the shadow plane is
    shown and the rig reset, then the unmute pass raises at the animation's
    name; nothing is rendered and no directory is asked for. *)
Lemma run_animation_unknown animal_name base_path anim w ts :
  is_Some (objects (w_scene w) !! "ShadowPlane") ->
  has_track (w_scene w) "rig" "reset" ->
  lookup_tracks (w_scene w) "rig" = Some ts ->
  find_track anim ts = None ->
  exists w',
    run_animation animal_name base_path (Some ["rig"]) [] 1 anim w
    = (Raised (KeyError anim), w')
    /\ renders (w_trace w') = renders (w_trace w)
    /\ makedirs_of (w_trace w') = makedirs_of (w_trace w)
    /\ lookup_tracks (w_scene w') "rig" = Some (mute_all ts).
Proof.
  intros [sp Hsp] Hreset Hts Hn.
  unfold run_animation. cbv zeta.
  erewrite bind_done by reflexivity.
  erewrite bind_done by (rewrite hide_objects_single_run, Hsp; reflexivity).
  erewrite bind_done by reflexivity.
  set (sc1 := hide_eff false "ShadowPlane" (w_scene w)).
  assert (Hsn1 : same_names (w_scene w) sc1) by apply same_names_hide_eff.
  erewrite bind_done.
  2:{ apply reset_tracks_done_iff. split; [|reflexivity].
      apply Forall_cons. split; [|constructor]. rewrite w_scene_upd.
      apply (same_names_has_track _ _ "rig" "reset" Hsn1). exact Hreset. }
  rewrite upd_upd, w_scene_upd. fold sc1.
  erewrite bind_done by reflexivity.
  set (w2 := upd _ _ w).
  assert (Hts2 : lookup_tracks (w_scene w2) "rig" = Some (mute_all ts)).
  { unfold w2. rewrite w_scene_upd, lookup_tracks_reset_tracks_eff.
    rewrite decide_True by apply list_elem_of_here.
    now rewrite lookup_tracks_hide_eff, Hts. }
  destruct (mute_and_unmute_stops_at_unknown "rig" [] [] ["Rotation"] anim w2 (mute_all ts))
    as (w' & Hrun & Htr & Hts'); try assumption; try constructor.
  { rewrite (find_track_names anim _ ts) by apply mute_all_names. exact Hn. }
  exists w'. split.
  { erewrite bind_raised; [reflexivity|]. exact Hrun. }
  cbn [pass_trace map app] in Htr. rewrite app_nil_r in Htr.
  rewrite Htr. unfold w2. rewrite w_trace_upd.
  split; [|split].
  - rewrite !renders_app, renders_reset_tracks_trace. cbn [hide_trace renders omap].
    now rewrite !app_nil_r.
  - rewrite !makedirs_of_app, makedirs_of_reset_tracks_trace.
    change (makedirs_of (hide_trace false "ShadowPlane")) with (@nil string).
    now rewrite !app_nil_r.
  - exact Hts'.
Qed.

(** X21: [run_case("squirrel")] on a rig without a ["Walk"] track.  The
    run is not all or nothing: the 80 frames of ["Idle1"] are rendered and
    its directory asked for first, then the second pass of the loop mutes
    every track of the rig and raises [KeyError] for ["Walk"]; no frame of
    ["Walk"] is rendered, its directory is not created, and the rig is left
    with every track muted. *)
Theorem run_case_squirrel_missing_walk (w : world) (ts : list nla_track) :
  is_Some (objects (w_scene w) !! "visibleground") ->
  is_Some (objects (w_scene w) !! "ShadowPlane") ->
  has_track (w_scene w) "rig" "reset" ->
  has_track (w_scene w) "rig" "Idle1" ->
  has_track (w_scene w) "rig" "Rotation" ->
  lookup_tracks (w_scene w) "rig" = Some ts ->
  find_track "Walk" ts = None ->
  let root := Py.path_join (w_blend_dir w) "renders" in
  exists w',
    run_case "squirrel" w = (Raised (KeyError "Walk"), w')
    /\ renders (w_trace w')
       = renders (w_trace w)
         ++ map (shot (root +:+ "/squirrel/Idle1/Idle1")
                      (anim_scene "Idle1" (squirrel_start (w_scene w))))
                squirrel_frames
    /\ makedirs_of (w_trace w')
       = makedirs_of (w_trace w)
         ++ filter (fun d => d ∉ w_dirs w) [root +:+ "/squirrel/Idle1"]
    /\ lookup_tracks (w_scene w') "rig" = Some (mute_all ts).
Proof.
  intros [vg Hvg] [sp Hsp] Hreset Hidle Hrot Hts Hwalk root.
  unfold run_case.
  erewrite bind_done by reflexivity. fold root.
  set (base_path := root +:+ Py.sep).
  erewrite bind_done by (rewrite hide_objects_single_run, Hvg; reflexivity).
  erewrite bind_done.
  2:{ rewrite hide_objects_single_run, w_scene_upd.
      rewrite objects_hide_eff_ne, Hsp by discriminate. reflexivity. }
  rewrite upd_upd.
  erewrite bind_done by reflexivity.
  change (emit ?evs (with_scene ?g (upd ?f ?evs0 ?v)))
    with (upd g evs (upd f evs0 v)).
  rewrite upd_upd.
  set (w3 := upd _ _ w).
  assert (Hsc3 : w_scene w3 = squirrel_start (w_scene w)) by reflexivity.
  assert (Hsn3 : same_names (w_scene w) (w_scene w3)).
  { rewrite Hsc3. apply same_names_squirrel_start. }
  assert (Hsp3 : is_Some (objects (w_scene w3) !! "ShadowPlane")).
  { rewrite Hsc3. apply (objects_hide_eff_is_Some false "ShadowPlane").
    rewrite objects_hide_eff_ne, Hsp by discriminate. eauto. }
  unfold animation_list. cbn [for_each].
  destruct (run_animation_full "squirrel" base_path "Idle1" squirrel_frames w3)
    as (w4 & Hrun4 & Hsc4 & Hdirs4 & Hmk4);
    try (now apply (same_names_has_track _ _ "rig" _ Hsn3)); try assumption.
  { rewrite Hsc3. apply squirrel_frames_range. }
  destruct (run_animation_done "squirrel" base_path "Idle1" squirrel_frames w3)
    as (w4' & Hrun4' & Hren4 & _);
    try (now apply (same_names_has_track _ _ "rig" _ Hsn3)); try assumption.
  { rewrite Hsc3. apply squirrel_frames_range. }
  assert (w4' = w4) as -> by congruence.
  erewrite bind_done by exact Hrun4.
  assert (Hsn4 : same_names (w_scene w) (w_scene w4)).
  { rewrite Hsc4. eapply same_names_trans; [exact Hsn3|].
    apply (same_names_after_anim base_path "Idle1"). }
  assert (Hts4 : lookup_tracks (w_scene w4) "rig"
                 = Some (mute_fold false [track_index (w_scene w3) "rig" "Idle1";
                                          track_index (w_scene w3) "rig" "Rotation"]
                                   (mute_all ts))).
  { rewrite Hsc4. fold (after_anim base_path "Idle1" (w_scene w3)).
    rewrite lookup_tracks_after_anim, decide_True by reflexivity.
    assert (Hts3 : lookup_tracks (w_scene w3) "rig" = Some ts).
    { rewrite Hsc3. unfold squirrel_start.
      change (lookup_tracks (set_frame_end 160 ?s) "rig") with (lookup_tracks s "rig").
      now rewrite !lookup_tracks_hide_eff. }
    now rewrite Hts3. }
  assert (Hsp4 : is_Some (objects (w_scene w4) !! "ShadowPlane")).
  { rewrite Hsc4. apply hidden_flags_is_Some.
    rewrite fold_shot_hidden_flags, hidden_flags_anim_scene.
    apply hidden_flags_is_Some, objects_hide_eff_is_Some, Hsp3. }
  assert (Hreset4 : has_track (w_scene w4) "rig" "reset")
    by now apply (same_names_has_track _ _ "rig" _ Hsn4).
  assert (Hwalk4 : find_track "Walk"
                     (mute_fold false [track_index (w_scene w3) "rig" "Idle1";
                                       track_index (w_scene w3) "rig" "Rotation"]
                                (mute_all ts)) = None).
  { rewrite (find_track_names "Walk" _ ts); [exact Hwalk|].
    now rewrite mute_fold_names, mute_all_names. }
  destruct (run_animation_unknown "squirrel" base_path "Walk" w4 _ Hsp4 Hreset4 Hts4 Hwalk4)
    as (w5 & Hrun5 & Hren5 & Hmk5 & Hts5).
  exists w5. split; [erewrite bind_raised; [reflexivity|exact Hrun5]|].
  split; [|split].
  - rewrite Hren5, Hren4. unfold w3 at 1. rewrite w_trace_upd, renders_app.
    cbn [hide_trace app renders omap]. rewrite app_nil_r. f_equal.
    unfold base_path. rewrite anim_prefix_idle1.
    rewrite Hsc3. reflexivity.
  - rewrite Hmk5, Hmk4. unfold w3 at 1. rewrite w_trace_upd, makedirs_of_app.
    cbn [hide_trace app makedirs_of omap]. rewrite app_nil_r. f_equal.
    change (w_dirs w3) with (w_dirs w).
    unfold base_path. rewrite anim_dir_idle1.
    rewrite filter_cons, filter_nil.
    destruct (decide (root +:+ "/squirrel/Idle1" ∈ w_dirs w));
      destruct (decide (root +:+ "/squirrel/Idle1" ∉ w_dirs w)); try reflexivity; tauto.
  - rewrite Hts5. now rewrite mute_all_mute_fold, mute_all_idem.
Qed.

Lemma run_case_squirrel_missing_walk_witness :
  exists w',
    run_case "squirrel" w_no_walk = (Raised (KeyError "Walk"), w')
    /\ renders (w_trace w')
       = renders (w_trace w_no_walk)
         ++ map (shot (Py.path_join (w_blend_dir w_no_walk) "renders" +:+ "/squirrel/Idle1/Idle1")
                      (anim_scene "Idle1" (squirrel_start (w_scene w_no_walk))))
                squirrel_frames
    /\ makedirs_of (w_trace w')
       = makedirs_of (w_trace w_no_walk)
         ++ filter (fun d => d ∉ w_dirs w_no_walk)
              [Py.path_join (w_blend_dir w_no_walk) "renders" +:+ "/squirrel/Idle1"]
    /\ lookup_tracks (w_scene w') "rig"
       = Some (mute_all [NlaTrack "Idle1" false; NlaTrack "reset" false;
                         NlaTrack "Rotation" true]).
Proof.
  apply (run_case_squirrel_missing_walk w_no_walk).
  - eexists; vm_compute; reflexivity.
  - eexists; vm_compute; reflexivity.
  - eexists _, _; split; vm_compute; reflexivity.
  - eexists _, _; split; vm_compute; reflexivity.
  - eexists _, _; split; vm_compute; reflexivity.
  - vm_compute. reflexivity.
  - vm_compute. reflexivity.
Defined.
